(** * SimPyManufacturing: the discrete-event simulator of classes/simulator_7.py

    A shallow embedding of [Simulator] (constraint checks, the activity
    process, the dispatch generator, [simulate] and its result processing),
    together with the part of SimPy's event loop and [FilterStore] that the
    simulator drives.  Virtual time, lags, delays and durations are
    integers; [float("inf")] is a separate constructor.  The calls to [print]
    guarded by [self.printing] produce no state; the one whose message can
    fail to evaluate (in [_availability_constraint_check]) is kept as that
    failure, the others are left out. *)

From Stdlib Require Import ZArith List String Bool Arith Lia Sorted Permutation.
Import ListNotations.
Local Open Scope Z_scope.

(** ** Python values and exceptions *)

Inductive Exn := IndexError | KeyError | ValueError | RuntimeError.

Inductive Exc (A : Type) :=
| Ok (a : A)
| Raise (e : Exn).
Arguments Ok {A} a.
Arguments Raise {A} e.

(** [float("inf")] next to finite times. *)
Inductive xtime :=
| Fin (t : Z)
| Inf.

Definition xtime_eqb (a b : xtime) : bool :=
  match a, b with
  | Fin x, Fin y => x =? y
  | Inf, Inf => true
  | _, _ => false
  end.

Definition xmax (a b : xtime) : xtime :=
  match a, b with
  | Fin x, Fin y => Fin (Z.max x y)
  | _, _ => Inf
  end.

(** Python's [max] over a sequence: [ValueError] on the empty one. *)
Definition py_max (l : list xtime) : Exc xtime :=
  match l with
  | [] => Raise ValueError
  | x :: rest => Ok (fold_left xmax rest x)
  end.

(** ** classes.classes *)

(** Modelled from the spec: the enumerations [FailureCode] and [Action] of
    classes/classes.py, which is not among the sources at hand.  The members
    are those the spec lists; as members of a Python [Enum] they are all
    truthy. *)
Inductive FailureCode := AVAILABILITY | PRECEDENCE | MIN_LAG | MAX_LAG | COMPATIBILITY.

Inductive Action := START | END.

Definition Action_eqb (a b : Action) : bool :=
  match a, b with
  | START, START | END, END => true
  | _, _ => false
  end.

(** Modelled from the spec: the plan classes of classes/classes.py
    ([TemporalRelation], [Activity], [Product], [Factory], [ProductionPlan]),
    reduced to the attributes simulator_7.py reads. *)
Record TemporalRelation := {
  min_lag : Z;
  max_lag : option Z
}.

Record Constraint := {
  constraint_product_id : nat;
  constraint_activity_id : nat
}.

Record Activity := {
  constraints : list Constraint
}.

Record Product := {
  product_id : nat;
  deadline : Z;
  activities : list Activity;
  predecessors : list (list nat);
  temporal_relations : list ((nat * nat) * TemporalRelation)
}.

Record Factory := {
  resource_names : list string;
  capacity : list nat
}.

Record ProductionPlan := {
  plan_factory : Factory;
  products : list Product;
  earliest_start : list (nat * nat)   (* product_index, activity_id *)
}.

Definition pair_eqb (a b : nat * nat) : bool :=
  (fst a =? fst b)%nat && (snd a =? snd b)%nat.

(** Lookup in a Python dict kept as an association list. *)
Fixpoint dict_get {V : Type} (d : list ((nat * nat) * V)) (k : nat * nat) : option V :=
  match d with
  | [] => None
  | (k', v) :: rest => if pair_eqb k' k then Some v else dict_get rest k
  end.

(** [d[k] = v]: an existing key keeps its position, a new one goes last. *)
Fixpoint dict_set {V : Type} (d : list ((nat * nat) * V)) (k : nat * nat) (v : V)
  : list ((nat * nat) * V) :=
  match d with
  | [] => [(k, v)]
  | (k', v') :: rest =>
      if pair_eqb k' k then (k', v) :: rest else (k', v') :: dict_set rest k v
  end.

(** Modelled from the spec: [SimulatorLogger] of classes/classes.py (spec
    section 4.2): an append-only list of entries, the set of active
    (product index, activity id) pairs, and the [failure_code] attribute the
    simulator assigns. *)
Record LogEntry := {
  entry_product_id : nat;
  entry_activity_id : nat;
  entry_product_index : nat;
  entry_action : Action;
  timestamp : Z
}.

Record SimulatorLogger := {
  log : list LogEntry;
  active_processes : list (nat * nat);
  failure_code : option FailureCode
}.

Definition set_failure_code (lg : SimulatorLogger) (c : option FailureCode)
  : SimulatorLogger :=
  {| log := log lg; active_processes := active_processes lg; failure_code := c |}.

Definition entry_matches (product_index activity_id : nat) (action : Action)
  (e : LogEntry) : bool :=
  (entry_product_index e =? product_index)%nat
  && (entry_activity_id e =? activity_id)%nat
  && Action_eqb (entry_action e) action.

(** Modelled from the spec: [fetch_latest_entry], the most recent entry of
    that activity and action, or [None]. *)
Definition fetch_latest_entry (lg : SimulatorLogger)
  (product_index activity_id : nat) (action : Action) : option LogEntry :=
  find (entry_matches product_index activity_id action) (rev (log lg)).

(** Modelled from the spec: [log_activity] appends the entry; START adds the
    pair to the active set and END removes it. *)
Definition log_activity (lg : SimulatorLogger)
  (pid activity_id product_index : nat) (action : Action) (t : Z)
  : SimulatorLogger :=
  {| log := log lg ++ [ {| entry_product_id := pid;
                           entry_activity_id := activity_id;
                           entry_product_index := product_index;
                           entry_action := action;
                           timestamp := t |} ];
     active_processes :=
       match action with
       | START => active_processes lg ++ [(product_index, activity_id)]
       | END => filter (fun p => negb (pair_eqb p (product_index, activity_id)))
                       (active_processes lg)
       end;
     failure_code := failure_code lg |}.

Definition is_active (lg : SimulatorLogger) (p : nat * nat) : bool :=
  existsb (pair_eqb p) (active_processes lg).

(** ** Resources and the resource-usage table *)

(** [namedtuple('Machine', 'resource_group, id')] *)
Record Machine := {
  resource_group : string;
  machine_id : nat
}.

Inductive NeedsCell :=
| NeedsInf                       (* float("inf") *)
| NeedsVector (needs : list Z).

Inductive ResourcesCell :=
| Marker (s : string)
| Assigned (resources : list Machine).

Record UsageRecord := {
  ProductIndex : nat;
  ActivityId : nat;
  Needs : NeedsCell;
  Resources : ResourcesCell;
  Request : xtime;
  Retrieve : xtime;
  Start : xtime;
  Finish : xtime
}.

Definition sentinel (product_index activity_id : nat) : UsageRecord :=
  {| ProductIndex := product_index;
     ActivityId := activity_id;
     Needs := NeedsInf;
     Resources := Marker "NOT PROCESSED DUE TO CLASH";
     Request := Inf;
     Retrieve := Inf;
     Start := Inf;
     Finish := Inf |}.

(** ** The operator (external dispatch policy) *)

(** The tuple returned by [operator.send_next_activity].  The delay and the
    processing time are passed on to [env.timeout]; they are integers here,
    as all times are: an operator that answers with a float is not
    covered. *)
Record Decision := {
  send_activity : bool;
  delay : Z;
  d_activity_id : nat;
  d_product_index : nat;
  d_proc_time : Z;
  d_needs : list Z;
  finish : bool
}.

(** The operator is outside the engine: an arbitrary state, which also
    stands for whatever it draws from Python's global random generator, and
    the two methods the simulator calls.  [random_seed] is the effect of
    [random.seed(random_seed)] on that state. *)
Record Operator := {
  OpState : Type;
  random_seed : Z -> OpState -> OpState;
  send_next_activity : OpState -> Z -> Decision * OpState;
  signal_failed_activity :
    OpState -> nat -> nat -> Z -> FailureCode -> OpState
}.

(** ** Generator frames

    A SimPy process is a Python generator; a suspended one is its local
    variables together with the [yield] it waits at. *)

Record ActivityArgs := {
  activity_id : nat;
  product_index : nat;
  proc_time : Z;
  needs : list Z
}.

(** [activity_processing] suspended at [yield self.factory.get(...)]:
    [acq_remaining] iterations of the inner [range(0, need)] loop are left
    after this one, and the outer loop continues at index [acq_r] with the
    needs [acq_rest]. *)
Record Acquiring := {
  acq_args : ActivityArgs;
  acq_request_time : Z;
  acq_resources : list Machine;
  acq_group : string;
  acq_remaining : nat;
  acq_r : nat;
  acq_rest : list Z
}.

(** [activity_processing] suspended at [yield self.env.timeout(proc_time)]. *)
Record Processing := {
  args : ActivityArgs;
  request_time : Z;
  retrieve_time : Z;
  start_time : Z;
  resources : list Machine
}.

(** [activity_processing] suspended at [yield self.factory.put(resource)];
    [rel_rest] are the resources the [for] loop has still to visit. *)
Record Releasing := {
  rel_frame : Processing;
  end_time : Z;
  rel_rest : list Machine
}.

(** ** SimPy: events, the environment, the filter store *)

Inductive Event :=
| Initialize_generator                       (* Process(activity_generator()) *)
| Initialize_activity (a : ActivityArgs)     (* Process(activity_processing(...)) *)
| Timeout_generator (finish : bool)
| Timeout_processing (p : Processing)
| StoreGet (item : Machine) (w : Acquiring)  (* a get that succeeded with [item] *)
| StorePut (w : Releasing)                   (* a put that succeeded *)
| ProcessEvent (exc : option Exn)            (* a process that returned or raised *)
| Until.                                     (* the event [run(until=...)] schedules *)

Definition URGENT : nat := 0.
Definition NORMAL : nat := 1.

Record Scheduled := {
  at_time : Z;
  priority : nat;
  seq : nat;
  event : Event
}.

(** The order of the heap's (time, priority, eid) keys. *)
Definition key_ltb (a b : Scheduled) : bool :=
  (at_time a <? at_time b)
  || ((at_time a =? at_time b)
      && ((priority a <? priority b)%nat
          || ((priority a =? priority b)%nat && (seq a <? seq b)%nat))).

(** The heap is kept as the sorted list of its entries, so that [heappop]
    is the head. *)
Fixpoint heappush (x : Scheduled) (q : list Scheduled) : list Scheduled :=
  match q with
  | [] => [x]
  | y :: q' => if key_ltb x y then x :: q else y :: heappush x q'
  end.

Record Environment := {
  now : Z;
  queue : list Scheduled;
  eid : nat
}.

Record FilterStore := {
  store_capacity : Z;
  items : list Machine;
  get_queue : list Acquiring;
  put_queue : list (Machine * Releasing)
}.

(** ** The simulator object *)

Record Simulator (op : Operator) := {
  env : Environment;
  factory : FilterStore;
  resource_usage : list ((nat * nat) * UsageRecord);
  printing : bool;
  nr_clashes : nat;
  logger : SimulatorLogger;
  operator : OpState op
}.
Arguments env {op} _.
Arguments factory {op} _.
Arguments resource_usage {op} _.
Arguments printing {op} _.
Arguments nr_clashes {op} _.
Arguments logger {op} _.
Arguments operator {op} _.

Section SimPy.
Context {op : Operator}.

Definition set_env (st : Simulator op) (e : Environment) : Simulator op :=
  {| env := e; factory := factory st; resource_usage := resource_usage st;
     printing := printing st; nr_clashes := nr_clashes st; logger := logger st;
     operator := operator st |}.

Definition set_factory (st : Simulator op) (f : FilterStore) : Simulator op :=
  {| env := env st; factory := f; resource_usage := resource_usage st;
     printing := printing st; nr_clashes := nr_clashes st; logger := logger st;
     operator := operator st |}.

Definition set_resource_usage (st : Simulator op)
  (u : list ((nat * nat) * UsageRecord)) : Simulator op :=
  {| env := env st; factory := factory st; resource_usage := u;
     printing := printing st; nr_clashes := nr_clashes st; logger := logger st;
     operator := operator st |}.

Definition set_nr_clashes (st : Simulator op) (n : nat) : Simulator op :=
  {| env := env st; factory := factory st; resource_usage := resource_usage st;
     printing := printing st; nr_clashes := n; logger := logger st;
     operator := operator st |}.

Definition set_logger (st : Simulator op) (lg : SimulatorLogger) : Simulator op :=
  {| env := env st; factory := factory st; resource_usage := resource_usage st;
     printing := printing st; nr_clashes := nr_clashes st; logger := lg;
     operator := operator st |}.

Definition set_operator (st : Simulator op) (o : OpState op) : Simulator op :=
  {| env := env st; factory := factory st; resource_usage := resource_usage st;
     printing := printing st; nr_clashes := nr_clashes st; logger := logger st;
     operator := o |}.

Definition set_items (st : Simulator op) (l : list Machine) : Simulator op :=
  set_factory st {| store_capacity := store_capacity (factory st); items := l;
                    get_queue := get_queue (factory st);
                    put_queue := put_queue (factory st) |}.

Definition set_get_queue (st : Simulator op) (q : list Acquiring) : Simulator op :=
  set_factory st {| store_capacity := store_capacity (factory st);
                    items := items (factory st); get_queue := q;
                    put_queue := put_queue (factory st) |}.

Definition set_put_queue (st : Simulator op) (q : list (Machine * Releasing))
  : Simulator op :=
  set_factory st {| store_capacity := store_capacity (factory st);
                    items := items (factory st);
                    get_queue := get_queue (factory st); put_queue := q |}.

(** [env.schedule(event, priority, delay)] *)
Definition schedule (st : Simulator op) (ev : Event) (prio : nat) (dl : Z)
  : Simulator op :=
  set_env st
    {| now := now (env st);
       queue := heappush {| at_time := now (env st) + dl; priority := prio;
                            seq := eid (env st); event := ev |}
                         (queue (env st));
       eid := S (eid (env st)) |}.

(** A generator that returns, or raises: [Process._resume] schedules the
    process itself as an event. *)
Definition process_return (st : Simulator op) : Simulator op :=
  schedule st (ProcessEvent None) NORMAL 0.

Definition process_raise (st : Simulator op) (e : Exn) : Simulator op :=
  schedule st (ProcessEvent (Some e)) NORMAL 0.

(** [FilterStore._do_get]: the first item the filter accepts is removed. *)
Fixpoint take_item (group : string) (l : list Machine)
  : option (Machine * list Machine) :=
  match l with
  | [] => None
  | m :: rest =>
      if String.eqb (resource_group m) group then Some (m, rest)
      else match take_item group rest with
           | Some (x, rest') => Some (x, m :: rest')
           | None => None
           end
  end.

(** [BaseResource._trigger_get]: every pending get is tried in turn; one
    that finds an item succeeds (is scheduled) and leaves the queue. *)
Fixpoint trigger_get_loop (pending : list Acquiring) (st : Simulator op)
  : Simulator op * list Acquiring :=
  match pending with
  | [] => (st, [])
  | w :: rest =>
      match take_item (acq_group w) (items (factory st)) with
      | Some (item, items') =>
          trigger_get_loop rest
            (schedule (set_items st items') (StoreGet item w) NORMAL 0)
      | None =>
          let (st', still) := trigger_get_loop rest st in (st', w :: still)
      end
  end.

Definition _trigger_get (st : Simulator op) : Simulator op :=
  let (st', still) := trigger_get_loop (get_queue (factory st)) st in
  set_get_queue st' still.

(** [BaseResource._trigger_put] with [Store._do_put], which returns [None]:
    only the first pending put is tried. *)
Definition _trigger_put (st : Simulator op) : Simulator op :=
  match put_queue (factory st) with
  | [] => st
  | (item, w) :: rest =>
      if Z.of_nat (List.length (items (factory st))) <? store_capacity (factory st)
      then schedule (set_put_queue (set_items st (items (factory st) ++ [item])) rest)
                    (StorePut w) NORMAL 0
      else st
  end.

(** [self.factory.get(lambda resource: resource.resource_group == name)] *)
Definition factory_get (st : Simulator op) (w : Acquiring) : Simulator op :=
  _trigger_get (set_get_queue st (get_queue (factory st) ++ [w])).

(** [self.factory.put(resource)] *)
Definition factory_put (st : Simulator op) (item : Machine) (w : Releasing)
  : Simulator op :=
  _trigger_put (set_put_queue st (put_queue (factory st) ++ [(item, w)])).

End SimPy.

(** ** Simulator: the constraint checks *)

(** [[i.resource_group for i in self.factory.items].count(name)] *)
Definition count_group (name : string) (l : list Machine) : nat :=
  List.length (filter (fun i => String.eqb (resource_group i) name) l).

(** Truthiness of [temp_rel.max_lag]: [None] and [0] are false. *)
Definition truthy (x : option Z) : bool :=
  match x with
  | None => false
  | Some z => negb (z =? 0)
  end.

Section Checks.
Context {op : Operator}.
Variable plan : ProductionPlan.

(** What the evaluation of the message of [_availability_constraint_check]
    can do to the control flow when [self.printing] is set: the f-string
    reads [self.plan.products[product_index].id], which raises IndexError
    for a product index outside the plan.  The text that is printed is not
    part of the state. *)
Definition availability_message (st : Simulator op) (product_index : nat)
  : Exc unit :=
  if printing st then
    match nth_error (products plan) product_index with
    | None => Raise IndexError
    | Some _ => Ok tt
    end
  else Ok tt.

(** The loop of [_availability_constraint_check] from index [r] on. *)
Fixpoint availability_loop (st : Simulator op) (product_index activity_id : nat)
  (r : nat) (needs : list Z) (failure_code : option FailureCode)
  : Exc (option FailureCode) :=
  match needs with
  | [] => Ok failure_code
  | need :: rest =>
      if 0 <? need then
        match nth_error (resource_names (plan_factory plan)) r with
        | None => Raise IndexError
        | Some name =>
            let available_machines := count_group name (items (factory st)) in
            match availability_message st product_index with
            | Raise e => Raise e
            | Ok _ =>
                availability_loop st product_index activity_id (S r) rest
                  (if Z.of_nat available_machines <? need
                   then Some AVAILABILITY else failure_code)
            end
        end
      else availability_loop st product_index activity_id (S r) rest failure_code
  end.

Definition _availability_constraint_check (st : Simulator op) (needs : list Z)
  (product_index activity_id : nat) : Exc (option FailureCode) :=
  availability_loop st product_index activity_id 0%nat needs None.

(** The loop of [_precedence_constraint_check] over the predecessors; the
    min-lag branch assigns [self.logger.failure_code] and goes on. *)
Fixpoint precedence_loop (prod : Product) (product_index activity_id : nat)
  (preds : list nat) (st : Simulator op)
  : Exc (option FailureCode) * Simulator op :=
  match preds with
  | [] => (Ok None, st)
  | pred_activity_id :: rest =>
      match dict_get (temporal_relations prod) (pred_activity_id, activity_id) with
      | None => (Raise KeyError, st)
      | Some temp_rel =>
          match fetch_latest_entry (logger st) product_index pred_activity_id START with
          | None => (Ok (Some PRECEDENCE), st)
          | Some start_pred_log =>
              let start_pred := timestamp start_pred_log in
              if now (env st) - start_pred <? min_lag temp_rel then
                precedence_loop prod product_index activity_id rest
                  (set_logger st (set_failure_code (logger st) (Some MIN_LAG)))
              else if truthy (max_lag temp_rel)
                      && match max_lag temp_rel with
                         | Some m => now (env st) - start_pred >? m
                         | None => false
                         end
              then (Ok (Some MAX_LAG), st)
              else precedence_loop prod product_index activity_id rest st
          end
      end
  end.

Definition _precedence_constraint_check (st : Simulator op)
  (product_index activity_id : nat) : Exc (option FailureCode) * Simulator op :=
  match nth_error (products plan) product_index with
  | None => (Raise IndexError, st)
  | Some prod =>
      match nth_error (predecessors prod) activity_id with
      | None => (Raise IndexError, st)
      | Some preds => precedence_loop prod product_index activity_id preds st
      end
  end.

Definition _compatibility_constraint_check (st : Simulator op)
  (product_index activity_id : nat) : Exc (option FailureCode) :=
  match nth_error (products plan) product_index with
  | None => Raise IndexError
  | Some prod =>
      match nth_error (activities prod) activity_id with
      | None => Raise IndexError
      | Some act =>
          if existsb (fun c => is_active (logger st)
                                 (constraint_product_id c, constraint_activity_id c))
                     (constraints act)
          then Ok (Some COMPATIBILITY) else Ok None
      end
  end.

(** The right-hand side of the assignment at the head of
    [activity_processing]: [availability or precedence or compatibility],
    evaluated left to right, a later check only when the earlier ones
    returned [None]. *)
Definition constraint_check (st : Simulator op) (a : ActivityArgs)
  : Exc (option FailureCode) * Simulator op :=
  match _availability_constraint_check st (needs a) (product_index a)
                                       (activity_id a) with
  | Raise e => (Raise e, st)
  | Ok (Some c) => (Ok (Some c), st)
  | Ok None =>
      match _precedence_constraint_check st (product_index a) (activity_id a) with
      | (Raise e, st1) => (Raise e, st1)
      | (Ok (Some c), st1) => (Ok (Some c), st1)
      | (Ok None, st1) =>
          (_compatibility_constraint_check st1 (product_index a) (activity_id a), st1)
      end
  end.

End Checks.

(** ** Simulator: the processes *)

Section Processes.
Context {op : Operator}.
Variable plan : ProductionPlan.

Definition usage_record (w : Releasing) : UsageRecord :=
  let p := rel_frame w in
  {| ProductIndex := product_index (args p);
     ActivityId := activity_id (args p);
     Needs := NeedsVector (needs (args p));
     Resources := Assigned (resources p);
     Request := Fin (request_time p);
     Retrieve := Fin (retrieve_time p);
     Start := Fin (start_time p);
     Finish := Fin (end_time w) |}.

(** After the acquisition loops: log START and wait for [proc_time]. *)
Definition start_processing (st : Simulator op) (a : ActivityArgs)
  (request_time : Z) (resources : list Machine) : Simulator op :=
  let retrieve_time := now (env st) in
  let start_time := now (env st) in
  match nth_error (products plan) (product_index a) with
  | None => process_raise st IndexError
  | Some prod =>
      let st1 := set_logger st
                   (log_activity (logger st) (product_id prod) (activity_id a)
                                 (product_index a) START start_time) in
      if proc_time a <? 0 then process_raise st1 ValueError   (* Timeout: negative delay *)
      else schedule st1
             (Timeout_processing
                {| args := a; request_time := request_time;
                   retrieve_time := retrieve_time; start_time := start_time;
                   resources := resources |})
             NORMAL (proc_time a)
  end.

(** [for r, need in enumerate(needs)] from index [r] on, up to the next
    [yield self.factory.get(...)]. *)
Fixpoint acquire_loop (st : Simulator op) (a : ActivityArgs) (request_time : Z)
  (resources : list Machine) (r : nat) (rest : list Z) : Simulator op :=
  match rest with
  | [] => start_processing st a request_time resources
  | need :: rest' =>
      if 0 <? need then
        match nth_error (resource_names (plan_factory plan)) r with
        | None => process_raise st IndexError
        | Some name =>
            factory_get st
              {| acq_args := a; acq_request_time := request_time;
                 acq_resources := resources; acq_group := name;
                 acq_remaining := Z.to_nat need - 1;
                 acq_r := S r; acq_rest := rest' |}
        end
      else acquire_loop st a request_time resources (S r) rest'
  end.

(** The get returned [resource]: append it and go on with the loops. *)
Definition resume_acquiring (st : Simulator op) (w : Acquiring) (resource : Machine)
  : Simulator op :=
  let resources := acq_resources w ++ [resource] in
  match acq_remaining w with
  | S m =>
      factory_get st
        {| acq_args := acq_args w; acq_request_time := acq_request_time w;
           acq_resources := resources; acq_group := acq_group w;
           acq_remaining := m; acq_r := acq_r w; acq_rest := acq_rest w |}
  | O => acquire_loop st (acq_args w) (acq_request_time w) resources
                      (acq_r w) (acq_rest w)
  end.

(** [for resource in resources: yield self.factory.put(resource)], then the
    assignment of the usage record and the end of the generator. *)
Definition release_loop (st : Simulator op) (p : Processing) (end_time : Z)
  (rest : list Machine) : Simulator op :=
  match rest with
  | resource :: rest' =>
      factory_put st resource
        {| rel_frame := p; end_time := end_time; rel_rest := rest' |}
  | [] =>
      let w := {| rel_frame := p; end_time := end_time; rel_rest := [] |} in
      process_return
        (set_resource_usage st
           (dict_set (resource_usage st)
                     (product_index (args p), activity_id (args p))
                     (usage_record w)))
  end.

(** The timeout of [proc_time] elapsed: log END and start releasing. *)
Definition finish_processing (st : Simulator op) (p : Processing) : Simulator op :=
  let end_time := now (env st) in
  match nth_error (products plan) (product_index (args p)) with
  | None => process_raise st IndexError
  | Some prod =>
      let st1 := set_logger st
                   (log_activity (logger st) (product_id prod) (activity_id (args p))
                                 (product_index (args p)) END end_time) in
      release_loop st1 p end_time (resources p)
  end.

Definition resume_releasing (st : Simulator op) (w : Releasing) : Simulator op :=
  release_loop st (rel_frame w) (end_time w) (rel_rest w).

(** The [else] branch of [activity_processing]. *)
Definition reject (st : Simulator op) (a : ActivityArgs) (c : FailureCode)
  : Simulator op :=
  let st1 := set_operator st
               (signal_failed_activity op (operator st) (product_index a)
                                       (activity_id a) (now (env st)) c) in
  process_return (set_nr_clashes st1 (S (nr_clashes st1))).

(** [activity_processing] from its first line to its first [yield] (or to
    its end). *)
Definition activity_processing (st : Simulator op) (a : ActivityArgs)
  : Simulator op :=
  let request_time := now (env st) in
  match constraint_check plan st a with
  | (Raise e, st1) => process_raise st1 e
  | (Ok code, st1) =>
      let st2 := set_logger st1 (set_failure_code (logger st1) code) in
      match code with
      | None => acquire_loop st2 a request_time [] 0%nat (needs a)
      | Some c => reject st2 a c
      end
  end.

(** [activity_generator]: one test of [while not finish] and, when it
    holds, one pass through the body up to [yield self.env.timeout(delay)]. *)
Definition activity_generator (st : Simulator op) (finish_ : bool) : Simulator op :=
  if finish_ then process_return st
  else
    let (d, o) := send_next_activity op (operator st) (now (env st)) in
    let st1 := set_operator st o in
    let st2 :=
      if send_activity d
      then schedule st1
             (Initialize_activity
                {| activity_id := d_activity_id d; product_index := d_product_index d;
                   proc_time := d_proc_time d; needs := d_needs d |})
             URGENT 0
      else st1 in
    if delay d <? 0 then process_raise st2 ValueError   (* Timeout: negative delay *)
    else schedule st2 (Timeout_generator (finish d)) NORMAL (delay d).

(** ** SimPy: [Environment.step] and [Environment.run] *)

Inductive StepResult :=
| Continue (st : Simulator op)
| StopSimulation (st : Simulator op)   (* the [until] event was processed *)
| Crash (e : Exn) (st : Simulator op)  (* a failed process event was processed *)
| EmptySchedule (st : Simulator op).

(** Pop the next event, set the clock and run its callbacks: for a store
    event the store's trigger first, then the waiting generator. *)
Definition step (st : Simulator op) : StepResult :=
  match queue (env st) with
  | [] => EmptySchedule st
  | s :: q =>
      let st1 := set_env st {| now := at_time s; queue := q; eid := eid (env st) |} in
      match event s with
      | Initialize_generator => Continue (activity_generator st1 false)
      | Initialize_activity a => Continue (activity_processing st1 a)
      | Timeout_generator fin => Continue (activity_generator st1 fin)
      | Timeout_processing p => Continue (finish_processing st1 p)
      | StoreGet item w => Continue (resume_acquiring (_trigger_put st1) w item)
      | StorePut w => Continue (resume_releasing (_trigger_get st1) w)
      | ProcessEvent None => Continue st1
      | ProcessEvent (Some e) => Crash e st1
      | Until => StopSimulation st1
      end
  end.

Inductive RunResult :=
| Stopped (st : Simulator op)
| Raised (e : Exn) (st : Simulator op)
| OutOfFuel (st : Simulator op).

(** [while True: self.step()], cut off after [fuel] events.  An empty
    schedule before the [until] event is a RuntimeError in SimPy. *)
Fixpoint run (fuel : nat) (st : Simulator op) : RunResult :=
  match fuel with
  | O => OutOfFuel st
  | S n =>
      match step st with
      | Continue st' => run n st'
      | StopSimulation st' => Stopped st'
      | Crash e st' => Raised e st'
      | EmptySchedule st' => Raised RuntimeError st'
      end
  end.

(** The state after [n] events, when none of them ended the run. *)
Fixpoint steps (n : nat) (st : Simulator op) : option (Simulator op) :=
  match n with
  | O => Some st
  | S m =>
      match step st with
      | Continue st' => steps m st'
      | _ => None
      end
  end.

End Processes.

(** ** Simulator: [simulate] *)

Inductive Outcome (A : Type) :=
| Returned (a : A)
| Threw (e : Exn)
| Unfinished.          (* the event loop was cut off *)
Arguments Returned {A} a.
Arguments Threw {A} e.
Arguments Unfinished {A}.

(** [Simulator.__init__] with its default [printing=False];
    [self.factory] does not exist before [simulate] and is given an empty
    store of capacity 0 here, which no store that [simulate] creates has. *)
Definition new_simulator {op : Operator} (o : OpState op) : Simulator op :=
  {| env := {| now := 0; queue := []; eid := 0 |};
     factory := {| store_capacity := 0; items := []; get_queue := []; put_queue := [] |};
     resource_usage := [];
     printing := false;
     nr_clashes := 0;
     logger := {| log := []; active_processes := []; failure_code := None |};
     operator := o |}.

(** [Simulator(plan, operator, printing=True)] *)
Definition new_simulator_printing {op : Operator} (o : OpState op) : Simulator op :=
  {| env := {| now := 0; queue := []; eid := 0 |};
     factory := {| store_capacity := 0; items := []; get_queue := []; put_queue := [] |};
     resource_usage := [];
     printing := true;
     nr_clashes := 0;
     logger := {| log := []; active_processes := []; failure_code := None |};
     operator := o |}.

(** The placeholders written for the planned activities. *)
Fixpoint write_sentinels (acts : list (nat * nat))
  (usage : list ((nat * nat) * UsageRecord)) : list ((nat * nat) * UsageRecord) :=
  match acts with
  | [] => usage
  | act :: rest =>
      write_sentinels rest (dict_set usage act (sentinel (fst act) (snd act)))
  end.

(** The two nested loops that create the machines, from group [r] on. *)
Fixpoint create_resources (capacity : list nat) (names : list string) (r : nat)
  (items : list Machine) : Exc (list Machine) :=
  match names with
  | [] => Ok items
  | name :: rest =>
      match nth_error capacity r with
      | None => Raise IndexError
      | Some c =>
          create_resources capacity rest (S r)
            (items ++ map (fun j => {| resource_group := name; machine_id := j |})
                          (List.seq 0 c))
      end
  end.

(** [for p in range(len(self.plan.products))] from product [p] on. *)
Fixpoint lateness_loop (rows : list UsageRecord) (p : nat) (prods : list Product)
  (lateness : Z) (nr_unfinished_products : nat) : Exc (Z * nat) :=
  match prods with
  | [] => Ok (lateness, nr_unfinished_products)
  | prod :: rest =>
      let schedule := filter (fun row => (ProductIndex row =? p)%nat) rows in
      match py_max (map Finish schedule) with
      | Raise e => Raise e
      | Ok Inf => lateness_loop rows (S p) rest lateness (S nr_unfinished_products)
      | Ok (Fin f) =>
          lateness_loop rows (S p) rest (lateness + Z.max 0 (f - deadline prod))
                        nr_unfinished_products
      end
  end.

(** "Process results": the rows of the data frame to the returned triple.
    A frame without rows has no "Finish" column.  The frame holds that column
    as float64 as soon as one row is a sentinel, and float64 holds the
    integers up to 2^53 as they are: the numbers computed here are those the
    code returns as long as the times and deadlines stay within that
    range. *)
Definition process_results (plan : ProductionPlan) (rows : list UsageRecord)
  : Exc (xtime * Z * nat) :=
  match rows with
  | [] => Raise KeyError
  | _ =>
      let finish_times := filter (fun i => negb (xtime_eqb i Inf)) (map Finish rows) in
      match py_max finish_times with
      | Raise e => Raise e
      | Ok makespan =>
          match lateness_loop rows 0%nat (products plan) 0 0%nat with
          | Raise e => Raise e
          | Ok (lateness, nr_unfinished_products) =>
              Ok (makespan, lateness, nr_unfinished_products)
          end
      end
  end.

Section Simulate.
Context {op : Operator}.
Variable plan : ProductionPlan.

(** [simulate] up to and including the scheduling of the [until] event:
    the state in which the first event is processed. *)
Definition simulate_setup (st : Simulator op) (sim_time random_seed_ : Z)
  : Exc (Simulator op) :=
  let st1 := set_operator st (random_seed op random_seed_ (operator st)) in
  let st2 := set_env st1 {| now := 0; queue := []; eid := 0 |} in
  let st3 := set_resource_usage st2
               (write_sentinels (earliest_start plan) (resource_usage st2)) in
  let total := Z.of_nat (list_sum (capacity (plan_factory plan))) in
  if total <=? 0 then Raise ValueError      (* FilterStore: capacity must be > 0 *)
  else
    match create_resources (capacity (plan_factory plan))
                           (resource_names (plan_factory plan)) 0%nat [] with
    | Raise e => Raise e
    | Ok items_ =>
        let st4 := set_factory st3
                     {| store_capacity := total; items := items_;
                        get_queue := []; put_queue := [] |} in
        let st5 := schedule st4 Initialize_generator URGENT 0 in
        if sim_time <=? now (env st5) then Raise ValueError   (* run: until <= now *)
        else Ok (schedule st5 Until URGENT (sim_time - now (env st5)))
    end.

(** The output table: the values of [self.resource_usage] in dict order. *)
Definition table (st : Simulator op) : list UsageRecord :=
  map snd (resource_usage st).

Definition simulate (fuel : nat) (st : Simulator op) (sim_time random_seed_ : Z)
  : Outcome (list UsageRecord * (xtime * Z * nat)) :=
  match simulate_setup st sim_time random_seed_ with
  | Raise e => Threw e
  | Ok st0 =>
      match run plan fuel st0 with
      | OutOfFuel _ => Unfinished
      | Raised e _ => Threw e
      | Stopped st' =>
          match process_results plan (table st') with
          | Raise e => Threw e
          | Ok triple => Returned (table st', triple)
          end
      end
  end.

End Simulate.

(** ** Example plans and operators *)

(** An operator that replays a fixed list of decisions and then keeps
    waiting one time unit; its state is the list still to replay together
    with the failures signalled to it. *)
Definition idle : Decision :=
  {| send_activity := false; delay := 1; d_activity_id := 0; d_product_index := 0;
     d_proc_time := 0; d_needs := []; finish := false |}.

Definition dispatch (dl : Z) (product_index activity_id : nat) (proc_time : Z)
  (needs : list Z) : Decision :=
  {| send_activity := true; delay := dl; d_activity_id := activity_id;
     d_product_index := product_index; d_proc_time := proc_time;
     d_needs := needs; finish := false |}.

Definition Signal : Type := nat * nat * Z * FailureCode.

Definition scripted : Operator :=
  {| OpState := list Decision * list Signal;
     random_seed := fun _ s => s;
     send_next_activity := fun s _ =>
       match fst s with
       | [] => (idle, s)
       | d :: rest => (d, (rest, snd s))
       end;
     signal_failed_activity := fun s product_index activity_id current_time c =>
       (fst s, snd s ++ [(product_index, activity_id, current_time, c)]) |}.

(** One product with two activities, the second after the first with a
    minimal lag of 5; one resource group "A" of capacity 2. *)
Definition plan_min_lag : ProductionPlan :=
  {| plan_factory := {| resource_names := ["A"%string]; capacity := [2%nat] |};
     products :=
       [ {| product_id := 0; deadline := 8;
            activities := [ {| constraints := [] |}; {| constraints := [] |} ];
            predecessors := [ []; [0%nat] ];
            temporal_relations :=
              [ ((0%nat, 1%nat), {| min_lag := 5; max_lag := None |}) ] |} ];
     earliest_start := [ (0%nat, 0%nat); (0%nat, 1%nat) ] |}.

(** The decisions of the first scenario: activity 0 is dispatched at time 0
    with one unit of "A" for 4 time units, its successor at time 1. *)
Definition decisions_min_lag : list Decision :=
  [ dispatch 1 0 0 4 [1]; dispatch 1 0 1 5 [1] ].

(** The same plan with a maximal lag of 0 (and no positive minimal lag)
    between the two activities. *)
Definition plan_max_lag_zero : ProductionPlan :=
  {| plan_factory := {| resource_names := ["A"%string]; capacity := [2%nat] |};
     products :=
       [ {| product_id := 0; deadline := 8;
            activities := [ {| constraints := [] |}; {| constraints := [] |} ];
            predecessors := [ []; [0%nat] ];
            temporal_relations :=
              [ ((0%nat, 1%nat), {| min_lag := 0; max_lag := Some 0 |}) ] |} ];
     earliest_start := [ (0%nat, 0%nat); (0%nat, 1%nat) ] |}.

(** The state a run is in after its first [n] events. *)
Definition after_events {op : Operator} (plan : ProductionPlan) (n : nat)
  (o : OpState op) (sim_time : Z) : Simulator op :=
  match simulate_setup plan (new_simulator o) sim_time 1 with
  | Ok st0 =>
      match steps plan n st0 with
      | Some st => st
      | None => st0
      end
  | Raise _ => new_simulator o
  end.


(** An operator of another kind: its state counts the calls, the [n]-th
    call returns the [n]-th decision of a fixed list (and [idle] after its
    end), and failures signalled to it are ignored. *)
Definition counting (ds : list Decision) : Operator :=
  {| OpState := nat;
     random_seed := fun _ n => n;
     send_next_activity := fun n _ => (nth n ds idle, S n);
     signal_failed_activity := fun n _ _ _ _ => n |}.

(** The initial state of the scripted operator. *)
Definition script (ds : list Decision) : OpState scripted := (ds, []).

(** The second activity of that scenario as the generator dispatches it. *)
Definition second_activity : ActivityArgs :=
  {| activity_id := 1; product_index := 0; proc_time := 5; needs := [1] |}.

(** The state in which the process of the second activity is about to run:
    four events have been processed, the clock is at 1 and the predecessor
    started at 0. *)
Definition st_min_lag : Simulator scripted :=
  after_events plan_min_lag 4 (script decisions_min_lag) 20.

Definition st_max_lag_zero : Simulator scripted :=
  after_events plan_max_lag_zero 4 (script decisions_min_lag) 20.

(** The plan of the first scenario with its second activity declared
    incompatible with the first, and the state in which the process of the
    second activity is about to run while the first is running. *)
Definition plan_min_lag_incompatible : ProductionPlan :=
  {| plan_factory := {| resource_names := ["A"%string]; capacity := [2%nat] |};
     products :=
       [ {| product_id := 0; deadline := 8;
            activities :=
              [ {| constraints := [] |};
                {| constraints := [ {| constraint_product_id := 0;
                                       constraint_activity_id := 0 |} ] |} ];
            predecessors := [ []; [0%nat] ];
            temporal_relations :=
              [ ((0%nat, 1%nat), {| min_lag := 5; max_lag := None |}) ] |} ];
     earliest_start := [ (0%nat, 0%nat); (0%nat, 1%nat) ] |}.

Definition st_min_lag_incompatible : Simulator scripted :=
  after_events plan_min_lag_incompatible 4 (script decisions_min_lag) 20.


Definition first_activity : ActivityArgs :=
  {| activity_id := 0; product_index := 0; proc_time := 4; needs := [1] |}.

(** An activity that asks for three units of a group of capacity two, and
    the state in which its process is about to run. *)
Definition greedy_activity : ActivityArgs :=
  {| activity_id := 0; product_index := 0; proc_time := 4; needs := [3] |}.

Definition st_rejected : Simulator scripted :=
  after_events plan_min_lag 1 (script [dispatch 1 0 0 4 [3]]) 20.

(** The first scenario on a simulator that prints, before the first
    event. *)
Definition st_printing : Simulator scripted :=
  match simulate_setup plan_min_lag (new_simulator_printing (script decisions_min_lag))
                       20 1 with
  | Ok st0 => st0
  | Raise _ => new_simulator_printing (script decisions_min_lag)
  end.

(** The state in which a run reaches its horizon, when it does so within
    [fuel] events. *)
Definition final_state {op : Operator} (plan : ProductionPlan) (fuel : nat)
  (o : OpState op) (sim_time : Z) : option (Simulator op) :=
  match simulate_setup plan (new_simulator o) sim_time 1 with
  | Ok st0 =>
      match run plan fuel st0 with
      | Stopped st => Some st
      | _ => None
      end
  | Raise _ => None
  end.

(** Two products of one activity each on a single machine; only the first
    is ever dispatched, and it finishes one time unit after its deadline. *)
Definition plan_two_products : ProductionPlan :=
  {| plan_factory := {| resource_names := ["A"%string]; capacity := [1%nat] |};
     products :=
       [ {| product_id := 0; deadline := 3; activities := [ {| constraints := [] |} ];
            predecessors := [ [] ]; temporal_relations := [] |};
         {| product_id := 1; deadline := 20; activities := [ {| constraints := [] |} ];
            predecessors := [ [] ]; temporal_relations := [] |} ];
     earliest_start := [ (0%nat, 0%nat); (1%nat, 0%nat) ] |}.

Definition decisions_two_products : list Decision := [ dispatch 1 0 0 4 [1] ].



Definition st0_two_products : Simulator scripted :=
  after_events plan_two_products 0 (script decisions_two_products) 20.

(** The number of events of that run before the horizon. *)
Definition events_two_products : nat := 25.

Definition st_end_two_products : Simulator scripted :=
  match run plan_two_products 100 st0_two_products with
  | Stopped st | Raised _ st | OutOfFuel st => st
  end.

(** ** The metrics in the spec's words *)

Definition xle (a b : xtime) : Prop :=
  match a, b with
  | Fin x, Fin y => x <= y
  | _, Inf => True
  | Inf, Fin _ => False
  end.

(** [m] is the maximum of the non-empty sequence [l]. *)
Definition is_max (m : xtime) (l : list xtime) : Prop :=
  In m l /\ forall x, In x l -> xle x m.

(** The Finish values of the records of product [p]. *)
Definition product_finishes (rows : list UsageRecord) (p : nat) : list xtime :=
  map Finish (filter (fun row => (ProductIndex row =? p)%nat) rows).

(** The finite Finish values of all records. *)
Definition finite_finishes (rows : list UsageRecord) : list xtime :=
  filter (fun i => negb (xtime_eqb i Inf)) (map Finish rows).

(** Total lateness: the sum, over the products from index [p] on, of
    [max(0, finish - deadline)] for the finished ones, where [fin] gives each
    product's finish. *)
Fixpoint total_lateness (fin : nat -> xtime) (p : nat) (prods : list Product) : Z :=
  match prods with
  | [] => 0
  | prod :: rest =>
      match fin p with
      | Fin f => Z.max 0 (f - deadline prod)
      | Inf => 0
      end + total_lateness fin (S p) rest
  end.

(** The number of products, from index [p] on, whose finish is infinite. *)
Fixpoint unfinished_products (fin : nat -> xtime) (p : nat) (prods : list Product) : nat :=
  match prods with
  | [] => 0
  | _ :: rest =>
      (match fin p with Inf => 1 | Fin _ => 0 end + unfinished_products fin (S p) rest)%nat
  end.

(** ** Predicates on simulator states *)

(** Everything but the logger's [failure_code] attribute. *)
Definition same_but_failure_code {op : Operator} (st st' : Simulator op) : Prop :=
  env st' = env st /\ factory st' = factory st
  /\ resource_usage st' = resource_usage st /\ nr_clashes st' = nr_clashes st
  /\ operator st' = operator st
  /\ log (logger st') = log (logger st)
  /\ active_processes (logger st') = active_processes (logger st).

(** The log holds an END entry of the activity. *)
Definition ended (lg : list LogEntry) (product_index activity_id : nat) : Prop :=
  exists e, In e lg /\ entry_matches product_index activity_id END e = true.

Definition release_key (w : Releasing) : nat * nat :=
  (product_index (args (rel_frame w)), activity_id (args (rel_frame w))).

(** Every process that is releasing its resources has logged its END. *)
Definition releasing_ended {op : Operator} (st : Simulator op) : Prop :=
  (forall s w, In s (queue (env st)) -> event s = StorePut w ->
               ended (log (logger st)) (fst (release_key w)) (snd (release_key w)))
  /\ (forall item w, In (item, w) (put_queue (factory st)) ->
                    ended (log (logger st)) (fst (release_key w)) (snd (release_key w))).

(** A planned activity's record is the sentinel unless its END is logged. *)
Definition sentinel_or_ended {op : Operator} (plan : ProductionPlan)
  (st : Simulator op) : Prop :=
  forall product_index activity_id,
    In (product_index, activity_id) (earliest_start plan) ->
    dict_get (resource_usage st) (product_index, activity_id)
    = Some (sentinel product_index activity_id)
    \/ ended (log (logger st)) product_index activity_id.

(** The activity whose process the next event runs to its end: the timeout
    of an activity that holds no machine, or the last put of one that held
    some.  That event is the one in which [activity_processing] passes its
    last [yield] and reaches the assignment of its usage record. *)
Definition completing {op : Operator} (plan : ProductionPlan) (st : Simulator op)
  : option (nat * nat) :=
  match queue (env st) with
  | [] => None
  | s :: _ =>
      match event s with
      | Timeout_processing p =>
          match resources p, nth_error (products plan) (product_index (args p)) with
          | [], Some _ => Some (product_index (args p), activity_id (args p))
          | _, _ => None
          end
      | StorePut w =>
          match rel_rest w with
          | [] => Some (release_key w)
          | _ :: _ => None
          end
      | _ => None
      end
  end.

(** No event among the first [n] of the run from [st0] completes the
    activity. *)
Definition never_completed {op : Operator} (plan : ProductionPlan)
  (st0 : Simulator op) (n : nat) (key : nat * nat) : Prop :=
  forall i st, (i < n)%nat -> steps plan i st0 = Some st -> completing plan st <> Some key.

(** The two together. *)
Definition records_invariant {op : Operator} (plan : ProductionPlan)
  (st : Simulator op) : Prop :=
  releasing_ended st /\ sentinel_or_ended plan st.

(** ** Machines in the store and machines held *)

(** The machines a suspended activity process holds, counted in the event
    that will resume it: those it has been given so far (with the one a
    succeeded get delivers), all of them while it runs, and those it has
    still to put back while it releases. *)
Definition held_by_event (name : string) (ev : Event) : nat :=
  match ev with
  | Timeout_processing p => count_group name (resources p)
  | StoreGet item w => count_group name (acq_resources w ++ [item])
  | StorePut w => count_group name (rel_rest w)
  | _ => 0
  end.

(** The machines of a group held by the activity processes in flight: those
    waiting in the event queue, those waiting for a get, and those waiting
    for a put (which still hold the machine they are putting back). *)
Fixpoint sum_of {A : Type} (f : A -> nat) (l : list A) : nat :=
  match l with
  | [] => 0
  | x :: rest => f x + sum_of f rest
  end.

Definition held {op : Operator} (name : string) (st : Simulator op) : nat :=
  (sum_of (fun s => held_by_event name (event s)) (queue (env st))
   + sum_of (fun w => count_group name (acq_resources w)) (get_queue (factory st))
   + sum_of (fun x => count_group name (fst x :: rel_rest (snd x)))
            (put_queue (factory st)))%nat.

Definition is_failure (ev : Event) : bool :=
  match ev with
  | ProcessEvent (Some _) => true
  | _ => false
  end.

(** A process has raised an exception and its event is still in the queue:
    [env.run] raises when it gets there. *)
Definition failure_pending {op : Operator} (st : Simulator op) : bool :=
  existsb (fun s => is_failure (event s)) (queue (env st)).

(** Available plus held machines of a group amount to [c], unless a process
    has failed. *)
Definition accounted {op : Operator} (name : string) (c : nat) (st : Simulator op)
  : Prop :=
  failure_pending st = true
  \/ (count_group name (items (factory st)) + held name st)%nat = c.

(** The capacity declared for the groups called [name] among [names], the
    first of which is group [r]. *)
Fixpoint group_capacity (name : string) (capacity : list nat) (names : list string)
  (r : nat) : nat :=
  match names with
  | [] => 0
  | n :: rest =>
      ((if String.eqb n name then nth r capacity 0%nat else 0%nat)
       + group_capacity name capacity rest (S r))%nat
  end.

(** ** Runs under two operators *)

(** Two simulators, possibly with operators of different kinds, agree on
    everything but the operator. *)
Definition same_engine {op1 op2 : Operator} (st1 : Simulator op1) (st2 : Simulator op2)
  : Prop :=
  env st1 = env st2 /\ factory st1 = factory st2
  /\ resource_usage st1 = resource_usage st2 /\ nr_clashes st1 = nr_clashes st2
  /\ logger st1 = logger st2 /\ printing st1 = printing st2.

(** The decision the operator is asked for while the next event is
    processed, if that event resumes the dispatch generator. *)
Definition asked {op : Operator} (st : Simulator op) : option Decision :=
  match queue (env st) with
  | [] => None
  | s :: _ =>
      match event s with
      | Initialize_generator | Timeout_generator false =>
          Some (fst (send_next_activity op (operator st) (at_time s)))
      | _ => None
      end
  end.

(** The sequence of the operator's decisions during the first [fuel] events
    of a run. *)
Fixpoint decisions {op : Operator} (plan : ProductionPlan) (fuel : nat)
  (st : Simulator op) : list Decision :=
  match fuel with
  | O => []
  | S n =>
      match asked st with Some d => [d] | None => [] end
      ++ match step plan st with
         | Continue st' => decisions plan n st'
         | _ => []
         end
  end.

(** The decisions of a whole call of [simulate]. *)
Definition simulate_decisions {op : Operator} (plan : ProductionPlan) (fuel : nat)
  (st : Simulator op) (sim_time random_seed_ : Z) : list Decision :=
  match simulate_setup plan st sim_time random_seed_ with
  | Ok st0 => decisions plan fuel st0
  | Raise _ => []
  end.

Definition same_step_result {op1 op2 : Operator}
  (r1 : @StepResult op1) (r2 : @StepResult op2) : Prop :=
  match r1, r2 with
  | Continue a, Continue b => same_engine a b
  | StopSimulation a, StopSimulation b => same_engine a b
  | Crash e a, Crash e' b => e = e' /\ same_engine a b
  | EmptySchedule a, EmptySchedule b => same_engine a b
  | _, _ => False
  end.

Definition same_run_result {op1 op2 : Operator}
  (r1 : @RunResult op1) (r2 : @RunResult op2) : Prop :=
  match r1, r2 with
  | Stopped a, Stopped b => same_engine a b
  | Raised e a, Raised e' b => e = e' /\ same_engine a b
  | OutOfFuel a, OutOfFuel b => same_engine a b
  | _, _ => False
  end.

(** ** The order of the event queue and the length of a run *)

Definition key_leb (a b : Scheduled) : bool := negb (key_ltb b a).

(** The queue lists its events in the order of their keys. *)
Definition sorted_queue (q : list Scheduled) : Prop :=
  StronglySorted (fun a b => key_leb a b = true) q.

(** The number of gets a needs vector asks for. *)
Definition total_need (needs : list Z) : nat := sum_of Z.to_nat needs.

(** An upper bound on the number of events a process still causes once it
    holds [k] machines and has [g] gets to go: the gets, the timeout, one put
    for each machine, and the event of its end. *)
Definition events_left (k g : nat) : nat := (g + 1 + (k + g) + 1)%nat.

Definition acquiring_weight (w : Acquiring) : nat :=
  (1 + events_left (List.length (acq_resources w) + 1)
                   (acq_remaining w + total_need (acq_rest w)))%nat.

Definition releasing_weight (w : Releasing) : nat :=
  (List.length (rel_rest w) + 2)%nat.

(** An upper bound on the number of events that follow from an event in the
    queue, the event itself included; the passes of the dispatch generator
    that follow a pass are not counted ([generator_weight] counts them). *)
Definition weight (ev : Event) : nat :=
  match ev with
  | Initialize_generator | Timeout_generator _ => 2
  | Initialize_activity a => (1 + events_left 0 (total_need (needs a)))%nat
  | Timeout_processing p => (List.length (resources p) + 2)%nat
  | StoreGet _ w => acquiring_weight w
  | StorePut w => releasing_weight w
  | ProcessEvent _ => 1
  | Until => 1
  end.

Definition total_weight {op : Operator} (st : Simulator op) : nat :=
  (sum_of (fun s => weight (event s)) (queue (env st))
   + sum_of acquiring_weight (get_queue (factory st))
   + sum_of (fun x => releasing_weight (snd x)) (put_queue (factory st)))%nat.

(** The time left to the dispatch generator before the horizon. *)
Definition generator_weight (sim_time : Z) (s : Scheduled) : nat :=
  match event s with
  | Initialize_generator => (2 + Z.to_nat (sim_time - at_time s))%nat
  | Timeout_generator false => (1 + Z.to_nat (sim_time - at_time s))%nat
  | _ => 0%nat
  end.

Definition generator_time {op : Operator} (sim_time : Z) (st : Simulator op) : nat :=
  sum_of (generator_weight sim_time) (queue (env st)).

(** The queue is sorted, the [until] event is in it at the horizon, and the
    timeouts of the generator have the normal priority. *)
Definition queue_ok (sim_time : Z) (q : list Scheduled) : Prop :=
  sorted_queue q
  /\ (exists u, In u q /\ event u = Until /\ at_time u = sim_time /\ priority u = URGENT)
  /\ (forall s fin, In s q -> event s = Timeout_generator fin -> priority s = NORMAL).

(** An event other than a pass of the generator that will ask the operator,
    scheduled with the priority the simulator gives it. *)
Definition plain (ev : Event) (prio : nat) : Prop :=
  match ev with
  | Initialize_generator | Until | Timeout_generator false => False
  | Timeout_generator true => prio = NORMAL
  | _ => True
  end.

Definition bounded {op : Operator} (sim_time : Z) (g w : nat) (st : Simulator op)
  : Prop :=
  queue_ok sim_time (queue (env st))
  /\ (generator_time sim_time st <= g)%nat
  /\ (total_weight st <= w)%nat.

(** The operator never answers with a delay of 0 (its delays being
    integers, each of them moves the generator by at least one unit of time,
    forward or into a ValueError). *)
Definition delays_nonzero (op : Operator) : Prop :=
  forall (o : OpState op) (t : Z), delay (fst (send_next_activity op o t)) <> 0.

Definition finished {op : Operator} (r : @RunResult op) : Prop :=
  match r with
  | OutOfFuel _ => False
  | _ => True
  end.

(** ** The checks in terms of the plan and the store *)

(** Some positive need stands at an index for which the factory, counted
    from group [r], has no resource name. *)
Definition need_without_group (plan : ProductionPlan) (r : nat) (needs : list Z) : Prop :=
  exists i need,
    nth_error needs i = Some need /\ 0 < need
    /\ nth_error (resource_names (plan_factory plan)) (r + i) = None.

(** Some positive need exceeds the number of machines of its group in the
    store. *)
Definition need_short {op : Operator} (plan : ProductionPlan) (st : Simulator op)
  (r : nat) (needs : list Z) : Prop :=
  exists i need name,
    nth_error needs i = Some need /\ 0 < need
    /\ nth_error (resource_names (plan_factory plan)) (r + i) = Some name
    /\ Z.of_nat (count_group name (items (factory st))) < need.

(** With [self.printing] set, the message of the availability check is
    evaluated for every positive need that has a resource name, and it
    cannot be for a product index outside the plan. *)
Definition message_fails {op : Operator} (plan : ProductionPlan) (st : Simulator op)
  (product_index : nat) (needs : list Z) : Prop :=
  printing st = true /\ nth_error (products plan) product_index = None
  /\ exists need, In need needs /\ 0 < need.

(** A predecessor that lets the precedence loop go on: its relation is
    declared, its start is logged, and either the minimal lag is not yet
    reached, or no maximal lag counts (none, or 0), or the maximal lag is not
    exceeded. *)
Definition predecessor_passes {op : Operator} (prod : Product) (st : Simulator op)
  (product_index activity_id pred : nat) : Prop :=
  exists rel e,
    dict_get (temporal_relations prod) (pred, activity_id) = Some rel
    /\ fetch_latest_entry (logger st) product_index pred START = Some e
    /\ (now (env st) - timestamp e < min_lag rel
        \/ truthy (max_lag rel) = false
        \/ exists m, max_lag rel = Some m /\ now (env st) - timestamp e <= m).

(** An operator that never dispatches, never finishes and always answers
    with a delay of 0. *)
Definition stalls (op : Operator) : Prop :=
  forall (o : OpState op) (t : Z),
    delay (fst (send_next_activity op o t)) = 0
    /\ send_activity (fst (send_next_activity op o t)) = false
    /\ finish (fst (send_next_activity op o t)) = false.

Definition stalling : Operator :=
  {| OpState := unit;
     random_seed := fun _ o => o;
     send_next_activity := fun o _ =>
       ({| send_activity := false; delay := 0; d_activity_id := 0; d_product_index := 0;
           d_proc_time := 0; d_needs := []; finish := false |}, o);
     signal_failed_activity := fun o _ _ _ _ => o |}.

(** The shape of the queue between two passes of the generator. *)
Definition waiting_generator {op : Operator} (st : Simulator op) : Prop :=
  exists k g u,
    queue (env st)
    = [ {| at_time := 0; priority := k; seq := g; event := Timeout_generator false |}; u ]
    /\ event u = Until /\ 0 < at_time u.

(** ** Times, sizes and groups in frames, events and records *)

(** The groups of the machines an activity with the given needs asks for,
    in the order of its requests: [need] times the name of group [r] for
    every positive [need], from group [r] on. *)
Fixpoint expected_groups (names : list string) (r : nat) (needs : list Z) : list string :=
  match needs with
  | [] => []
  | need :: rest =>
      (if 0 <? need
       then match nth_error names r with
            | Some name => repeat name (Z.to_nat need)
            | None => []
            end
       else [])
      ++ expected_groups names (S r) rest
  end.

(** The locals of a running activity: it was requested at or after time 0,
    retrieved its machines at or after that, started at the very time it
    retrieved them, and holds the machines its needs ask for. *)
Definition processing_ok (names : list string) (p : Processing) : Prop :=
  0 <= request_time p /\ request_time p <= retrieve_time p
  /\ retrieve_time p = start_time p
  /\ List.length (resources p) = total_need (needs (args p))
  /\ map resource_group (resources p) = expected_groups names 0 (needs (args p)).

(** The locals of an activity waiting for a get, at time [t]. *)
Definition acquiring_ok (names : list string) (t : Z) (w : Acquiring) : Prop :=
  0 <= acq_request_time w /\ acq_request_time w <= t
  /\ (List.length (acq_resources w) + 1 + acq_remaining w + total_need (acq_rest w))%nat
     = total_need (needs (acq_args w))
  /\ map resource_group (acq_resources w)
       ++ repeat (acq_group w) (1 + acq_remaining w)
       ++ expected_groups names (acq_r w) (acq_rest w)
     = expected_groups names 0 (needs (acq_args w)).

Definition releasing_ok (names : list string) (sim_time : Z) (w : Releasing) : Prop :=
  processing_ok names (rel_frame w)
  /\ start_time (rel_frame w) <= end_time w /\ end_time w < sim_time.

(** An entry of the event queue when the clock is at [t]: it is not in the
    past; unless it has the normal priority or is the [until] event it lies
    before the horizon; the frame it carries is in order; the event of a
    failed process lies before the horizon and carries no RuntimeError; and
    the [until] event lies at the horizon. *)
Definition entry_ok (names : list string) (sim_time t : Z) (s : Scheduled) : Prop :=
  t <= at_time s
  /\ (priority s = NORMAL \/ event s = Until \/ at_time s < sim_time)
  /\ match event s with
     | Timeout_processing p => processing_ok names p /\ start_time p <= at_time s
     | StoreGet item w =>
         acquiring_ok names (at_time s) w /\ resource_group item = acq_group w
     | StorePut w => releasing_ok names sim_time w
     | ProcessEvent (Some e) => at_time s < sim_time /\ e <> RuntimeError
     | Until => at_time s = sim_time
     | _ => True
     end.

(** A record written by a completed activity: a needs vector, the machines
    it asks for, and four finite times in order before the horizon, the
    retrieve and the start time being the same. *)
Definition complete_row (names : list string) (sim_time : Z) (row : UsageRecord) : Prop :=
  exists ns rs t1 t2 t3,
    Needs row = NeedsVector ns /\ Resources row = Assigned rs
    /\ List.length rs = total_need ns
    /\ map resource_group rs = expected_groups names 0 ns
    /\ Request row = Fin t1 /\ Retrieve row = Fin t2 /\ Start row = Fin t2
    /\ Finish row = Fin t3
    /\ 0 <= t1 /\ t1 <= t2 /\ t2 <= t3 /\ t3 < sim_time.

(** A record under its key: it names the key, and it is either the sentinel
    or complete. *)
Definition row_ok (names : list string) (sim_time : Z)
  (kv : (nat * nat) * UsageRecord) : Prop :=
  ProductIndex (snd kv) = fst (fst kv) /\ ActivityId (snd kv) = snd (fst kv)
  /\ (snd kv = sentinel (fst (fst kv)) (snd (fst kv))
      \/ complete_row names sim_time (snd kv)).

Definition consistent {op : Operator} (plan : ProductionPlan) (sim_time : Z)
  (st : Simulator op) : Prop :=
  let names := resource_names (plan_factory plan) in
  queue_ok sim_time (queue (env st))
  /\ 0 <= now (env st) /\ now (env st) < sim_time
  /\ Forall (entry_ok names sim_time (now (env st))) (queue (env st))
  /\ Forall (acquiring_ok names (now (env st))) (get_queue (factory st))
  /\ Forall (fun x => releasing_ok names sim_time (snd x)) (put_queue (factory st))
  /\ Forall (row_ok names sim_time) (resource_usage st).

(** ** Rejections along a run *)

(** The next event runs the process of a dispatched activity, and its
    constraint check produces a failure code. *)
Definition rejecting {op : Operator} (plan : ProductionPlan) (st : Simulator op) : bool :=
  match queue (env st) with
  | [] => false
  | s :: q =>
      match event s with
      | Initialize_activity a =>
          match fst (constraint_check plan
                       (set_env st {| now := at_time s; queue := q; eid := eid (env st) |})
                       a) with
          | Ok (Some _) => true
          | _ => false
          end
      | _ => false
      end
  end.

(** The number of such events among the next [n]. *)
Fixpoint rejections {op : Operator} (plan : ProductionPlan) (n : nat) (st : Simulator op)
  : nat :=
  match n with
  | O => 0
  | S m =>
      match step plan st with
      | Continue st' => ((if rejecting plan st then 1 else 0) + rejections plan m st')%nat
      | _ => 0
      end
  end.

(** ** Room in the store *)

(** The number of machines a suspended activity process holds, counted in
    the event that will resume it. *)
Definition held_count (ev : Event) : nat :=
  match ev with
  | Timeout_processing p => List.length (resources p)
  | StoreGet item w => (List.length (acq_resources w) + 1)%nat
  | StorePut w => List.length (rel_rest w)
  | _ => 0%nat
  end.

(** The machines held by the processes in the event queue and by those
    waiting for a get. *)
Definition in_flight {op : Operator} (st : Simulator op) : nat :=
  (sum_of (fun s => held_count (event s)) (queue (env st))
   + sum_of (fun w => List.length (acq_resources w)) (get_queue (factory st)))%nat.

(** No put is waiting, and the store, of capacity [cap], can take the
    machines in flight and [c] more. *)
Definition room {op : Operator} (cap : Z) (c : nat) (st : Simulator op) : Prop :=
  put_queue (factory st) = []
  /\ store_capacity (factory st) = cap
  /\ Z.of_nat (List.length (items (factory st)) + in_flight st + c) <= cap.

(** ** The event that comes next *)

(** [f] is the next event, it is due now with the normal priority, and it
    was scheduled before anything that is scheduled from now on. *)
Definition next_is {op : Operator} (f : Scheduled) (st : Simulator op) : Prop :=
  exists q,
    queue (env st) = f :: q
    /\ at_time f = now (env st) /\ priority f = NORMAL
    /\ (seq f < eid (env st))%nat.

(** ** The keys of the usage records *)

(** The key under which a record is stored, read off the record. *)
Definition row_key (row : UsageRecord) : nat * nat := (ProductIndex row, ActivityId row).

(** ** The events in which the operator is asked *)

(** A pass of the generator through [while not finish] with [finish] false:
    the event in which [send_next_activity] is called. *)
Definition asking (ev : Event) : bool :=
  match ev with
  | Initialize_generator | Timeout_generator false => true
  | _ => false
  end.

(** The next event asks the operator. *)
Definition asks {op : Operator} (st : Simulator op) : bool :=
  match queue (env st) with
  | [] => false
  | s :: _ => asking (event s)
  end.

(** The number of such events in the queue. *)
Definition asking_count {op : Operator} (st : Simulator op) : nat :=
  sum_of (fun s => if asking (event s) then 1%nat else 0%nat) (queue (env st)).

(** ** Runs that take any least entry of the queue *)

(** [a] does not come after [b] in the order of the heap's entries, the
    tuples (time, priority, eid): the earlier time first, at equal times the
    urgent before the normal, at equal priority the one scheduled first. *)
Definition key_le (a b : Scheduled) : Prop :=
  at_time a < at_time b
  \/ (at_time a = at_time b
      /\ ((priority a < priority b)%nat
          \/ (priority a = priority b /\ (seq a <= seq b)%nat))).

(** [heappop(self._queue)] by what it promises: the entry that leaves the
    heap is one that no entry of the heap comes before, wherever it stands in
    the queue. *)
Inductive heappop : list Scheduled -> Scheduled -> list Scheduled -> Prop :=
| heappop_least (q1 q2 : list Scheduled) (s : Scheduled) :
    (forall x, In x (q1 ++ s :: q2) -> key_le s x) ->
    heappop (q1 ++ s :: q2) s (q1 ++ q2).

(** The callbacks of an event that has been popped, [st1] being the state
    with the clock set and the event off the queue: the second half of
    [Environment.step]. *)
Definition handle {op : Operator} (plan : ProductionPlan) (st1 : Simulator op)
  (ev : Event) : StepResult :=
  match ev with
  | Initialize_generator => Continue (activity_generator st1 false)
  | Initialize_activity a => Continue (activity_processing plan st1 a)
  | Timeout_generator fin => Continue (activity_generator st1 fin)
  | Timeout_processing p => Continue (finish_processing plan st1 p)
  | StoreGet item w => Continue (resume_acquiring plan (_trigger_put st1) w item)
  | StorePut w => Continue (resume_releasing (_trigger_get st1) w)
  | ProcessEvent None => Continue st1
  | ProcessEvent (Some e) => Crash e st1
  | Until => StopSimulation st1
  end.

(** [Environment.step] with [heappop] as above. *)
Inductive step_rel {op : Operator} (plan : ProductionPlan) (st : Simulator op)
  : StepResult -> Prop :=
| step_rel_empty :
    queue (env st) = [] -> step_rel plan st (EmptySchedule st)
| step_rel_pop (s : Scheduled) (q' : list Scheduled) :
    heappop (queue (env st)) s q' ->
    step_rel plan st
      (handle plan (set_env st {| now := at_time s; queue := q'; eid := eid (env st) |})
              (event s)).

(** [Environment.run] over such steps, cut off after [fuel] events. *)
Inductive run_rel {op : Operator} (plan : ProductionPlan)
  : nat -> Simulator op -> RunResult -> Prop :=
| run_rel_cut (st : Simulator op) : run_rel plan 0 st (OutOfFuel st)
| run_rel_continue (n : nat) (st st' : Simulator op) (r : RunResult) :
    step_rel plan st (Continue st') -> run_rel plan n st' r -> run_rel plan (S n) st r
| run_rel_stop (n : nat) (st st' : Simulator op) :
    step_rel plan st (StopSimulation st') -> run_rel plan (S n) st (Stopped st')
| run_rel_crash (n : nat) (st st' : Simulator op) (e : Exn) :
    step_rel plan st (Crash e st') -> run_rel plan (S n) st (Raised e st')
| run_rel_empty (n : nat) (st st' : Simulator op) :
    step_rel plan st (EmptySchedule st') -> run_rel plan (S n) st (Raised RuntimeError st').

(** What [simulate] makes of the end of the run. *)
Definition simulate_result {op : Operator} (plan : ProductionPlan) (r : @RunResult op)
  : Outcome (list UsageRecord * (xtime * Z * nat)) :=
  match r with
  | OutOfFuel _ => Unfinished
  | Raised e _ => Threw e
  | Stopped st' =>
      match process_results plan (table st') with
      | Raise e => Threw e
      | Ok triple => Returned (table st', triple)
      end
  end.

(** [out] is the outcome of a call of [simulate] whose run is such a run. *)
Definition simulate_rel {op : Operator} (plan : ProductionPlan) (fuel : nat)
  (st : Simulator op) (sim_time random_seed_ : Z)
  (out : Outcome (list UsageRecord * (xtime * Z * nat))) : Prop :=
  match simulate_setup plan st sim_time random_seed_ with
  | Raise e => out = Threw e
  | Ok st0 => exists r, run_rel plan fuel st0 r /\ out = simulate_result plan r
  end.

(** The queue is sorted and its entries have different eids, all below the
    counter. *)
Definition ordered {op : Operator} (st : Simulator op) : Prop :=
  sorted_queue (queue (env st))
  /\ Forall (fun s => (seq s < eid (env st))%nat) (queue (env st))
  /\ NoDup (map seq (queue (env st))).

(** ** The order of the rows *)

(** A dict's keys after an assignment to key [k]. *)
Definition add_key (ks : list (nat * nat)) (k : nat * nat) : list (nat * nat) :=
  if existsb (fun k' => pair_eqb k' k) ks then ks else ks ++ [k].

(** The keys of a dict that was empty after assignments to these keys one
    after the other: every key once, in the order of its first
    assignment. *)
Definition insertion_order (ks : list (nat * nat)) : list (nat * nat) :=
  fold_left add_key ks [].

(** The activities completed by the first [fuel] events of a run, in the
    order of their completion. *)
Fixpoint completions {op : Operator} (plan : ProductionPlan) (fuel : nat)
  (st : Simulator op) : list (nat * nat) :=
  match fuel with
  | O => []
  | S n =>
      match step plan st with
      | Continue st' =>
          match completing plan st with Some k => [k] | None => [] end
          ++ completions plan n st'
      | _ => []
      end
  end.

Definition simulate_completions {op : Operator} (plan : ProductionPlan) (fuel : nat)
  (st : Simulator op) (sim_time random_seed_ : Z) : list (nat * nat) :=
  match simulate_setup plan st sim_time random_seed_ with
  | Ok st0 => completions plan fuel st0
  | Raise _ => []
  end.

(** * Properties *)

(** ** The constraint checks *)

Section CheckProperties.
Context {op : Operator}.
Variable plan : ProductionPlan.

Lemma same_but_failure_code_refl (st : Simulator op) : same_but_failure_code st st.
Proof. repeat split. Qed.

Lemma fetch_latest_entry_set_failure_code lg c product_index activity_id action :
  fetch_latest_entry (set_failure_code lg c) product_index activity_id action
  = fetch_latest_entry lg product_index activity_id action.
Proof. reflexivity. Qed.

Lemma precedence_loop_frame prod product_index activity_id preds :
  forall st : Simulator op,
    same_but_failure_code st
      (snd (precedence_loop prod product_index activity_id preds st)).
Proof.
  induction preds as [|p rest IH]; intros st; simpl.
  - apply same_but_failure_code_refl.
  - destruct (dict_get _ _) as [rel|]; [|apply same_but_failure_code_refl].
    destruct (fetch_latest_entry _ _ _ _) as [e|]; [|apply same_but_failure_code_refl].
    destruct (_ <? _).
    + specialize (IH (set_logger st (set_failure_code (logger st) (Some MIN_LAG)))).
      unfold same_but_failure_code in *. cbn in IH. exact IH.
    + destruct (_ && _); [apply same_but_failure_code_refl | apply IH].
Qed.

Lemma precedence_check_frame (st : Simulator op) product_index activity_id :
  same_but_failure_code st
    (snd (_precedence_constraint_check plan st product_index activity_id)).
Proof.
  unfold _precedence_constraint_check.
  destruct (nth_error (products plan) _); [|apply same_but_failure_code_refl].
  destruct (nth_error (predecessors _) _); [|apply same_but_failure_code_refl].
  apply precedence_loop_frame.
Qed.

Lemma constraint_check_frame (st : Simulator op) a :
  same_but_failure_code st (snd (constraint_check plan st a)).
Proof.
  unfold constraint_check.
  destruct (_availability_constraint_check plan st _ _ _) as [[c|]|e];
    try apply same_but_failure_code_refl.
  pose proof (precedence_check_frame st (product_index a) (activity_id a)) as H.
  destruct (_precedence_constraint_check plan st _ _) as [[[c|]|e] st1]; exact H.
Qed.

(** The codes each check can return. *)
Lemma availability_loop_codes (st : Simulator op) pi ai needs :
  forall r fc c,
    availability_loop plan st pi ai r needs fc = Ok (Some c) ->
    fc = Some c \/ c = AVAILABILITY.
Proof.
  induction needs as [|need rest IH]; intros r fc c H; simpl in H.
  - left. congruence.
  - destruct (0 <? need).
    + destruct (nth_error _ r); [|discriminate].
      destruct (availability_message plan st pi); [|discriminate].
      apply IH in H. destruct (_ <? need); [|exact H].
      right. destruct H as [H|H]; congruence.
    + eapply IH; eauto.
Qed.

Lemma precedence_loop_codes prod product_index activity_id preds :
  forall (st : Simulator op) c st1,
    precedence_loop prod product_index activity_id preds st = (Ok (Some c), st1) ->
    c = PRECEDENCE \/ c = MAX_LAG.
Proof.
  induction preds as [|p rest IH]; intros st c st1 H; simpl in H.
  - discriminate.
  - destruct (dict_get _ _); [|discriminate].
    destruct (fetch_latest_entry _ _ _ _); [|left; congruence].
    destruct (_ <? _); [eapply IH; eauto|].
    destruct (_ && _); [right; congruence | eapply IH; eauto].
Qed.

Lemma constraint_check_codes (st : Simulator op) a c st1 :
  constraint_check plan st a = (Ok (Some c), st1) ->
  c = AVAILABILITY \/ c = PRECEDENCE \/ c = MAX_LAG \/ c = COMPATIBILITY.
Proof.
  unfold constraint_check, _availability_constraint_check.
  destruct (availability_loop plan st _ _ 0 (needs a) None) as [[c0|]|e] eqn:Ha.
  - intros H. inversion H; subst.
    apply availability_loop_codes in Ha. destruct Ha; [discriminate | auto].
  - unfold _precedence_constraint_check.
    destruct (nth_error (products plan) _) as [prod|]; [|discriminate].
    destruct (nth_error (predecessors prod) _) as [preds|]; [|discriminate].
    destruct (precedence_loop _ _ _ _ _) as [[[c1|]|e] st2] eqn:Hp.
    + intros H. inversion H; subst.
      apply precedence_loop_codes in Hp. tauto.
    + unfold _compatibility_constraint_check.
      destruct (nth_error (products plan) _); [|discriminate].
      destruct (nth_error (activities _) _); [|discriminate].
      destruct (existsb _ _); intros H; inversion H; subst; auto.
    + discriminate.
  - discriminate.
Qed.


End CheckProperties.

Section RejectProperties.
Context {op : Operator}.
Variable plan : ProductionPlan.

(** C4.  When the process of a dispatched activity runs and its constraint
    check produces a failure code, that one event ends the process: the
    operator is signalled with the product index, the activity id, the
    current time and the code, the clash counter grows by one, and the store
    (items and waiting gets and puts), the log, the active set and the
    resource-usage records are what they were; a sentinel record stays the
    sentinel. *)
Theorem rejected_activity_transition
  (st st1 : Simulator op) (s : Scheduled) (q : list Scheduled)
  (a : ActivityArgs) (c : FailureCode)
  (Hq : queue (env st) = s :: q)
  (Hev : event s = Initialize_activity a)
  (Hcheck : constraint_check plan
              (set_env st {| now := at_time s; queue := q; eid := eid (env st) |}) a
            = (Ok (Some c), st1)) :
  exists st',
    step plan st = Continue st'
    /\ now (env st') = at_time s
    /\ operator st'
       = signal_failed_activity op (operator st) (product_index a) (activity_id a)
                                (at_time s) c
    /\ nr_clashes st' = S (nr_clashes st)
    /\ factory st' = factory st
    /\ log (logger st') = log (logger st)
    /\ active_processes (logger st') = active_processes (logger st)
    /\ resource_usage st' = resource_usage st
    /\ (forall k, dict_get (resource_usage st) k = Some (sentinel (fst k) (snd k)) ->
                  dict_get (resource_usage st') k = Some (sentinel (fst k) (snd k)))
    /\ queue (env st')
       = heappush {| at_time := at_time s; priority := NORMAL; seq := eid (env st);
                     event := ProcessEvent None |} q.
Proof.
  pose proof (constraint_check_frame plan
                (set_env st {| now := at_time s; queue := q; eid := eid (env st) |}) a) as F.
  rewrite Hcheck in F. cbn in F.
  destruct F as (Fe & Ff & Fu & Fn & Fo & Fl & Fa).
  eexists. split.
  - unfold step. rewrite Hq, Hev. unfold activity_processing. rewrite Hcheck.
    reflexivity.
  - cbn. rewrite Fe, Ff, Fu, Fn, Fo, Fl, Fa. cbn.
    rewrite Z.add_0_r. repeat split; auto.
Qed.

End RejectProperties.

(** The first activity of [plan_min_lag] asks for three units of a group
    of capacity two: its process, first in the queue after one event, is
    rejected with AVAILABILITY. *)
Lemma rejected_activity_transition_witness :
  exists st',
    step plan_min_lag st_rejected = Continue st'
    /\ now (env st') = 0
    /\ operator st' = ([], [(0%nat, 0%nat, 0, AVAILABILITY)])
    /\ nr_clashes st' = 1%nat
    /\ List.length (items (factory st')) = 2%nat
    /\ log (logger st') = []
    /\ dict_get (resource_usage st') (0%nat, 0%nat) = Some (sentinel 0 0).
Proof.
  pose (s := {| at_time := 0; priority := URGENT; seq := 2;
                event := Initialize_activity greedy_activity |}).
  pose (q := [ {| at_time := 1; priority := NORMAL; seq := 3;
                  event := Timeout_generator false |};
               {| at_time := 20; priority := URGENT; seq := 1; event := Until |} ]).
  assert (Hq : queue (env st_rejected) = s :: q) by (vm_compute; reflexivity).
  assert (Hcheck : constraint_check plan_min_lag
                     (set_env st_rejected
                        {| now := at_time s; queue := q; eid := eid (env st_rejected) |})
                     greedy_activity
                   = (Ok (Some AVAILABILITY),
                      set_env st_rejected
                        {| now := at_time s; queue := q; eid := eid (env st_rejected) |}))
    by (vm_compute; reflexivity).
  destruct (rejected_activity_transition plan_min_lag st_rejected _ s q
              greedy_activity AVAILABILITY Hq eq_refl Hcheck)
    as (st' & Hs & Hn & Ho & Hc & Hf & Hl & _ & Hu & Hk & _).
  exists st'. split; [exact Hs|]. split; [exact Hn|].
  split; [rewrite Ho; vm_compute; reflexivity|].
  split; [rewrite Hc; vm_compute; reflexivity|].
  split; [rewrite Hf; vm_compute; reflexivity|].
  split; [rewrite Hl; vm_compute; reflexivity|].
  apply (Hk (0%nat, 0%nat)). vm_compute. reflexivity.
Defined.


(** ** The minimal and the maximal lag *)

(** No run of the constraint check produces MIN_LAG: the precedence check
    stores that code in the logger and returns [None] for it, and the caller
    assigns the value of the [or] chain over it. *)
Lemma constraint_check_never_MIN_LAG {op : Operator} (plan : ProductionPlan)
  (st st1 : Simulator op) (a : ActivityArgs) :
  constraint_check plan st a <> (Ok (Some MIN_LAG), st1).
Proof.
  intros H. apply constraint_check_codes in H.
  destruct H as [H|[H|[H|H]]]; discriminate.
Qed.

(** C3.  In [st_min_lag_incompatible] the availability check is satisfied;
    the precedence check is not (the predecessor started at 0, the clock is
    at 1, the minimal lag is 5: it stores MIN_LAG) but returns no code; the
    compatibility check is not satisfied either (the first activity is
    active).  The code produced is COMPATIBILITY, that of the third check,
    not that of the first check that is not satisfied, and the operator is
    signalled with it. *)
Theorem min_lag_violation_yields_later_code :
  now (env st_min_lag_incompatible) = 1
  /\ option_map timestamp (fetch_latest_entry (logger st_min_lag_incompatible) 0 0 START)
     = Some 0
  /\ is_active (logger st_min_lag_incompatible) (0%nat, 0%nat) = true
  /\ _availability_constraint_check plan_min_lag_incompatible st_min_lag_incompatible
       (needs second_activity) 0 1
     = Ok None
  /\ fst (_precedence_constraint_check plan_min_lag_incompatible
            st_min_lag_incompatible 0 1)
     = Ok None
  /\ failure_code
       (logger (snd (_precedence_constraint_check plan_min_lag_incompatible
                       st_min_lag_incompatible 0 1)))
     = Some MIN_LAG
  /\ _compatibility_constraint_check plan_min_lag_incompatible
       (snd (_precedence_constraint_check plan_min_lag_incompatible
               st_min_lag_incompatible 0 1)) 0 1
     = Ok (Some COMPATIBILITY)
  /\ fst (constraint_check plan_min_lag_incompatible st_min_lag_incompatible
            second_activity)
     = Ok (Some COMPATIBILITY)
  /\ failure_code
       (logger (activity_processing plan_min_lag_incompatible st_min_lag_incompatible
                  second_activity))
     = Some COMPATIBILITY
  /\ snd (operator (activity_processing plan_min_lag_incompatible
                      st_min_lag_incompatible second_activity))
     = [ (0%nat, 1%nat, 1, COMPATIBILITY) ].
Proof. vm_compute. repeat split; reflexivity. Qed.

(** C1.  In [st_min_lag] the only predecessor of the second activity started
    at time 0, the clock is at 1 and the minimal lag is 5.  The precedence
    check finds the violation (it stores MIN_LAG) but returns no code, the
    constraint check produces no code, and the activity is not rejected: it
    takes a machine, no clash is counted, and in the finished run it has
    started at time 1. *)
Theorem min_lag_violation_not_reported :
  now (env st_min_lag) = 1
  /\ option_map timestamp (fetch_latest_entry (logger st_min_lag) 0 0 START) = Some 0
  /\ _availability_constraint_check plan_min_lag st_min_lag (needs second_activity) 0 1
     = Ok None
  /\ fst (_precedence_constraint_check plan_min_lag st_min_lag 0 1) = Ok None
  /\ failure_code (logger (snd (_precedence_constraint_check plan_min_lag st_min_lag 0 1)))
     = Some MIN_LAG
  /\ fst (constraint_check plan_min_lag st_min_lag second_activity) = Ok None
  /\ failure_code (logger (activity_processing plan_min_lag st_min_lag second_activity))
     = None
  /\ nr_clashes (activity_processing plan_min_lag st_min_lag second_activity) = 0%nat
  /\ items (factory st_min_lag) = [ {| resource_group := "A"; machine_id := 1 |} ]
  /\ items (factory (activity_processing plan_min_lag st_min_lag second_activity)) = []
  /\ simulate plan_min_lag 100 (new_simulator (script decisions_min_lag)) 20 1
     = Returned
         ([ {| ProductIndex := 0; ActivityId := 0; Needs := NeedsVector [1];
               Resources := Assigned [ {| resource_group := "A"; machine_id := 0 |} ];
               Request := Fin 0; Retrieve := Fin 0; Start := Fin 0; Finish := Fin 4 |};
            {| ProductIndex := 0; ActivityId := 1; Needs := NeedsVector [1];
               Resources := Assigned [ {| resource_group := "A"; machine_id := 1 |} ];
               Request := Fin 1; Retrieve := Fin 1; Start := Fin 1; Finish := Fin 6 |} ],
          (Fin 6, 0, 0%nat)).
Proof. vm_compute. repeat split; reflexivity. Qed.

(** C2.  The precedence check is not free of effects: in [st_min_lag] the
    logger's [failure_code] is [None] before the check and MIN_LAG after it,
    so the check returns a different simulator state. *)
Theorem precedence_check_assigns_failure_code :
  failure_code (logger st_min_lag) = None
  /\ failure_code (logger (snd (_precedence_constraint_check plan_min_lag st_min_lag 0 1)))
     = Some MIN_LAG
  /\ snd (_precedence_constraint_check plan_min_lag st_min_lag 0 1) <> st_min_lag.
Proof.
  assert (H1 : failure_code (logger st_min_lag) = None) by (vm_compute; reflexivity).
  assert (H2 : failure_code
                 (logger (snd (_precedence_constraint_check plan_min_lag st_min_lag 0 1)))
               = Some MIN_LAG) by (vm_compute; reflexivity).
  split; [exact H1|]. split; [exact H2|].
  intros E. rewrite E in H2. congruence.
Qed.

(** X3.  What the checks leave alone: the availability and the compatibility
    check return a value only, and the constraint check as a whole changes
    nothing but the logger's [failure_code]. *)
Lemma constraint_check_preserves {op : Operator} (plan : ProductionPlan)
  (st : Simulator op) (a : ActivityArgs) :
  let st' := snd (constraint_check plan st a) in
  env st' = env st /\ factory st' = factory st
  /\ resource_usage st' = resource_usage st /\ nr_clashes st' = nr_clashes st
  /\ operator st' = operator st
  /\ log (logger st') = log (logger st)
  /\ active_processes (logger st') = active_processes (logger st).
Proof. exact (constraint_check_frame plan st a). Qed.

(** C8.  In [st_max_lag_zero] the predecessor started at time 0, the clock
    is at 1 and the maximal lag is defined as 0: the elapsed time exceeds it,
    yet the precedence check returns no code and the activity starts. *)
Theorem max_lag_zero_not_enforced :
  now (env st_max_lag_zero) = 1
  /\ option_map timestamp (fetch_latest_entry (logger st_max_lag_zero) 0 0 START) = Some 0
  /\ option_map max_lag (dict_get (temporal_relations
                                     (nth 0 (products plan_max_lag_zero)
                                          {| product_id := 0; deadline := 0; activities := [];
                                             predecessors := []; temporal_relations := [] |}))
                                  (0%nat, 1%nat))
     = Some (Some 0)
  /\ _precedence_constraint_check plan_max_lag_zero st_max_lag_zero 0 1
     = (Ok None, st_max_lag_zero)
  /\ fst (constraint_check plan_max_lag_zero st_max_lag_zero second_activity) = Ok None
  /\ nr_clashes (activity_processing plan_max_lag_zero st_max_lag_zero second_activity)
     = 0%nat
  /\ option_map (fun out => map Start (fst out))
       (match simulate plan_max_lag_zero 100 (new_simulator (script decisions_min_lag)) 20 1
        with Returned out => Some out | _ => None end)
     = Some [Fin 0; Fin 1].
Proof. vm_compute. repeat split; reflexivity. Qed.

(** A defined maximal lag other than 0 is enforced: when the loop comes to a
    predecessor with a recorded start, the minimal lag holds and the elapsed
    time exceeds the maximal lag, MAX_LAG is returned at once, whatever
    predecessors follow. *)
Lemma precedence_loop_max_lag {op : Operator} (prod : Product)
  (product_index activity_id pred : nat) (rest : list nat) (st : Simulator op)
  (rel : TemporalRelation) (e : LogEntry) (m : Z) :
  dict_get (temporal_relations prod) (pred, activity_id) = Some rel ->
  fetch_latest_entry (logger st) product_index pred START = Some e ->
  max_lag rel = Some m -> m <> 0 ->
  min_lag rel <= now (env st) - timestamp e ->
  m < now (env st) - timestamp e ->
  precedence_loop prod product_index activity_id (pred :: rest) st
  = (Ok (Some MAX_LAG), st).
Proof.
  intros Hrel He Hm Hm0 Hmin Hmax. simpl. rewrite Hrel, He, Hm.
  destruct (Z.ltb_spec (now (env st) - timestamp e) (min_lag rel)); [lia|].
  unfold truthy. destruct (Z.eqb_spec m 0); [contradiction|].
  destruct (Z.gtb_spec (now (env st) - timestamp e) m); [reflexivity | lia].
Qed.

(** ** Makespan, lateness and unfinished products *)

Lemma xle_refl (a : xtime) : xle a a.
Proof. destruct a; simpl; [lia | exact I]. Qed.

Lemma xle_trans (a b c : xtime) : xle a b -> xle b c -> xle a c.
Proof. destruct a, b, c; simpl; try tauto; lia. Qed.

Lemma xle_antisym (a b : xtime) : xle a b -> xle b a -> a = b.
Proof. destruct a, b; simpl; try tauto. intros. f_equal. lia. Qed.

Lemma xmax_cases (a b : xtime) :
  (xmax a b = a \/ xmax a b = b) /\ xle a (xmax a b) /\ xle b (xmax a b).
Proof.
  destruct a as [x|], b as [y|]; simpl; try tauto.
  destruct (Z.max_spec x y) as [[? ->]|[? ->]]; repeat split; auto; lia.
Qed.

Lemma fold_left_xmax_spec (l : list xtime) :
  forall x, (fold_left xmax l x = x \/ In (fold_left xmax l x) l)
            /\ xle x (fold_left xmax l x)
            /\ forall y, In y l -> xle y (fold_left xmax l x).
Proof.
  induction l as [|a l IH]; intros x; simpl.
  - split; [now left|]. split; [apply xle_refl | tauto].
  - destruct (IH (xmax x a)) as (Hin & Hle & Hall).
    destruct (xmax_cases x a) as (Hc & Hx & Ha).
    split; [|split].
    + destruct Hin as [Hin|Hin]; [|now right; right].
      rewrite Hin. destruct Hc as [Hc|Hc]; rewrite Hc; [now left | now right; left].
    + eapply xle_trans; eauto.
    + intros y [<-|Hy]; [eapply xle_trans; eauto | now apply Hall].
Qed.

Lemma py_max_is_max (l : list xtime) (m : xtime) :
  py_max l = Ok m <-> is_max m l.
Proof.
  destruct l as [|x l]; simpl.
  - split; [discriminate | intros [[] _]].
  - destruct (fold_left_xmax_spec l x) as (Hin & Hle & Hall).
    assert (Hmax : is_max (fold_left xmax l x) (x :: l)).
    { split.
      - destruct Hin as [->|Hin]; [now left | now right].
      - intros y [<-|Hy]; auto. }
    split.
    + intros H. inversion H; subst. exact Hmax.
    + intros [Hm Hup]. f_equal. apply xle_antisym.
      * apply Hup. apply Hmax.
      * apply Hmax. exact Hm.
Qed.

Lemma py_max_empty (l : list xtime) : py_max l = Raise ValueError <-> l = [].
Proof. destruct l; simpl; split; congruence. Qed.

(** The accumulating loop computes the sum and the count of the spec. *)
Lemma lateness_loop_spec (rows : list UsageRecord) (fin : nat -> xtime)
  (prods : list Product) :
  forall p lateness nr,
    (forall i, (i < List.length prods)%nat ->
               is_max (fin (p + i)%nat) (product_finishes rows (p + i))) ->
    lateness_loop rows p prods lateness nr
    = Ok (lateness + total_lateness fin p prods,
          (nr + unfinished_products fin p prods)%nat).
Proof.
  induction prods as [|prod rest IH]; intros p lateness nr H; simpl.
  - now rewrite Z.add_0_r, Nat.add_0_r.
  - assert (H0 : is_max (fin p) (product_finishes rows p)).
    { specialize (H 0%nat). rewrite Nat.add_0_r in H. apply H. simpl. lia. }
    apply py_max_is_max in H0. unfold product_finishes in H0. rewrite H0.
    assert (Hrest : forall i, (i < List.length rest)%nat ->
                      is_max (fin (S p + i)%nat) (product_finishes rows (S p + i))).
    { intros i Hi. specialize (H (S i)). rewrite Nat.add_succ_r in H.
      apply H. simpl. lia. }
    destruct (fin p) as [f|].
    + rewrite (IH (S p) _ _ Hrest). f_equal. f_equal; lia.
    + rewrite (IH (S p) _ _ Hrest). f_equal. f_equal; lia.
Qed.

(** When no record has a finite Finish, the result processing raises: from
    the lookup of the "Finish" column when there is no record at all, from
    [max] of the empty list of finite finish times otherwise. *)
Lemma process_results_no_completion (plan : ProductionPlan) (rows : list UsageRecord) :
  (forall row, In row rows -> Finish row = Inf) ->
  process_results plan rows = Raise (match rows with [] => KeyError | _ => ValueError end).
Proof.
  intros H. destruct rows as [|row rows]; [reflexivity|].
  unfold process_results.
  assert (E : filter (fun i => negb (xtime_eqb i Inf)) (map Finish (row :: rows)) = []).
  { induction (row :: rows) as [|r l IH]; [reflexivity|].
    simpl. rewrite (H r (or_introl eq_refl)). simpl.
    apply IH. intros r' Hr'. apply H. now right. }
  rewrite E. reflexivity.
Qed.

(** C5.  A run of [plan_min_lag] in which the operator never dispatches
    anything reaches the horizon with both records still the sentinel, so no
    record has a finite Finish; [simulate] then returns nothing at all: it
    raises ValueError, from [max(finish_times)] over the empty list. *)
Theorem simulate_without_completion_raises :
  option_map table (final_state plan_min_lag 100 (script []) 20)
  = Some [sentinel 0 0; sentinel 0 1]
  /\ finite_finishes [sentinel 0 0; sentinel 0 1] = []
  /\ process_results plan_min_lag [sentinel 0 0; sentinel 0 1] = Raise ValueError
  /\ simulate plan_min_lag 100 (new_simulator (script [])) 20 1 = Threw ValueError.
Proof. vm_compute. repeat split; reflexivity. Qed.

(** The makespan is the greatest finite Finish whenever there is one. *)
Lemma process_results_makespan (plan : ProductionPlan) (rows : list UsageRecord)
  (makespan : xtime) (lateness : Z) (nr : nat) :
  process_results plan rows = Ok (makespan, lateness, nr) ->
  is_max makespan (finite_finishes rows) /\ makespan <> Inf.
Proof.
  unfold process_results. destruct rows as [|row rows]; [discriminate|].
  fold (finite_finishes (row :: rows)).
  destruct (py_max (finite_finishes (row :: rows))) as [m|e] eqn:E; [|discriminate].
  destruct (lateness_loop _ _ _ _ _) as [[l n]|e]; [|discriminate].
  intros H. inversion H; subst. apply py_max_is_max in E. split; [exact E|].
  destruct E as [E _]. unfold finite_finishes in E. apply filter_In in E.
  destruct E as [_ E]. intros ->. discriminate.
Qed.

(** C6.  A run of [plan_two_products] in which the operator never
    dispatches anything reaches the horizon with the records of both
    products still the placeholders.  The loop over the products gives, on
    that table, a lateness of 0 and two unfinished products, but [simulate]
    does not get to it and returns no triple: it raises ValueError before,
    from [max(finish_times)]. *)
Theorem unfinished_products_not_reported :
  option_map table (final_state plan_two_products 100 (script []) 20)
  = Some [sentinel 0 0; sentinel 1 0]
  /\ lateness_loop [sentinel 0 0; sentinel 1 0] 0 (products plan_two_products) 0 0
     = Ok (0, 2%nat)
  /\ simulate plan_two_products 100 (new_simulator (script [])) 20 1 = Threw ValueError.
Proof. vm_compute. repeat split; reflexivity. Qed.

(** When a run reaches its horizon, some record has a finite Finish and
    every product has records, with [fin p] the greatest Finish among those
    of product [p]: [simulate] returns the table and the triple of the
    makespan (the greatest finite Finish), the total lateness (the sum of
    [max(0, finish - deadline)] over the products whose finish is finite) and
    the number of products whose finish is infinite. *)
Lemma simulate_returns_triple {op : Operator} (plan : ProductionPlan) (fuel : nat)
  (st st0 st' : Simulator op) (sim_time seed : Z) (fin : nat -> xtime)
  (Hsetup : simulate_setup plan st sim_time seed = Ok st0)
  (Hrun : run plan fuel st0 = Stopped st')
  (Hfin : forall p, (p < List.length (products plan))%nat ->
                    is_max (fin p) (product_finishes (table st') p))
  (Hsome : finite_finishes (table st') <> []) :
  exists makespan,
    is_max makespan (finite_finishes (table st'))
    /\ simulate plan fuel st sim_time seed
       = Returned (table st',
                   (makespan,
                    total_lateness fin 0 (products plan),
                    unfinished_products fin 0 (products plan))).
Proof.
  unfold simulate. rewrite Hsetup, Hrun. unfold process_results.
  destruct (table st') as [|row rows] eqn:T; [now contradiction Hsome|].
  fold (finite_finishes (row :: rows)).
  destruct (py_max (finite_finishes (row :: rows))) as [m|e] eqn:E.
  - exists m. split; [now apply py_max_is_max|].
    rewrite (lateness_loop_spec (row :: rows) fin (products plan) 0 0 0).
    + reflexivity.
    + intros i Hi. simpl. now apply Hfin.
  - destruct (finite_finishes (row :: rows)); [now contradiction Hsome | discriminate].
Qed.

(** In the run of [plan_two_products] the first product finishes at 4, one
    unit late, and the second is never dispatched. *)
Lemma simulate_returns_triple_two_products :
  exists makespan,
    is_max makespan (finite_finishes (table st_end_two_products))
    /\ simulate plan_two_products 100 (new_simulator (script decisions_two_products)) 20 1
       = Returned (table st_end_two_products,
                   (makespan,
                    total_lateness (fun p => match p with O => Fin 4 | _ => Inf end) 0
                                   (products plan_two_products),
                    unfinished_products (fun p => match p with O => Fin 4 | _ => Inf end) 0
                                        (products plan_two_products))).
Proof.
  apply (simulate_returns_triple plan_two_products 100
           (new_simulator (script decisions_two_products))
           st0_two_products st_end_two_products 20 1).
  - vm_compute. reflexivity.
  - vm_compute. reflexivity.
  - intros p Hp. destruct p as [|[|p]].
    + vm_compute. split; [now left|]. intros x [<-|[]] H. discriminate H.
    + vm_compute. split; [now left|]. intros x [<-|[]]. exact I.
    + simpl in Hp. lia.
  - vm_compute. discriminate.
Defined.

Example simulate_two_products :
  simulate plan_two_products 100 (new_simulator (script decisions_two_products)) 20 1
  = Returned ([ {| ProductIndex := 0; ActivityId := 0; Needs := NeedsVector [1];
                   Resources := Assigned [ {| resource_group := "A"; machine_id := 0 |} ];
                   Request := Fin 0; Retrieve := Fin 0; Start := Fin 0; Finish := Fin 4 |};
                sentinel 1 0 ],
              (Fin 4, 1, 1%nat)).
Proof. vm_compute. reflexivity. Qed.

(** ** Queue membership *)

Lemma In_heappush (x s : Scheduled) (q : list Scheduled) :
  In s (heappush x q) <-> s = x \/ In s q.
Proof.
  induction q as [|y q IH]; simpl.
  - intuition congruence.
  - destruct (key_ltb x y); simpl; [intuition congruence|].
    rewrite IH. intuition congruence.
Qed.

Lemma pair_eqb_eq (a b : nat * nat) : pair_eqb a b = true <-> a = b.
Proof.
  destruct a as [a1 a2], b as [b1 b2]. unfold pair_eqb. simpl.
  rewrite andb_true_iff, !Nat.eqb_eq. intuition congruence.
Qed.

Lemma dict_get_set {V : Type} (d : list ((nat * nat) * V)) (k k' : nat * nat) (v : V) :
  dict_get (dict_set d k v) k' = if pair_eqb k k' then Some v else dict_get d k'.
Proof.
  induction d as [|[k0 v0] d IH]; cbn [dict_get dict_set].
  - destruct (pair_eqb k k'); reflexivity.
  - destruct (pair_eqb k0 k) eqn:E0; cbn [dict_get dict_set].
    + apply pair_eqb_eq in E0. subst k0. destruct (pair_eqb k k'); reflexivity.
    + rewrite IH. destruct (pair_eqb k0 k') eqn:E1; [|reflexivity].
      apply pair_eqb_eq in E1. subst k0.
      destruct (pair_eqb k k') eqn:E2; [|reflexivity].
      apply pair_eqb_eq in E2. subst k'.
      rewrite (proj2 (pair_eqb_eq k k) eq_refl) in E0. discriminate.
Qed.

Lemma ended_app (lg : list LogEntry) (e : LogEntry) pi ai :
  ended lg pi ai -> ended (lg ++ [e]) pi ai.
Proof. intros (x & Hx & Hm). exists x. split; [apply in_or_app; now left | exact Hm]. Qed.

Lemma ended_last (lg : list LogEntry) pid pi ai t :
  ended (lg ++ [ {| entry_product_id := pid; entry_activity_id := ai;
                    entry_product_index := pi; entry_action := END; timestamp := t |} ])
        pi ai.
Proof.
  eexists. split; [apply in_or_app; right; left; reflexivity|].
  unfold entry_matches. simpl. now rewrite !Nat.eqb_refl.
Qed.


(** ** What the store operations leave alone *)

Section StoreFrames.
Context {op : Operator}.

Lemma trigger_get_loop_frame (pending : list Acquiring) :
  forall st : Simulator op,
    let st' := fst (trigger_get_loop pending st) in
    logger st' = logger st /\ resource_usage st' = resource_usage st
    /\ nr_clashes st' = nr_clashes st /\ operator st' = operator st
    /\ put_queue (factory st') = put_queue (factory st)
    /\ store_capacity (factory st') = store_capacity (factory st)
    /\ now (env st') = now (env st).
Proof.
  induction pending as [|w rest IH]; intros st; simpl; [repeat split|].
  destruct (take_item _ _) as [[item items']|].
  - specialize (IH (schedule (set_items st items') (StoreGet item w) NORMAL 0)).
    cbn in IH. exact IH.
  - specialize (IH st). destruct (trigger_get_loop rest st). exact IH.
Qed.

Lemma trigger_get_frame (st : Simulator op) :
  logger (_trigger_get st) = logger st
  /\ resource_usage (_trigger_get st) = resource_usage st
  /\ nr_clashes (_trigger_get st) = nr_clashes st
  /\ operator (_trigger_get st) = operator st
  /\ put_queue (factory (_trigger_get st)) = put_queue (factory st)
  /\ store_capacity (factory (_trigger_get st)) = store_capacity (factory st)
  /\ now (env (_trigger_get st)) = now (env st).
Proof.
  unfold _trigger_get.
  pose proof (trigger_get_loop_frame (get_queue (factory st)) st) as H.
  destruct (trigger_get_loop _ _) as [st' still]. cbn in *. exact H.
Qed.

Lemma Continue_inj (a b : Simulator op) : Continue a = Continue b -> a = b.
Proof. intros H. now injection H. Qed.

End StoreFrames.

(** ** The usage records change only when an activity completes *)

Section UsageFrame.
Context {op : Operator}.
Variable plan : ProductionPlan.

Lemma usage_factory_get (st : Simulator op) w :
  resource_usage (factory_get st w) = resource_usage st.
Proof.
  unfold factory_get.
  now destruct (trigger_get_frame (set_get_queue st (get_queue (factory st) ++ [w])))
    as (_ & -> & _).
Qed.

Lemma usage_trigger_put (st : Simulator op) :
  resource_usage (_trigger_put st) = resource_usage st.
Proof.
  unfold _trigger_put. destruct (put_queue (factory st)) as [|[item w] rest]; [reflexivity|].
  now destruct (_ <? _).
Qed.

Lemma usage_factory_put (st : Simulator op) item w :
  resource_usage (factory_put st item w) = resource_usage st.
Proof. unfold factory_put. now rewrite usage_trigger_put. Qed.

Lemma usage_start_processing (st : Simulator op) a rt rs :
  resource_usage (start_processing plan st a rt rs) = resource_usage st.
Proof.
  unfold start_processing. destruct (nth_error _ _); [|reflexivity].
  now destruct (_ <? _).
Qed.

Lemma usage_acquire_loop (a : ActivityArgs) rt rest :
  forall (st : Simulator op) rs r,
    resource_usage (acquire_loop plan st a rt rs r rest) = resource_usage st.
Proof.
  induction rest as [|need rest IH]; intros st rs r; simpl.
  - apply usage_start_processing.
  - destruct (0 <? need); [|apply IH].
    destruct (nth_error _ _); [apply usage_factory_get | reflexivity].
Qed.

Lemma usage_resume_acquiring (st : Simulator op) w item :
  resource_usage (resume_acquiring plan st w item) = resource_usage st.
Proof.
  unfold resume_acquiring.
  destruct (acq_remaining w); [apply usage_acquire_loop | apply usage_factory_get].
Qed.

Lemma usage_activity_processing (st : Simulator op) a :
  resource_usage (activity_processing plan st a) = resource_usage st.
Proof.
  unfold activity_processing.
  pose proof (constraint_check_frame plan st a) as F.
  destruct (constraint_check plan st a) as [[code|e] st1]; cbn in F;
    destruct F as (_ & _ & Hu & _); [|exact Hu].
  destruct code as [c|]; [exact Hu|]. now rewrite usage_acquire_loop.
Qed.

Lemma usage_activity_generator (st : Simulator op) fin :
  resource_usage (activity_generator st fin) = resource_usage st.
Proof.
  unfold activity_generator. destruct fin; [reflexivity|].
  destruct (send_next_activity op _ _) as [d o].
  destruct (_ <? _), (send_activity d); reflexivity.
Qed.

(** The record of an activity is the same after an event as before, unless
    the event completes that activity. *)
Lemma usage_step (st st' : Simulator op) (key : nat * nat) :
  step plan st = Continue st' ->
  completing plan st <> Some key ->
  dict_get (resource_usage st') key = dict_get (resource_usage st) key.
Proof.
  unfold step, completing. destruct (queue (env st)) as [|s q]; [discriminate|].
  destruct (event s) as [|a|fin|p|item w|w|[e|]|]; intros Hs;
    try discriminate Hs; apply Continue_inj in Hs; rewrite <- Hs; clear Hs st'; intros Hc.
  - now rewrite usage_activity_generator.
  - now rewrite usage_activity_processing.
  - now rewrite usage_activity_generator.
  - unfold finish_processing. destruct (nth_error _ _); [|reflexivity].
    unfold release_loop. destruct (resources p) as [|m rest].
    + cbn. rewrite dict_get_set. destruct (pair_eqb _ _) eqn:E; [|reflexivity].
      apply pair_eqb_eq in E. congruence.
    + now rewrite usage_factory_put.
  - now rewrite usage_resume_acquiring, usage_trigger_put.
  - unfold resume_releasing, release_loop.
    destruct (trigger_get_frame
                (set_env st {| now := at_time s; queue := q; eid := eid (env st) |}))
      as (_ & Hu & _).
    destruct (rel_rest w) as [|m rest].
    + cbn. rewrite dict_get_set, Hu. destruct (pair_eqb _ _) eqn:E; [|reflexivity].
      apply pair_eqb_eq in E. unfold release_key in Hc. congruence.
    + now rewrite usage_factory_put, Hu.
  - reflexivity.
Qed.

Lemma usage_steps (n : nat) (key : nat * nat) :
  forall st0 st1 : Simulator op,
    steps plan n st0 = Some st1 ->
    never_completed plan st0 n key ->
    dict_get (resource_usage st1) key = dict_get (resource_usage st0) key.
Proof.
  induction n as [|n IH]; intros st0 st1; simpl.
  - intros H _. now injection H as <-.
  - destruct (step plan st0) as [st| | |] eqn:E; try discriminate.
    intros H Hn. rewrite (IH st st1 H).
    + apply (usage_step _ _ _ E). apply (Hn 0%nat st0); [lia | reflexivity].
    + intros i sti Hi Hs. apply (Hn (S i) sti); [lia|]. simpl. now rewrite E.
Qed.

End UsageFrame.

(** ** The records of activities that did not complete *)

Section Sentinel.
Context {op : Operator}.
Variable plan : ProductionPlan.

Lemma records_invariant_schedule (st : Simulator op) ev prio dl :
  records_invariant plan st ->
  (forall w, ev = StorePut w ->
             ended (log (logger st)) (fst (release_key w)) (snd (release_key w))) ->
  records_invariant plan (schedule st ev prio dl).
Proof.
  intros [[Hq Hp] Hs] Hev. split; [split|]; cbn.
  - intros s w Hin Hw. apply In_heappush in Hin. destruct Hin as [->|Hin].
    + apply Hev. exact Hw.
    + eapply Hq; eauto.
  - exact Hp.
  - exact Hs.
Qed.

Lemma records_invariant_trigger_get_loop (pending : list Acquiring) :
  forall st : Simulator op,
    records_invariant plan st ->
    records_invariant plan (fst (trigger_get_loop pending st)).
Proof.
  induction pending as [|w rest IH]; intros st H; simpl; [exact H|].
  destruct (take_item _ _) as [[item items']|].
  - apply IH. apply records_invariant_schedule; [|discriminate].
    destruct H as [[Hq Hp] Hs]. split; [split|]; cbn; assumption.
  - specialize (IH st H). destruct (trigger_get_loop rest st). exact IH.
Qed.

Lemma records_invariant_set_get_queue (st :
  Simulator op) q : records_invariant plan st ->
  records_invariant plan (set_get_queue st q).
Proof. intros [[Hq Hp] Hs]. split; [split|]; cbn; assumption. Qed.

Lemma records_invariant_trigger_get (st :
  Simulator op) : records_invariant plan st ->
  records_invariant plan (_trigger_get st).
Proof.
  intros H. unfold _trigger_get.
  pose proof (records_invariant_trigger_get_loop (get_queue (factory st)) st H) as H'.
  destruct (trigger_get_loop _ _). now apply records_invariant_set_get_queue.
Qed.

Lemma records_invariant_factory_get (st :
  Simulator op) w : records_invariant plan st ->
  records_invariant plan (factory_get st w).
Proof.
  intros H. apply records_invariant_trigger_get. now apply records_invariant_set_get_queue.
Qed.

Lemma records_invariant_trigger_put (st :
  Simulator op) : records_invariant plan st ->
  records_invariant plan (_trigger_put st).
Proof.
  intros H. unfold _trigger_put.
  destruct (put_queue (factory st)) as [|[item w] rest] eqn:E; [exact H|].
  destruct (_ <? _); [|exact H].
  destruct H as [[Hq Hp] Hs].
  apply records_invariant_schedule.
  - split; [split|]; cbn; try assumption.
    intros i w' Hin. eapply Hp. rewrite E. right. exact Hin.
  - intros w' Hw. inversion Hw; subst. cbn. eapply Hp. rewrite E. left. reflexivity.
Qed.

Lemma records_invariant_factory_put (st : Simulator op) item w :
  records_invariant plan st ->
  ended (log (logger st)) (fst (release_key w)) (snd (release_key w)) ->
  records_invariant plan (factory_put st item w).
Proof.
  intros [[Hq Hp] Hs] Hw. apply records_invariant_trigger_put.
  split; [split|]; cbn; try assumption.
  intros i w' Hin. apply in_app_or in Hin. destruct Hin as [Hin|[Hin|[]]].
  - eapply Hp; eauto.
  - inversion Hin; subst. exact Hw.
Qed.

Lemma records_invariant_log_activity (st : Simulator op) pid ai pi action t :
  records_invariant plan st ->
  records_invariant plan (set_logger st (log_activity (logger st) pid ai pi action t)).
Proof.
  intros [[Hq Hp] Hs]. split; [split|]; cbn.
  - intros s w Hin Hw. apply ended_app. eapply Hq; eauto.
  - intros i w Hin. apply ended_app. eapply Hp; eauto.
  - intros p a Hin. destruct (Hs p a Hin) as [H|H]; [now left | right; now apply ended_app].
Qed.

Lemma records_invariant_same_but_failure_code (st st' : Simulator op) :
  same_but_failure_code st st' -> records_invariant plan st -> records_invariant plan st'.
Proof.
  intros (He & Hf & Hu & _ & _ & Hl & _) [[Hq Hp] Hs].
  split; [split|]; unfold sentinel_or_ended; rewrite ?He, ?Hf, ?Hu, ?Hl; assumption.
Qed.

Lemma records_invariant_set_failure_code (st : Simulator op) c :
  records_invariant plan st ->
  records_invariant plan (set_logger st (set_failure_code (logger st) c)).
Proof. intros [[Hq Hp] Hs]. split; [split|]; cbn; assumption. Qed.

Lemma records_invariant_process_raise (st :
  Simulator op) e : records_invariant plan st ->
  records_invariant plan (process_raise st e).
Proof. intros H. apply records_invariant_schedule; [exact H | discriminate]. Qed.

Lemma records_invariant_process_return (st :
  Simulator op) : records_invariant plan st ->
  records_invariant plan (process_return st).
Proof. intros H. apply records_invariant_schedule; [exact H | discriminate]. Qed.

Lemma records_invariant_start_processing (st : Simulator op) a rt rs :
  records_invariant plan st -> records_invariant plan (start_processing plan st a rt rs).
Proof.
  intros H. unfold start_processing.
  destruct (nth_error _ _); [|now apply records_invariant_process_raise].
  destruct (_ <? _).
  - apply records_invariant_process_raise. now apply records_invariant_log_activity.
  - apply records_invariant_schedule; [now apply records_invariant_log_activity | discriminate].
Qed.

Lemma records_invariant_acquire_loop (a : ActivityArgs) rt rest :
  forall (st : Simulator op) rs r,
    records_invariant plan st -> records_invariant plan (acquire_loop plan st a rt rs r rest).
Proof.
  induction rest as [|need rest IH]; intros st rs r H; simpl.
  - now apply records_invariant_start_processing.
  - destruct (0 <? need); [|now apply IH].
    destruct (nth_error _ _);
      [now apply records_invariant_factory_get | now apply records_invariant_process_raise].
Qed.

Lemma records_invariant_resume_acquiring (st : Simulator op) w item :
  records_invariant plan st -> records_invariant plan (resume_acquiring plan st w item).
Proof.
  intros H. unfold resume_acquiring.
  destruct (acq_remaining w);
    [now apply records_invariant_acquire_loop | now apply records_invariant_factory_get].
Qed.

Lemma records_invariant_release_loop (st : Simulator op) p t rest :
  records_invariant plan st ->
  ended (log (logger st)) (product_index (args p)) (activity_id (args p)) ->
  records_invariant plan (release_loop st p t rest).
Proof.
  intros H He. unfold release_loop. destruct rest as [|m rest].
  - apply records_invariant_process_return. destruct H as [[Hq Hp] Hs].
    split; [split; cbn; assumption|].
    unfold sentinel_or_ended, set_resource_usage; cbn [resource_usage logger].
    intros pi ai Hin. rewrite dict_get_set.
    destruct (pair_eqb _ _) eqn:E.
    + apply pair_eqb_eq in E. inversion E; subst. now right.
    + now apply Hs.
  - apply records_invariant_factory_put; [exact H | exact He].
Qed.

Lemma records_invariant_finish_processing (st : Simulator op) p :
  records_invariant plan st -> records_invariant plan (finish_processing plan st p).
Proof.
  intros H. unfold finish_processing.
  destruct (nth_error _ _); [|now apply records_invariant_process_raise].
  apply records_invariant_release_loop; [now apply records_invariant_log_activity|].
  cbn. apply ended_last.
Qed.

Lemma records_invariant_activity_processing (st : Simulator op) a :
  records_invariant plan st -> records_invariant plan (activity_processing plan st a).
Proof.
  intros H. unfold activity_processing.
  pose proof (constraint_check_frame plan st a) as F.
  destruct (constraint_check plan st a) as [[code|e] st1]; cbn in F.
  - assert (H1 : records_invariant plan (set_logger st1 (set_failure_code (logger st1) code))).
    { apply records_invariant_set_failure_code.
      eapply records_invariant_same_but_failure_code; eauto. }
    destruct code as [c|]; [|now apply records_invariant_acquire_loop].
    unfold reject. apply records_invariant_process_return.
    destruct H1 as [[Hq Hp] Hs]. split; [split|]; cbn; assumption.
  - apply records_invariant_process_raise.
    eapply records_invariant_same_but_failure_code; eauto.
Qed.

Lemma records_invariant_activity_generator (st : Simulator op) fin :
  records_invariant plan st -> records_invariant plan (activity_generator st fin).
Proof.
  intros H. unfold activity_generator.
  destruct fin; [now apply records_invariant_process_return|].
  destruct (send_next_activity op _ _) as [d o].
  assert (H1 : records_invariant plan (set_operator st o)).
  { destruct H as [[Hq Hp] Hs]. split; [split|]; cbn; assumption. }
  assert (H2 : records_invariant plan (if send_activity d
                      then schedule (set_operator st o)
                             (Initialize_activity
                                {| activity_id := d_activity_id d;
                                   product_index := d_product_index d;
                                   proc_time := d_proc_time d; needs := d_needs d |})
                             URGENT 0
                      else set_operator st o)).
  { destruct (send_activity d); [|exact H1].
    apply records_invariant_schedule; [exact H1 | discriminate]. }
  destruct (_ <? _); [now apply records_invariant_process_raise|].
  apply records_invariant_schedule; [exact H2 | discriminate].
Qed.

Lemma records_invariant_pop (st : Simulator op) s q :
  queue (env st) = s :: q -> records_invariant plan st ->
  records_invariant plan (set_env st {| now := at_time s; queue := q; eid := eid (env st) |})
  /\ (forall w, event s = StorePut w ->
                ended (log (logger st)) (fst (release_key w)) (snd (release_key w))).
Proof.
  intros E [[Hq Hp] Hs]. split.
  - split; [split|]; cbn; try assumption.
    intros s' w Hin. apply Hq. rewrite E. now right.
  - intros w Hw. eapply Hq; eauto. rewrite E. now left.
Qed.

Lemma records_invariant_step (st st' : Simulator op) :
  records_invariant plan st -> step plan st = Continue st' -> records_invariant plan st'.
Proof.
  intros H. unfold step. destruct (queue (env st)) as [|s q] eqn:E; [discriminate|].
  destruct (records_invariant_pop st s q E H) as [H1 Hw].
  destruct (event s) as [|a|fin|p|item w|w|[e|]|]; intros Hs;
    try discriminate Hs; apply Continue_inj in Hs; rewrite <- Hs; clear Hs st'.
  - now apply records_invariant_activity_generator.
  - now apply records_invariant_activity_processing.
  - now apply records_invariant_activity_generator.
  - now apply records_invariant_finish_processing.
  - apply records_invariant_resume_acquiring. now apply records_invariant_trigger_put.
  - unfold resume_releasing. apply records_invariant_release_loop.
    + now apply records_invariant_trigger_get.
    + specialize (Hw w eq_refl).
      destruct (trigger_get_frame
                  (set_env st {| now := at_time s; queue := q; eid := eid (env st) |}))
        as [L _].
      rewrite L. exact Hw.
  - exact H1.
Qed.

Lemma records_invariant_steps (n : nat) :
  forall st st' : Simulator op,
    records_invariant plan st -> steps plan n st = Some st' -> records_invariant plan st'.
Proof.
  induction n as [|n IH]; intros st st' H; simpl.
  - intros E. injection E as <-. exact H.
  - destruct (step plan st) as [st1| | |] eqn:E; try discriminate.
    apply IH. eapply records_invariant_step; eauto.
Qed.

Lemma run_Stopped (fuel : nat) :
  forall st st' : Simulator op,
    run plan fuel st = Stopped st' ->
    exists n st1, steps plan n st = Some st1 /\ step plan st1 = StopSimulation st'.
Proof.
  induction fuel as [|fuel IH]; intros st st'; simpl; [discriminate|].
  destruct (step plan st) as [st1|st1|e st1|st1] eqn:E; try discriminate.
  - intros H. destruct (IH _ _ H) as (n & st2 & Hn & Hs).
    exists (S n), st2. simpl. rewrite E. now split.
  - intros H. injection H as <-. exists 0%nat, st. now split.
Qed.

Lemma step_StopSimulation (st st' : Simulator op) :
  step plan st = StopSimulation st' ->
  logger st' = logger st /\ resource_usage st' = resource_usage st
  /\ factory st' = factory st /\ nr_clashes st' = nr_clashes st
  /\ operator st' = operator st.
Proof.
  unfold step. destruct (queue (env st)) as [|s q]; [discriminate|].
  destruct (event s) as [|a|fin|p|item w|w|[e|]|]; try discriminate.
  intros H. injection H as <-. repeat split.
Qed.

Lemma write_sentinels_keeps (acts : list (nat * nat)) :
  forall usage k,
    dict_get usage k = Some (sentinel (fst k) (snd k)) ->
    dict_get (write_sentinels acts usage) k = Some (sentinel (fst k) (snd k)).
Proof.
  induction acts as [|act rest IH]; intros usage k H; simpl; [exact H|].
  apply IH. rewrite dict_get_set. destruct (pair_eqb act k) eqn:E; [|exact H].
  apply pair_eqb_eq in E. now subst.
Qed.

Lemma write_sentinels_get (acts : list (nat * nat)) :
  forall usage k,
    In k acts ->
    dict_get (write_sentinels acts usage) k = Some (sentinel (fst k) (snd k)).
Proof.
  induction acts as [|act rest IH]; intros usage k; simpl; [tauto|].
  intros [->|H]; [|now apply IH].
  apply write_sentinels_keeps. rewrite dict_get_set.
  now rewrite (proj2 (pair_eqb_eq k k) eq_refl).
Qed.

Lemma records_invariant_setup (st st0 : Simulator op) sim_time seed :
  simulate_setup plan st sim_time seed = Ok st0 -> records_invariant plan st0.
Proof.
  unfold simulate_setup. destruct (_ <=? 0); [discriminate|].
  destruct (create_resources _ _ _ _) as [items_|e]; [|discriminate].
  destruct (sim_time <=? _); [discriminate|].
  intros H. injection H as <-.
  apply records_invariant_schedule; [|discriminate].
  apply records_invariant_schedule; [|discriminate].
  split; [split|]; cbn.
  - intros s w [].
  - intros item w [].
  - intros pi ai Hin. left. now apply (write_sentinels_get _ _ (pi, ai)).
Qed.

Lemma not_ended_fetch (lg : SimulatorLogger) pi ai :
  fetch_latest_entry lg pi ai END = None -> ~ ended (log lg) pi ai.
Proof.
  unfold fetch_latest_entry. intros H (e & Hin & Hm).
  apply in_rev in Hin. rewrite (find_none _ _ H e Hin) in Hm. discriminate.
Qed.

Lemma dict_get_In {V : Type} (d : list ((nat * nat) * V)) k v :
  dict_get d k = Some v -> In v (map snd d).
Proof.
  induction d as [|[k0 v0] d IH]; simpl; [discriminate|].
  destruct (pair_eqb k0 k).
  - intros H. injection H as <-. now left.
  - intros H. right. now apply IH.
Qed.

Lemma setup_sentinel (st st0 : Simulator op) sim_time seed pi ai :
  simulate_setup plan st sim_time seed = Ok st0 ->
  In (pi, ai) (earliest_start plan) ->
  dict_get (resource_usage st0) (pi, ai) = Some (sentinel pi ai).
Proof.
  unfold simulate_setup. destruct (_ <=? 0); [discriminate|].
  destruct (create_resources _ _ _ _) as [items_|e]; [|discriminate].
  destruct (sim_time <=? _); [discriminate|].
  intros H Hin. injection H as <-. cbn.
  exact (write_sentinels_get _ _ (pi, ai) Hin).
Qed.

(** At every instant of a run, a planned activity without a logged END has
    the sentinel as its record. *)
Lemma unfinished_activity_record (n : nat) (st st0 st1 : Simulator op) sim_time seed pi ai :
  simulate_setup plan st sim_time seed = Ok st0 ->
  steps plan n st0 = Some st1 ->
  In (pi, ai) (earliest_start plan) ->
  fetch_latest_entry (logger st1) pi ai END = None ->
  dict_get (resource_usage st1) (pi, ai) = Some (sentinel pi ai).
Proof.
  intros H0 Hn Hin Hend.
  assert (I : records_invariant plan st1)
    by (eapply records_invariant_steps; [eapply records_invariant_setup|]; eauto).
  destruct I as [_ I]. destruct (I pi ai Hin) as [H|H]; [exact H|].
  now apply not_ended_fetch in Hend.
Qed.

(** C10.  When the run has reached its horizon after [n] events, every
    planned activity that did not complete has the sentinel as its row of the
    table: Needs is infinite, resources is the marker string, and the four
    timestamps are infinite.  "Did not complete" is taken in either of two
    ways: no END of the activity is in the log, or none of the [n] events ran
    a process of the activity to its end; an activity never dispatched, one
    rejected, and one still waiting, running or releasing at the horizon
    satisfy the second. *)
Theorem unfinished_activity_row_is_sentinel (n : nat) (st st0 st1 st' : Simulator op)
  (sim_time seed : Z) (pi ai : nat)
  (Hsetup : simulate_setup plan st sim_time seed = Ok st0)
  (Hsteps : steps plan n st0 = Some st1)
  (Hstop : step plan st1 = StopSimulation st')
  (Hplanned : In (pi, ai) (earliest_start plan))
  (Hnot : fetch_latest_entry (logger st') pi ai END = None
          \/ never_completed plan st0 n (pi, ai)) :
  exists row,
    dict_get (resource_usage st') (pi, ai) = Some row
    /\ In row (table st')
    /\ ProductIndex row = pi /\ ActivityId row = ai
    /\ Needs row = NeedsInf
    /\ Resources row = Marker "NOT PROCESSED DUE TO CLASH"
    /\ Request row = Inf /\ Retrieve row = Inf /\ Start row = Inf /\ Finish row = Inf.
Proof.
  destruct (step_StopSimulation _ _ Hstop) as (Hl & Hu & _).
  assert (H : dict_get (resource_usage st1) (pi, ai) = Some (sentinel pi ai)).
  { destruct Hnot as [Hend|Hnever].
    - rewrite Hl in Hend.
      exact (unfinished_activity_record n st st0 st1 sim_time seed pi ai
               Hsetup Hsteps Hplanned Hend).
    - rewrite (usage_steps plan n (pi, ai) st0 st1 Hsteps Hnever).
      exact (setup_sentinel st st0 sim_time seed pi ai Hsetup Hplanned). }
  exists (sentinel pi ai). rewrite Hu. split; [exact H|].
  split; [unfold table; rewrite Hu; eapply dict_get_In; eauto|].
  repeat split.
Qed.

End Sentinel.

(** In the run of [plan_two_products] the second product's activity is
    never dispatched: none of the ten events before the horizon completes
    it, and no END of it is logged. *)
Lemma unfinished_activity_row_is_sentinel_witness :
  exists row,
    dict_get (resource_usage st_end_two_products) (1%nat, 0%nat) = Some row
    /\ In row (table st_end_two_products)
    /\ ProductIndex row = 1%nat /\ ActivityId row = 0%nat
    /\ Needs row = NeedsInf
    /\ Resources row = Marker "NOT PROCESSED DUE TO CLASH"
    /\ Request row = Inf /\ Retrieve row = Inf /\ Start row = Inf /\ Finish row = Inf.
Proof.
  apply (unfinished_activity_row_is_sentinel plan_two_products events_two_products
           (new_simulator (script decisions_two_products))
           st0_two_products
           (after_events plan_two_products events_two_products
              (script decisions_two_products) 20)
           st_end_two_products 20 1 1 0).
  - vm_compute. reflexivity.
  - vm_compute. reflexivity.
  - vm_compute. reflexivity.
  - right. left. reflexivity.
  - left. vm_compute. reflexivity.
Defined.


(** ** The capacity invariant *)

Arguments count_group : simpl never.

Lemma count_group_app (name : string) (l l' : list Machine) :
  count_group name (l ++ l') = (count_group name l + count_group name l')%nat.
Proof. unfold count_group. now rewrite filter_app, length_app. Qed.

Lemma count_group_cons (name : string) (m : Machine) (l : list Machine) :
  count_group name (m :: l) = (count_group name [m] + count_group name l)%nat.
Proof. apply (count_group_app name [m] l). Qed.

Lemma sum_of_app {A : Type} (f : A -> nat) (l l' : list A) :
  sum_of f (l ++ l') = (sum_of f l + sum_of f l')%nat.
Proof. induction l as [|x l IH]; simpl; [reflexivity|]. rewrite IH. lia. Qed.

Lemma sum_of_heappush (f : Scheduled -> nat) (x : Scheduled) (q : list Scheduled) :
  sum_of f (heappush x q) = (f x + sum_of f q)%nat.
Proof.
  induction q as [|y q IH]; simpl; [reflexivity|].
  destruct (key_ltb x y); simpl; [reflexivity|]. rewrite IH. lia.
Qed.

Lemma existsb_heappush (f : Scheduled -> bool) (x : Scheduled) (q : list Scheduled) :
  existsb f (heappush x q) = f x || existsb f q.
Proof.
  induction q as [|y q IH]; simpl; [reflexivity|].
  destruct (key_ltb x y); simpl; [reflexivity|]. rewrite IH.
  destruct (f x), (f y); reflexivity.
Qed.

Lemma take_item_count (name group : string) (l l' : list Machine) (item : Machine) :
  take_item group l = Some (item, l') ->
  count_group name l = (count_group name [item] + count_group name l')%nat.
Proof.
  revert l'. induction l as [|m l IH]; intros l'; simpl; [discriminate|].
  destruct (String.eqb (resource_group m) group).
  - intros H. injection H as <- <-. apply count_group_cons.
  - destruct (take_item group l) as [[x rest']|]; [|discriminate].
    intros H. injection H as <- <-.
    rewrite (count_group_cons name m l), (count_group_cons name m rest'), (IH rest' eq_refl).
    lia.
Qed.

Section Capacity.
Context {op : Operator}.

Variable plan : ProductionPlan.
Variable name : string.

Lemma accounted_schedule (st : Simulator op) c ev prio dl :
  accounted name c st ->
  accounted name (c + held_by_event name ev) (schedule st ev prio dl).
Proof.
  unfold accounted, failure_pending, held. cbn.
  rewrite existsb_heappush, sum_of_heappush. cbn.
  intros [H|H]; [left; rewrite H; apply orb_true_r | right; lia].
Qed.

Lemma accounted_schedule0 (st : Simulator op) c ev prio dl :
  held_by_event name ev = 0%nat ->
  accounted name c st -> accounted name c (schedule st ev prio dl).
Proof.
  intros E H. apply (accounted_schedule st c ev prio dl) in H.
  now rewrite E, Nat.add_0_r in H.
Qed.

Lemma accounted_process_raise (st : Simulator op) c e :
  accounted name c (process_raise st e).
Proof.
  left. unfold failure_pending, process_raise. cbn. now rewrite existsb_heappush.
Qed.

Lemma accounted_process_return (st : Simulator op) c :
  accounted name c st -> accounted name c (process_return st).
Proof. now apply accounted_schedule0. Qed.

Lemma accounted_eq (st st' : Simulator op) c d :
  failure_pending st' = failure_pending st ->
  (count_group name (items (factory st')) + held name st'
   = count_group name (items (factory st)) + held name st + d)%nat ->
  accounted name c st -> accounted name (c + d) st'.
Proof.
  intros Hf Ht [H|H]; [left; congruence | right; lia].
Qed.

(** [trigger_get_loop] moves machines from the store to succeeded gets. *)
Lemma trigger_get_loop_total (pending : list Acquiring) :
  forall st : Simulator op,
    (count_group name (items (factory (fst (trigger_get_loop pending st))))
     + sum_of (fun s => held_by_event name (event s))
              (queue (env (fst (trigger_get_loop pending st))))
     + sum_of (fun w => count_group name (acq_resources w))
              (snd (trigger_get_loop pending st))
     = count_group name (items (factory st))
       + sum_of (fun s => held_by_event name (event s)) (queue (env st))
       + sum_of (fun w => count_group name (acq_resources w)) pending)%nat
    /\ failure_pending (fst (trigger_get_loop pending st)) = failure_pending st.
Proof.
  induction pending as [|w rest IH]; intros st; simpl; [now split|].
  destruct (take_item _ _) as [[item items']|] eqn:E.
  - destruct (IH (schedule (set_items st items') (StoreGet item w) NORMAL 0)) as [H1 H2].
    rewrite H1, H2. unfold failure_pending. cbn.
    rewrite existsb_heappush, sum_of_heappush. cbn.
    rewrite (take_item_count name _ _ _ _ E), count_group_app. split; [lia|reflexivity].
  - destruct (IH st) as [H1 H2].
    destruct (trigger_get_loop rest st) as [st' still]. cbn in *. split; [lia|exact H2].
Qed.

Lemma trigger_get_total (st : Simulator op) :
  (count_group name (items (factory (_trigger_get st))) + held name (_trigger_get st)
   = count_group name (items (factory st)) + held name st)%nat
  /\ failure_pending (_trigger_get st) = failure_pending st.
Proof.
  unfold _trigger_get.
  destruct (trigger_get_loop_total (get_queue (factory st)) st) as [H1 H2].
  destruct (trigger_get_loop_frame (get_queue (factory st)) st) as (_ & _ & _ & _ & Hp & _).
  destruct (trigger_get_loop _ _) as [st' still]. cbn in *.
  unfold held, failure_pending in *. cbn. rewrite Hp. split; [lia|exact H2].
Qed.

Lemma trigger_put_total (st : Simulator op) :
  (count_group name (items (factory (_trigger_put st))) + held name (_trigger_put st)
   = count_group name (items (factory st)) + held name st)%nat
  /\ failure_pending (_trigger_put st) = failure_pending st.
Proof.
  unfold _trigger_put. destruct (put_queue (factory st)) as [|[item w] rest] eqn:E;
    [now split|].
  destruct (_ <? _); [|now split].
  unfold held, failure_pending. cbn. rewrite E.
  rewrite existsb_heappush, sum_of_heappush. cbn.
  rewrite count_group_app, (count_group_cons name item (rel_rest w)).
  split; [lia|reflexivity].
Qed.

Lemma accounted_trigger_get (st : Simulator op) c :
  accounted name c st -> accounted name c (_trigger_get st).
Proof.
  intros H. destruct (trigger_get_total st) as [H1 H2].
  rewrite <- (Nat.add_0_r c). eapply accounted_eq; eauto. lia.
Qed.

Lemma accounted_trigger_put (st : Simulator op) c :
  accounted name c st -> accounted name c (_trigger_put st).
Proof.
  intros H. destruct (trigger_put_total st) as [H1 H2].
  rewrite <- (Nat.add_0_r c). eapply accounted_eq; eauto. lia.
Qed.

Lemma accounted_factory_get (st : Simulator op) c w :
  accounted name c st ->
  accounted name (c + count_group name (acq_resources w)) (factory_get st w).
Proof.
  intros H. unfold factory_get. apply accounted_trigger_get.
  eapply accounted_eq; [| |exact H]; [reflexivity|].
  unfold held. cbn. rewrite sum_of_app. cbn. lia.
Qed.

Lemma accounted_factory_put (st : Simulator op) c item w :
  accounted name c st ->
  accounted name (c + count_group name (item :: rel_rest w)) (factory_put st item w).
Proof.
  intros H. unfold factory_put. apply accounted_trigger_put.
  eapply accounted_eq; [| |exact H]; [reflexivity|].
  unfold held. cbn. rewrite sum_of_app. cbn. lia.
Qed.

Lemma accounted_same (st st' : Simulator op) c :
  env st' = env st -> factory st' = factory st ->
  accounted name c st -> accounted name c st'.
Proof.
  intros He Hf. unfold accounted, failure_pending, held. now rewrite He, Hf.
Qed.

Lemma accounted_start_processing (st : Simulator op) c a rt rs :
  accounted name c st ->
  accounted name (c + count_group name rs) (start_processing plan st a rt rs).
Proof.
  intros H. unfold start_processing.
  destruct (nth_error _ _); [|apply accounted_process_raise].
  destruct (_ <? _); [apply accounted_process_raise|].
  match goal with
  | |- accounted _ _ (schedule ?s ?ev _ _) => apply (accounted_schedule s c ev)
  end.
  eapply accounted_same; [| |exact H]; reflexivity.
Qed.

Lemma accounted_acquire_loop (a : ActivityArgs) rt rs rest :
  forall (st : Simulator op) c r,
    accounted name c st ->
    accounted name (c + count_group name rs) (acquire_loop plan st a rt rs r rest).
Proof.
  induction rest as [|need rest IH]; intros st c r H; simpl.
  - now apply accounted_start_processing.
  - destruct (0 <? need); [|now apply IH].
    destruct (nth_error _ _); [|apply accounted_process_raise].
    now apply (accounted_factory_get st c
                 {| acq_args := a; acq_request_time := rt; acq_resources := rs;
                    acq_group := s; acq_remaining := Z.to_nat need - 1;
                    acq_r := S r; acq_rest := rest |}).
Qed.

Lemma accounted_resume_acquiring (st : Simulator op) c w item :
  accounted name c st ->
  accounted name (c + count_group name (acq_resources w ++ [item]))
            (resume_acquiring plan st w item).
Proof.
  intros H. unfold resume_acquiring. destruct (acq_remaining w) as [|m].
  - now apply accounted_acquire_loop.
  - now apply (accounted_factory_get st c
                 {| acq_args := acq_args w; acq_request_time := acq_request_time w;
                    acq_resources := acq_resources w ++ [item];
                    acq_group := acq_group w; acq_remaining := m;
                    acq_r := acq_r w; acq_rest := acq_rest w |}).
Qed.

Lemma accounted_release_loop (st : Simulator op) c p t rest :
  accounted name c st ->
  accounted name (c + count_group name rest) (release_loop st p t rest).
Proof.
  intros H. unfold release_loop. destruct rest as [|m rest].
  - rewrite Nat.add_0_r. apply accounted_process_return.
    eapply accounted_same; [| |exact H]; reflexivity.
  - now apply (accounted_factory_put st c m
                 {| rel_frame := p; end_time := t; rel_rest := rest |}).
Qed.

Lemma accounted_finish_processing (st : Simulator op) c p :
  accounted name c st ->
  accounted name (c + count_group name (resources p)) (finish_processing plan st p).
Proof.
  intros H. unfold finish_processing.
  destruct (nth_error _ _); [|apply accounted_process_raise].
  apply accounted_release_loop. eapply accounted_same; [| |exact H]; reflexivity.
Qed.

Lemma accounted_activity_processing (st : Simulator op) c a :
  accounted name c st -> accounted name c (activity_processing plan st a).
Proof.
  intros H. unfold activity_processing.
  pose proof (constraint_check_frame plan st a) as F.
  destruct (constraint_check plan st a) as [[code|e] st1]; cbn in F;
    [|apply accounted_process_raise].
  destruct F as (He & Hf & _).
  destruct code as [c0|].
  - unfold reject. apply accounted_process_return.
    eapply accounted_same; [| |exact H]; cbn; assumption.
  - rewrite <- (Nat.add_0_r c).
    apply (accounted_acquire_loop a (now (env st)) [] (needs a)).
    eapply accounted_same; [| |exact H]; cbn; assumption.
Qed.

Lemma accounted_activity_generator (st : Simulator op) c fin :
  accounted name c st -> accounted name c (activity_generator st fin).
Proof.
  intros H. unfold activity_generator.
  destruct fin; [now apply accounted_process_return|].
  destruct (send_next_activity op _ _) as [d o].
  destruct (_ <? _); [apply accounted_process_raise|].
  apply accounted_schedule0; [reflexivity|].
  destruct (send_activity d).
  - apply accounted_schedule0; [reflexivity|].
    eapply accounted_same; [| |exact H]; reflexivity.
  - eapply accounted_same; [| |exact H]; reflexivity.
Qed.

(** From the state an event was popped from to the state its callbacks
    leave, given what the callbacks do to the state after the pop. *)
Lemma accounted_lift (st : Simulator op) (s : Scheduled) (q : list Scheduled)
  (st' : Simulator op) (c : nat) :
  queue (env st) = s :: q -> is_failure (event s) = false ->
  (forall k, accounted name k
               (set_env st {| now := at_time s; queue := q; eid := eid (env st) |}) ->
             accounted name (k + held_by_event name (event s)) st') ->
  accounted name c st -> accounted name c st'.
Proof.
  intros E Hs Hf [H|H].
  - assert (F : forall k, accounted name k
                   (set_env st {| now := at_time s; queue := q; eid := eid (env st) |})).
    { intros k. left. unfold failure_pending in *. cbn. rewrite E in H. cbn in H.
      now rewrite Hs in H. }
    destruct (Hf 0%nat (F 0%nat)) as [H0|H0]; [now left|].
    destruct (Hf 1%nat (F 1%nat)) as [H1|H1]; [now left|]. lia.
  - assert (T : accounted name (c - held_by_event name (event s))
                  (set_env st {| now := at_time s; queue := q; eid := eid (env st) |})
                /\ (held_by_event name (event s) <= c)%nat).
    { unfold accounted, held in *. cbn. rewrite E in H. cbn in H. split; [right|]; lia. }
    destruct T as [T Hle]. apply Hf in T.
    now replace (c - held_by_event name (event s) + held_by_event name (event s))%nat
      with c in T by lia.
Qed.

Lemma accounted_step (st st' : Simulator op) c :
  accounted name c st -> step plan st = Continue st' -> accounted name c st'.
Proof.
  intros H. unfold step. destruct (queue (env st)) as [|s q] eqn:E; [discriminate|].
  destruct (event s) as [|a|fin|p|item w|w|[e|]|] eqn:Ev; intros Hs;
    try discriminate Hs; apply Continue_inj in Hs; rewrite <- Hs; clear Hs st';
    (eapply accounted_lift; [exact E | now rewrite Ev | | exact H]);
    rewrite Ev; intros k Hk.
  - rewrite Nat.add_0_r. now apply accounted_activity_generator.
  - rewrite Nat.add_0_r. now apply accounted_activity_processing.
  - rewrite Nat.add_0_r. now apply accounted_activity_generator.
  - now apply accounted_finish_processing.
  - apply accounted_resume_acquiring. now apply accounted_trigger_put.
  - apply accounted_release_loop. now apply accounted_trigger_get.
  - now rewrite Nat.add_0_r.
Qed.

Lemma accounted_steps (n : nat) :
  forall (st st' : Simulator op) c,
    accounted name c st -> steps plan n st = Some st' -> accounted name c st'.
Proof.
  induction n as [|n IH]; intros st st' c H; simpl.
  - intros E. injection E as <-. exact H.
  - destruct (step plan st) as [st1| | |] eqn:E; try discriminate.
    apply IH. eapply accounted_step; eauto.
Qed.

End Capacity.

(** The machines [simulate] creates. *)
Lemma count_group_created (name n : string) (c : nat) :
  forall k,
    count_group name
      (map (fun j => {| resource_group := n; machine_id := j |}) (List.seq k c))
    = if String.eqb n name then c else 0%nat.
Proof.
  unfold count_group. induction c as [|c IH]; intros k; simpl.
  - now destruct (String.eqb n name).
  - specialize (IH (S k)). destruct (String.eqb n name); simpl; now rewrite IH.
Qed.

Lemma create_resources_count (name : string) (capacity : list nat) (names : list string) :
  forall r acc items_,
    create_resources capacity names r acc = Ok items_ ->
    count_group name items_
    = (count_group name acc + group_capacity name capacity names r)%nat.
Proof.
  induction names as [|n names IH]; intros r acc items_; simpl.
  - intros H. injection H as <-. lia.
  - destruct (nth_error capacity r) as [c|] eqn:E; [|discriminate].
    intros H. apply IH in H. rewrite H, count_group_app, count_group_created.
    rewrite (nth_error_nth _ _ _ E). lia.
Qed.



Lemma held_schedule {op : Operator} (name : string) (st : Simulator op) ev prio dl :
  held name (schedule st ev prio dl) = (held_by_event name ev + held name st)%nat.
Proof. unfold held. cbn. rewrite sum_of_heappush. cbn. lia. Qed.





(** After four events of that run one machine is in the store and one is
    held by the running first activity. *)
Example capacity_mid_run :
  count_group "A" (items (factory st_min_lag)) = 1%nat
  /\ held "A" st_min_lag = 1%nat
  /\ failure_pending st_min_lag = false.
Proof. vm_compute. repeat split; reflexivity. Qed.

(** ** Determinism *)

Section TwoOperators.
Context {op1 op2 : Operator}.
Variable plan : ProductionPlan.

Ltac same_intro st1 st2 H :=
  destruct st1, st2; unfold same_engine in H; cbn in H;
  destruct H as (? & ? & ? & ? & ? & ?); subst.

Lemma same_engine_schedule (st1 : Simulator op1) (st2 : Simulator op2) ev prio dl :
  same_engine st1 st2 -> same_engine (schedule st1 ev prio dl) (schedule st2 ev prio dl).
Proof. intros H. same_intro st1 st2 H. repeat split. Qed.

Lemma same_engine_set_logger (st1 : Simulator op1) (st2 : Simulator op2) lg :
  same_engine st1 st2 -> same_engine (set_logger st1 lg) (set_logger st2 lg).
Proof. intros H. same_intro st1 st2 H. repeat split. Qed.

Lemma same_engine_set_items (st1 : Simulator op1) (st2 : Simulator op2) l :
  same_engine st1 st2 -> same_engine (set_items st1 l) (set_items st2 l).
Proof. intros H. same_intro st1 st2 H. repeat split. Qed.

Lemma same_engine_set_get_queue (st1 : Simulator op1) (st2 : Simulator op2) q :
  same_engine st1 st2 -> same_engine (set_get_queue st1 q) (set_get_queue st2 q).
Proof. intros H. same_intro st1 st2 H. repeat split. Qed.

Lemma same_engine_set_put_queue (st1 : Simulator op1) (st2 : Simulator op2) q :
  same_engine st1 st2 -> same_engine (set_put_queue st1 q) (set_put_queue st2 q).
Proof. intros H. same_intro st1 st2 H. repeat split. Qed.

Lemma same_engine_set_resource_usage (st1 : Simulator op1) (st2 : Simulator op2) u :
  same_engine st1 st2 -> same_engine (set_resource_usage st1 u) (set_resource_usage st2 u).
Proof. intros H. same_intro st1 st2 H. repeat split. Qed.

Lemma same_engine_set_env (st1 : Simulator op1) (st2 : Simulator op2) e :
  same_engine st1 st2 -> same_engine (set_env st1 e) (set_env st2 e).
Proof. intros H. same_intro st1 st2 H. repeat split. Qed.

Lemma same_engine_set_operator (st1 : Simulator op1) (st2 : Simulator op2) o1 o2 :
  same_engine st1 st2 -> same_engine (set_operator st1 o1) (set_operator st2 o2).
Proof. intros H. same_intro st1 st2 H. repeat split. Qed.

Lemma same_engine_set_nr_clashes (st1 : Simulator op1) (st2 : Simulator op2) n :
  same_engine st1 st2 -> same_engine (set_nr_clashes st1 n) (set_nr_clashes st2 n).
Proof. intros H. same_intro st1 st2 H. repeat split. Qed.

Lemma same_engine_trigger_get_loop (pending : list Acquiring) :
  forall (st1 : Simulator op1) (st2 : Simulator op2),
    same_engine st1 st2 ->
    same_engine (fst (trigger_get_loop pending st1)) (fst (trigger_get_loop pending st2))
    /\ snd (trigger_get_loop pending st1) = snd (trigger_get_loop pending st2).
Proof.
  induction pending as [|w rest IH]; intros st1 st2 H; simpl; [now split|].
  assert (Hf : factory st1 = factory st2) by apply H. rewrite Hf.
  destruct (take_item _ _) as [[item items']|].
  - apply IH. apply same_engine_schedule. now apply same_engine_set_items.
  - destruct (IH st1 st2 H) as [H1 H2].
    destruct (trigger_get_loop rest st1), (trigger_get_loop rest st2). cbn in *.
    split; [exact H1 | now rewrite H2].
Qed.

Lemma same_engine_trigger_get (st1 : Simulator op1) (st2 : Simulator op2) :
  same_engine st1 st2 -> same_engine (_trigger_get st1) (_trigger_get st2).
Proof.
  intros H. unfold _trigger_get.
  assert (Hf : factory st1 = factory st2) by apply H. rewrite Hf.
  destruct (same_engine_trigger_get_loop (get_queue (factory st2)) st1 st2 H) as [H1 H2].
  destruct (trigger_get_loop _ st1), (trigger_get_loop _ st2). cbn in *. subst.
  now apply same_engine_set_get_queue.
Qed.

Lemma same_engine_trigger_put (st1 : Simulator op1) (st2 : Simulator op2) :
  same_engine st1 st2 -> same_engine (_trigger_put st1) (_trigger_put st2).
Proof.
  intros H. unfold _trigger_put.
  assert (Hf : factory st1 = factory st2) by apply H. rewrite Hf.
  destruct (put_queue (factory st2)) as [|[item w] rest]; [exact H|].
  destruct (_ <? _); [|exact H].
  apply same_engine_schedule, same_engine_set_put_queue. now apply same_engine_set_items.
Qed.

Lemma same_engine_factory_get (st1 : Simulator op1) (st2 : Simulator op2) w :
  same_engine st1 st2 -> same_engine (factory_get st1 w) (factory_get st2 w).
Proof.
  intros H. unfold factory_get.
  assert (Hf : factory st1 = factory st2) by apply H. rewrite Hf.
  now apply same_engine_trigger_get, same_engine_set_get_queue.
Qed.

Lemma same_engine_factory_put (st1 : Simulator op1) (st2 : Simulator op2) item w :
  same_engine st1 st2 -> same_engine (factory_put st1 item w) (factory_put st2 item w).
Proof.
  intros H. unfold factory_put.
  assert (Hf : factory st1 = factory st2) by apply H. rewrite Hf.
  now apply same_engine_trigger_put, same_engine_set_put_queue.
Qed.

Lemma same_availability_loop (st1 : Simulator op1) (st2 : Simulator op2) pi ai needs :
  same_engine st1 st2 ->
  forall r fc,
    availability_loop plan st1 pi ai r needs fc
    = availability_loop plan st2 pi ai r needs fc.
Proof.
  intros H. assert (Hf : factory st1 = factory st2) by apply H.
  assert (Hp : printing st1 = printing st2) by apply H.
  induction needs as [|need rest IH]; intros r fc; simpl; [reflexivity|].
  rewrite Hf. destruct (0 <? need); [|apply IH].
  destruct (nth_error _ _); [|reflexivity].
  unfold availability_message. rewrite Hp.
  destruct (printing st2); [|apply IH].
  destruct (nth_error (products plan) pi); [apply IH | reflexivity].
Qed.

Lemma same_precedence_loop prod pi ai preds :
  forall (st1 : Simulator op1) (st2 : Simulator op2),
    same_engine st1 st2 ->
    fst (precedence_loop prod pi ai preds st1) = fst (precedence_loop prod pi ai preds st2)
    /\ same_engine (snd (precedence_loop prod pi ai preds st1))
                   (snd (precedence_loop prod pi ai preds st2)).
Proof.
  induction preds as [|p rest IH]; intros st1 st2 H; simpl; [now split|].
  assert (Hl : logger st1 = logger st2) by apply H.
  assert (He : env st1 = env st2) by apply H.
  rewrite Hl, He.
  destruct (dict_get _ _); [|now split].
  destruct (fetch_latest_entry _ _ _ _); [|now split].
  destruct (_ <? _); [apply IH; now apply same_engine_set_logger|].
  destruct (_ && _); [now split | now apply IH].
Qed.

Lemma same_constraint_check (st1 : Simulator op1) (st2 : Simulator op2) a :
  same_engine st1 st2 ->
  fst (constraint_check plan st1 a) = fst (constraint_check plan st2 a)
  /\ same_engine (snd (constraint_check plan st1 a)) (snd (constraint_check plan st2 a)).
Proof.
  intros H. unfold constraint_check, _availability_constraint_check.
  rewrite (same_availability_loop st1 st2 _ _ (needs a) H).
  destruct (availability_loop plan st2 _ _ 0 (needs a) None) as [[c|]|e]; try now split.
  assert (P : fst (_precedence_constraint_check plan st1 (product_index a) (activity_id a))
              = fst (_precedence_constraint_check plan st2 (product_index a) (activity_id a))
              /\ same_engine
                   (snd (_precedence_constraint_check plan st1 (product_index a)
                           (activity_id a)))
                   (snd (_precedence_constraint_check plan st2 (product_index a)
                           (activity_id a)))).
  { unfold _precedence_constraint_check.
    destruct (nth_error (products plan) _); [|now split].
    destruct (nth_error (predecessors _) _); [|now split].
    now apply same_precedence_loop. }
  destruct (_precedence_constraint_check plan st1 _ _) as [r1 s1],
           (_precedence_constraint_check plan st2 _ _) as [r2 s2].
  cbn in P. destruct P as [-> P].
  destruct r2 as [[c|]|e]; try now split.
  cbn. split; [|exact P].
  unfold _compatibility_constraint_check.
  assert (Hl : logger s1 = logger s2) by apply P. now rewrite Hl.
Qed.

Lemma same_engine_start_processing (st1 : Simulator op1) (st2 : Simulator op2) a rt rs :
  same_engine st1 st2 ->
  same_engine (start_processing plan st1 a rt rs) (start_processing plan st2 a rt rs).
Proof.
  intros H. unfold start_processing, process_raise.
  assert (Hl : logger st1 = logger st2) by apply H.
  assert (He : env st1 = env st2) by apply H.
  rewrite Hl, He.
  destruct (nth_error _ _); [|now apply same_engine_schedule].
  destruct (_ <? _); now apply same_engine_schedule, same_engine_set_logger.
Qed.

Lemma same_engine_acquire_loop a rt rest :
  forall (st1 : Simulator op1) (st2 : Simulator op2) rs r,
    same_engine st1 st2 ->
    same_engine (acquire_loop plan st1 a rt rs r rest) (acquire_loop plan st2 a rt rs r rest).
Proof.
  induction rest as [|need rest IH]; intros st1 st2 rs r H; simpl.
  - now apply same_engine_start_processing.
  - destruct (0 <? need); [|now apply IH].
    destruct (nth_error _ _); [now apply same_engine_factory_get|].
    now apply same_engine_schedule.
Qed.

Lemma same_engine_release_loop (st1 : Simulator op1) (st2 : Simulator op2) p t rest :
  same_engine st1 st2 ->
  same_engine (release_loop st1 p t rest) (release_loop st2 p t rest).
Proof.
  intros H. unfold release_loop. destruct rest as [|m rest].
  - assert (Hu : resource_usage st1 = resource_usage st2) by apply H. rewrite Hu.
    now apply same_engine_schedule, same_engine_set_resource_usage.
  - now apply same_engine_factory_put.
Qed.

Lemma same_engine_finish_processing (st1 : Simulator op1) (st2 : Simulator op2) p :
  same_engine st1 st2 ->
  same_engine (finish_processing plan st1 p) (finish_processing plan st2 p).
Proof.
  intros H. unfold finish_processing.
  assert (Hl : logger st1 = logger st2) by apply H.
  assert (He : env st1 = env st2) by apply H.
  rewrite Hl, He.
  destruct (nth_error _ _); [|now apply same_engine_schedule].
  now apply same_engine_release_loop, same_engine_set_logger.
Qed.

Lemma same_engine_activity_processing (st1 : Simulator op1) (st2 : Simulator op2) a :
  same_engine st1 st2 ->
  same_engine (activity_processing plan st1 a) (activity_processing plan st2 a).
Proof.
  intros H. unfold activity_processing.
  destruct (same_constraint_check st1 st2 a H) as [H1 H2].
  assert (He : env st1 = env st2) by apply H. rewrite He.
  destruct (constraint_check plan st1 a) as [r1 s1],
           (constraint_check plan st2 a) as [r2 s2].
  cbn in H1, H2. subst r2.
  destruct r1 as [code|e]; [|now apply same_engine_schedule].
  assert (Hl : logger s1 = logger s2) by apply H2. rewrite Hl.
  destruct code as [c|].
  - unfold reject. apply same_engine_schedule. cbn.
    assert (Hn : nr_clashes s1 = nr_clashes s2) by apply H2. rewrite Hn.
    now apply same_engine_set_nr_clashes, same_engine_set_operator, same_engine_set_logger.
  - now apply same_engine_acquire_loop, same_engine_set_logger.
Qed.

Lemma same_engine_resume_acquiring (st1 : Simulator op1) (st2 : Simulator op2) w item :
  same_engine st1 st2 ->
  same_engine (resume_acquiring plan st1 w item) (resume_acquiring plan st2 w item).
Proof.
  intros H. unfold resume_acquiring.
  destruct (acq_remaining w);
    [now apply same_engine_acquire_loop | now apply same_engine_factory_get].
Qed.

(** The generator's pass depends on the operator only through the decision
    it returns. *)
Lemma same_engine_activity_generator (st1 : Simulator op1) (st2 : Simulator op2) fin :
  same_engine st1 st2 ->
  (fin = false ->
   fst (send_next_activity op1 (operator st1) (now (env st1)))
   = fst (send_next_activity op2 (operator st2) (now (env st2)))) ->
  same_engine (activity_generator st1 fin) (activity_generator st2 fin).
Proof.
  intros H Hd. unfold activity_generator.
  destruct fin; [now apply same_engine_schedule|].
  specialize (Hd eq_refl).
  destruct (send_next_activity op1 _ _) as [d1 o1],
           (send_next_activity op2 _ _) as [d2 o2].
  cbn in Hd. subst d2.
  assert (H1 : same_engine
                 (if send_activity d1
                  then schedule (set_operator st1 o1)
                         (Initialize_activity
                            {| activity_id := d_activity_id d1;
                               product_index := d_product_index d1;
                               proc_time := d_proc_time d1; needs := d_needs d1 |})
                         URGENT 0
                  else set_operator st1 o1)
                 (if send_activity d1
                  then schedule (set_operator st2 o2)
                         (Initialize_activity
                            {| activity_id := d_activity_id d1;
                               product_index := d_product_index d1;
                               proc_time := d_proc_time d1; needs := d_needs d1 |})
                         URGENT 0
                  else set_operator st2 o2)).
  { destruct (send_activity d1);
      [apply same_engine_schedule|]; now apply same_engine_set_operator. }
  destruct (_ <? _); now apply same_engine_schedule.
Qed.

Lemma same_step (st1 : Simulator op1) (st2 : Simulator op2) :
  same_engine st1 st2 -> asked st1 = asked st2 ->
  same_step_result (step plan st1) (step plan st2).
Proof.
  intros H. unfold asked, step.
  assert (He : env st1 = env st2) by apply H. rewrite He.
  destruct (queue (env st2)) as [|s q]; [intros _; exact H|].
  assert (P : same_engine
                (set_env st1 {| now := at_time s; queue := q; eid := eid (env st2) |})
                (set_env st2 {| now := at_time s; queue := q; eid := eid (env st2) |}))
    by now apply same_engine_set_env.
  destruct (event s) as [|a|fin|p|item w|w|[e|]|]; intros Hd; cbn [same_step_result].
  - apply same_engine_activity_generator; [exact P|]. intros _. cbn. congruence.
  - now apply same_engine_activity_processing.
  - apply same_engine_activity_generator; [exact P|]. intros ->. cbn. congruence.
  - now apply same_engine_finish_processing.
  - now apply same_engine_resume_acquiring, same_engine_trigger_put.
  - now apply same_engine_release_loop, same_engine_trigger_get.
  - now split.
  - exact P.
  - exact P.
Qed.

Lemma asked_same_shape (st1 : Simulator op1) (st2 : Simulator op2) :
  same_engine st1 st2 ->
  (asked st1 = None /\ asked st2 = None)
  \/ (exists d1 d2, asked st1 = Some d1 /\ asked st2 = Some d2).
Proof.
  intros H. unfold asked.
  assert (He : env st1 = env st2) by apply H. rewrite He.
  destruct (queue (env st2)) as [|s q]; [now left|].
  destruct (event s) as [|a|[|]|p|item w|w|e|]; try (now left); right; eauto.
Qed.

Lemma same_run (fuel : nat) :
  forall (st1 : Simulator op1) (st2 : Simulator op2),
    same_engine st1 st2 ->
    decisions plan fuel st1 = decisions plan fuel st2 ->
    same_run_result (run plan fuel st1) (run plan fuel st2).
Proof.
  induction fuel as [|fuel IH]; intros st1 st2 H Hd; simpl; [exact H|].
  simpl in Hd.
  assert (Ha : asked st1 = asked st2
               /\ match step plan st1 with
                  | Continue st' => decisions plan fuel st'
                  | _ => []
                  end
                  = match step plan st2 with
                    | Continue st' => decisions plan fuel st'
                    | _ => []
                    end).
  { destruct (asked_same_shape st1 st2 H) as [[E1 E2]|(d1 & d2 & E1 & E2)];
      rewrite E1, E2 in *.
    - split; [reflexivity | exact Hd].
    - simpl in Hd. injection Hd as -> Hd. now split. }
  destruct Ha as [Ha Hrest].
  pose proof (same_step st1 st2 H Ha) as S.
  destruct (step plan st1) as [a|a|e a|a], (step plan st2) as [b|b|e' b|b];
    cbn in S; try contradiction.
  - now apply IH.
  - exact S.
  - exact S.
  - split; [reflexivity | exact S].
Qed.

Lemma same_setup (st1 : Simulator op1) (st2 : Simulator op2) sim_time seed1 seed2 :
  same_engine st1 st2 ->
  match simulate_setup plan st1 sim_time seed1, simulate_setup plan st2 sim_time seed2 with
  | Ok a, Ok b => same_engine a b
  | Raise e, Raise e' => e = e'
  | _, _ => False
  end.
Proof.
  intros H. unfold simulate_setup.
  destruct (_ <=? 0); [reflexivity|].
  destruct (create_resources _ _ _ _) as [items_|e]; [|reflexivity].
  cbn. destruct (sim_time <=? 0); [reflexivity|].
  assert (Hu : resource_usage st1 = resource_usage st2) by apply H.
  same_intro st1 st2 H. repeat split.
Qed.

End TwoOperators.

(** The outcome of [simulate] depends on the operator only through the
    decisions it returns: two calls in which the operator returns the same
    decisions, whatever operator, operator state and seed produce them, end
    in the same way, and when they return they return the same table and the
    same triple. *)
Lemma simulate_same_decisions {op1 op2 : Operator} (plan : ProductionPlan) (fuel : nat)
  (o1 : OpState op1) (o2 : OpState op2) (sim_time seed1 seed2 : Z)
  (Hdecisions :
     simulate_decisions plan fuel (new_simulator o1) sim_time seed1
     = simulate_decisions plan fuel (new_simulator o2) sim_time seed2) :
  simulate plan fuel (new_simulator o1) sim_time seed1
  = simulate plan fuel (new_simulator o2) sim_time seed2.
Proof.
  unfold simulate, simulate_decisions in *.
  assert (H0 : same_engine (new_simulator o1) (new_simulator o2)) by (repeat split).
  pose proof (same_setup plan _ _ sim_time seed1 seed2 H0) as S.
  destruct (simulate_setup plan (new_simulator o1) sim_time seed1) as [a|e],
           (simulate_setup plan (new_simulator o2) sim_time seed2) as [b|e'];
    try contradiction; [|now subst].
  pose proof (same_run plan fuel a b S Hdecisions) as R.
  destruct (run plan fuel a) as [a'|e a'|a'], (run plan fuel b) as [b'|e' b'|b'];
    cbn in R; try contradiction.
  - assert (Hu : table a' = table b').
    { unfold table. destruct R as (_ & _ & -> & _). reflexivity. }
    now rewrite Hu.
  - destruct R as [-> _]. reflexivity.
  - reflexivity.
Qed.

(** ** Termination of the event loop *)

Lemma key_ltb_spec (a b : Scheduled) :
  key_ltb a b = true <->
  at_time a < at_time b
  \/ (at_time a = at_time b
      /\ ((priority a < priority b)%nat
          \/ (priority a = priority b /\ (seq a < seq b)%nat))).
Proof.
  unfold key_ltb.
  rewrite orb_true_iff, andb_true_iff, orb_true_iff, andb_true_iff.
  rewrite Z.ltb_lt, Z.eqb_eq, !Nat.ltb_lt, Nat.eqb_eq. tauto.
Qed.

Lemma key_leb_spec (a b : Scheduled) :
  key_leb a b = true <->
  at_time a < at_time b
  \/ (at_time a = at_time b
      /\ ((priority a < priority b)%nat
          \/ (priority a = priority b /\ (seq a <= seq b)%nat))).
Proof.
  unfold key_leb. rewrite negb_true_iff.
  destruct (key_ltb b a) eqn:E.
  - apply key_ltb_spec in E. split; [discriminate|]. lia.
  - split; [intros _|reflexivity].
    assert (N : ~ (at_time b < at_time a
                   \/ (at_time b = at_time a
                       /\ ((priority b < priority a)%nat
                           \/ (priority b = priority a /\ (seq b < seq a)%nat))))).
    { intros H. apply key_ltb_spec in H. congruence. }
    lia.
Qed.

Lemma key_leb_trans (a b c : Scheduled) :
  key_leb a b = true -> key_leb b c = true -> key_leb a c = true.
Proof. rewrite !key_leb_spec. lia. Qed.

Lemma key_ltb_leb (a b : Scheduled) : key_ltb a b = true -> key_leb a b = true.
Proof. rewrite key_ltb_spec, key_leb_spec. lia. Qed.

Lemma key_ltb_false_leb (a b : Scheduled) : key_ltb a b = false -> key_leb b a = true.
Proof. unfold key_leb. now intros ->. Qed.

Lemma heappush_sorted (x : Scheduled) (q : list Scheduled) :
  sorted_queue q -> sorted_queue (heappush x q).
Proof.
  unfold sorted_queue. induction q as [|y q IH]; intros H; simpl.
  - constructor; constructor.
  - apply StronglySorted_inv in H. destruct H as [Hq Hy].
    destruct (key_ltb x y) eqn:E.
    + constructor; [constructor; assumption|].
      constructor; [now apply key_ltb_leb|].
      rewrite Forall_forall in *. intros z Hz.
      eapply key_leb_trans; [apply key_ltb_leb; exact E | now apply Hy].
    + constructor; [now apply IH|].
      rewrite Forall_forall in *. intros z Hz. apply In_heappush in Hz.
      destruct Hz as [->|Hz]; [now apply key_ltb_false_leb | now apply Hy].
Qed.

Lemma queue_ok_heappush (sim_time : Z) (x : Scheduled) (q : list Scheduled) :
  queue_ok sim_time q ->
  (forall fin, event x = Timeout_generator fin -> priority x = NORMAL) ->
  queue_ok sim_time (heappush x q).
Proof.
  intros (Hs & (u & Hu & Hev) & Hp) Hx. split; [now apply heappush_sorted|]. split.
  - exists u. split; [apply In_heappush; now right | exact Hev].
  - intros s fin Hin Hs'. apply In_heappush in Hin. destruct Hin as [->|Hin]; eauto.
Qed.

Lemma queue_ok_tail (sim_time : Z) (s : Scheduled) (q : list Scheduled) :
  queue_ok sim_time (s :: q) -> event s <> Until -> queue_ok sim_time q.
Proof.
  intros (Hs & (u & Hu & Hev) & Hp) Hne. split; [|split].
  - apply StronglySorted_inv in Hs. apply Hs.
  - exists u. split; [|exact Hev]. destruct Hu as [->|Hu]; [|exact Hu].
    destruct Hev as [Hev _]. contradiction.
  - intros s' fin Hin. apply Hp. now right.
Qed.

(** A normal-priority event at the head of the queue lies before the
    horizon. *)
Lemma queue_ok_head_time (sim_time : Z) (s : Scheduled) (q : list Scheduled) :
  queue_ok sim_time (s :: q) -> priority s = NORMAL -> at_time s < sim_time.
Proof.
  intros (Hs & (u & Hu & Hev & Ht & Hp) & _) Hn.
  destruct Hu as [->|Hu].
  - rewrite Hp in Hn. discriminate.
  - apply StronglySorted_inv in Hs. destruct Hs as [_ Hs].
    rewrite Forall_forall in Hs. specialize (Hs u Hu).
    apply key_leb_spec in Hs. rewrite Hp, Hn, Ht in Hs. unfold URGENT, NORMAL in Hs. lia.
Qed.

Section Termination.
Context {op : Operator}.
Variable plan : ProductionPlan.
Variable sim_time : Z.

Lemma plain_generator_weight (ev : Event) (prio : nat) (t : Z) (n : nat) :
  plain ev prio ->
  generator_weight sim_time {| at_time := t; priority := prio; seq := n; event := ev |}
  = 0%nat.
Proof.
  unfold generator_weight. cbn.
  destruct ev as [|a|[|]|p|item w|w|e|]; cbn; tauto.
Qed.

Lemma bounded_weaken (st : Simulator op) g w w' :
  (w <= w')%nat -> bounded sim_time g w st -> bounded sim_time g w' st.
Proof. intros Hw (Hq & Hg & Hb). split; [exact Hq|]. split; [exact Hg | lia]. Qed.

Lemma bounded_schedule (st : Simulator op) g w ev prio dl :
  plain ev prio ->
  bounded sim_time g w st ->
  bounded sim_time g (w + weight ev) (schedule st ev prio dl).
Proof.
  intros Hp (Hq & Hg & Hw). unfold bounded, generator_time, total_weight in *. cbn.
  rewrite !sum_of_heappush. cbn [event]. rewrite (plain_generator_weight _ _ _ _ Hp).
  split; [|split; lia].
  apply queue_ok_heappush; [exact Hq|]. cbn. intros fin ->. destruct fin; cbn in Hp; tauto.
Qed.

Lemma bounded_same (st st' : Simulator op) g w :
  env st' = env st -> factory st' = factory st ->
  bounded sim_time g w st -> bounded sim_time g w st'.
Proof.
  intros He Hf. unfold bounded, generator_time, total_weight. now rewrite He, Hf.
Qed.

Lemma bounded_process_raise (st : Simulator op) g w e :
  bounded sim_time g w st -> bounded sim_time g (w + 1) (process_raise st e).
Proof. apply (bounded_schedule st g w (ProcessEvent (Some e))). exact I. Qed.

Lemma bounded_process_return (st : Simulator op) g w :
  bounded sim_time g w st -> bounded sim_time g (w + 1) (process_return st).
Proof. apply (bounded_schedule st g w (ProcessEvent None)). exact I. Qed.

(** [trigger_get_loop] turns waiting gets into events of the same weight. *)
Lemma trigger_get_loop_weight (pending : list Acquiring) :
  forall st : Simulator op,
    queue_ok sim_time (queue (env st)) ->
    queue_ok sim_time (queue (env (fst (trigger_get_loop pending st))))
    /\ generator_time sim_time (fst (trigger_get_loop pending st))
       = generator_time sim_time st
    /\ (sum_of (fun s => weight (event s)) (queue (env (fst (trigger_get_loop pending st))))
        + sum_of acquiring_weight (snd (trigger_get_loop pending st))
        = sum_of (fun s => weight (event s)) (queue (env st))
          + sum_of acquiring_weight pending)%nat.
Proof.
  induction pending as [|w rest IH]; intros st Hq; simpl;
    [split; [exact Hq|]; split; reflexivity|].
  destruct (take_item _ _) as [[item items']|].
  - destruct (IH (schedule (set_items st items') (StoreGet item w) NORMAL 0))
      as (H1 & H2 & H3).
    { cbn. apply queue_ok_heappush; [exact Hq | discriminate]. }
    split; [exact H1|]. rewrite H2, H3. unfold generator_time. cbn.
    rewrite !sum_of_heappush. cbn. split; lia.
  - destruct (IH st Hq) as (H1 & H2 & H3).
    destruct (trigger_get_loop rest st) as [st' still]. cbn in *.
    split; [exact H1|]. split; [exact H2 | lia].
Qed.

Lemma bounded_trigger_get (st : Simulator op) g w :
  bounded sim_time g w st -> bounded sim_time g w (_trigger_get st).
Proof.
  intros (Hq & Hg & Hw). unfold _trigger_get.
  destruct (trigger_get_loop_weight (get_queue (factory st)) st Hq) as (H1 & H2 & H3).
  destruct (trigger_get_loop_frame (get_queue (factory st)) st) as (_ & _ & _ & _ & Hp & _).
  destruct (trigger_get_loop _ _) as [st' still]. cbn in *.
  unfold bounded, generator_time, total_weight in *. cbn. rewrite Hp.
  split; [exact H1|]. split; lia.
Qed.

Lemma bounded_trigger_put (st : Simulator op) g w :
  bounded sim_time g w st -> bounded sim_time g w (_trigger_put st).
Proof.
  intros H. unfold _trigger_put.
  destruct (put_queue (factory st)) as [|[item w0] rest] eqn:E; [exact H|].
  destruct (_ <? _); [|exact H].
  destruct H as (Hq & Hg & Hw). unfold bounded, generator_time, total_weight in *.
  cbn. rewrite E in Hw. cbn in Hw. rewrite !sum_of_heappush. cbn.
  split; [|split; lia]. apply queue_ok_heappush; [exact Hq | discriminate].
Qed.

Lemma bounded_factory_get (st : Simulator op) g w x :
  bounded sim_time g w st ->
  bounded sim_time g (w + acquiring_weight x) (factory_get st x).
Proof.
  intros (Hq & Hg & Hw). apply bounded_trigger_get.
  unfold bounded, generator_time, total_weight in *. cbn.
  rewrite sum_of_app. cbn. split; [exact Hq|]. split; lia.
Qed.

Lemma bounded_factory_put (st : Simulator op) g w item x :
  bounded sim_time g w st ->
  bounded sim_time g (w + releasing_weight x) (factory_put st item x).
Proof.
  intros (Hq & Hg & Hw). apply bounded_trigger_put.
  unfold bounded, generator_time, total_weight in *. cbn.
  rewrite sum_of_app. cbn. split; [exact Hq|]. split; lia.
Qed.

Lemma bounded_start_processing (st : Simulator op) g w a rt rs :
  bounded sim_time g w st ->
  bounded sim_time g (w + (List.length rs + 2)) (start_processing plan st a rt rs).
Proof.
  intros H. unfold start_processing.
  destruct (nth_error _ _).
  - destruct (_ <? _).
    + eapply bounded_weaken;
        [|apply bounded_process_raise; eapply bounded_same; [| |exact H]; reflexivity].
      lia.
    + match goal with
      | |- bounded _ _ _ (schedule ?s ?ev _ _) =>
          apply (bounded_schedule s g w ev); [exact I|]
      end.
      eapply bounded_same; [| |exact H]; reflexivity.
  - eapply bounded_weaken; [|apply bounded_process_raise; exact H]. lia.
Qed.

Lemma bounded_acquire_loop (a : ActivityArgs) rt rs rest :
  forall (st : Simulator op) g w r,
    bounded sim_time g w st ->
    bounded sim_time g (w + events_left (List.length rs) (total_need rest))
            (acquire_loop plan st a rt rs r rest).
Proof.
  unfold events_left, total_need.
  induction rest as [|need rest IH]; intros st g w r H; simpl.
  - eapply bounded_weaken; [|apply bounded_start_processing; exact H]. lia.
  - destruct (Z.ltb_spec 0 need).
    + destruct (nth_error _ _).
      * eapply bounded_weaken; [|apply bounded_factory_get; exact H].
        unfold acquiring_weight, events_left, total_need. cbn. lia.
      * eapply bounded_weaken; [|apply bounded_process_raise; exact H]. lia.
    + eapply bounded_weaken; [|apply IH; exact H]. lia.
Qed.

Lemma bounded_resume_acquiring (st : Simulator op) g w x item :
  bounded sim_time g w st ->
  bounded sim_time g (w + (acquiring_weight x - 1)) (resume_acquiring plan st x item).
Proof.
  intros H. unfold resume_acquiring, acquiring_weight.
  destruct (acq_remaining x) as [|m].
  - eapply bounded_weaken; [|apply bounded_acquire_loop; exact H].
    unfold events_left, total_need. rewrite length_app. cbn. lia.
  - eapply bounded_weaken; [|apply bounded_factory_get; exact H].
    unfold acquiring_weight, events_left, total_need. cbn. rewrite length_app. cbn. lia.
Qed.

Lemma bounded_release_loop (st : Simulator op) g w p t rest :
  bounded sim_time g w st ->
  bounded sim_time g (w + (List.length rest + 1)) (release_loop st p t rest).
Proof.
  intros H. unfold release_loop. destruct rest as [|m rest].
  - apply bounded_process_return. eapply bounded_same; [| |exact H]; reflexivity.
  - eapply bounded_weaken; [|apply bounded_factory_put; exact H].
    unfold releasing_weight. cbn. lia.
Qed.

Lemma bounded_finish_processing (st : Simulator op) g w p :
  bounded sim_time g w st ->
  bounded sim_time g (w + (List.length (resources p) + 1)) (finish_processing plan st p).
Proof.
  intros H. unfold finish_processing. destruct (nth_error _ _).
  - apply bounded_release_loop. eapply bounded_same; [| |exact H]; reflexivity.
  - eapply bounded_weaken; [|apply bounded_process_raise; exact H]. lia.
Qed.

Lemma bounded_activity_processing (st : Simulator op) g w a :
  bounded sim_time g w st ->
  bounded sim_time g (w + events_left 0 (total_need (needs a)))
          (activity_processing plan st a).
Proof.
  intros H. unfold activity_processing.
  pose proof (constraint_check_frame plan st a) as F.
  destruct (constraint_check plan st a) as [[code|e] st1]; cbn in F;
    destruct F as (He & Hf & _).
  - destruct code as [c|].
    + unfold reject. eapply bounded_weaken;
        [|apply bounded_process_return; eapply bounded_same; [| |exact H]; cbn; assumption].
      unfold events_left. lia.
    + apply (bounded_acquire_loop a (now (env st)) [] (needs a)).
      eapply bounded_same; [| |exact H]; cbn; assumption.
  - eapply bounded_weaken;
      [|apply bounded_process_raise; eapply bounded_same; [| |exact H]; assumption].
    unfold events_left. lia.
Qed.

(** One pass of the dispatch generator leaves at most one timeout of the
    generator behind, and that one strictly later. *)
Lemma generator_pass (st : Simulator op) :
  delays_nonzero op ->
  queue_ok sim_time (queue (env st)) ->
  queue_ok sim_time (queue (env (activity_generator st false)))
  /\ (generator_time sim_time (activity_generator st false)
      <= generator_time sim_time st + Z.to_nat (sim_time - now (env st) - 1) + 1)%nat.
Proof.
  intros Hd Hq. unfold activity_generator. specialize (Hd (operator st) (now (env st))).
  destruct (send_next_activity op (operator st) (now (env st))) as [d o]. cbn in Hd.
  set (st2 := if send_activity d
              then schedule (set_operator st o)
                     (Initialize_activity
                        {| activity_id := d_activity_id d;
                           product_index := d_product_index d;
                           proc_time := d_proc_time d; needs := d_needs d |})
                     URGENT 0
              else set_operator st o).
  assert (H2 : queue_ok sim_time (queue (env st2))
               /\ generator_time sim_time st2 = generator_time sim_time st
               /\ now (env st2) = now (env st)).
  { unfold st2. destruct (send_activity d); [|split; [exact Hq|]; split; reflexivity].
    unfold generator_time. cbn. rewrite sum_of_heappush. cbn.
    split; [|now split]. apply queue_ok_heappush; [exact Hq | discriminate]. }
  destruct H2 as (Hq2 & Hg2 & Hn2).
  destruct (Z.ltb_spec (delay d) 0).
  - unfold generator_time in *. cbn. rewrite sum_of_heappush. cbn.
    split; [|lia]. apply queue_ok_heappush; [exact Hq2 | discriminate].
  - unfold generator_time in *. cbn. rewrite sum_of_heappush. cbn.
    split.
    + apply queue_ok_heappush; [exact Hq2|]. cbn. reflexivity.
    + rewrite Hg2, Hn2. unfold generator_weight. cbn. destruct (finish d); lia.
Qed.

Lemma pop_measures (st : Simulator op) (s : Scheduled) (q : list Scheduled) :
  queue (env st) = s :: q ->
  generator_time sim_time st
  = (generator_weight sim_time s
     + generator_time sim_time
         (set_env st {| now := at_time s; queue := q; eid := eid (env st) |}))%nat
  /\ total_weight st
     = (weight (event s)
        + total_weight
            (set_env st {| now := at_time s; queue := q; eid := eid (env st) |}))%nat.
Proof.
  intros E. unfold generator_time, total_weight. cbn. rewrite E. cbn. split; lia.
Qed.

(** Every event makes the pair of the generator's time and the total weight
    smaller in the lexicographic order. *)
Lemma step_decreases (st st' : Simulator op) :
  delays_nonzero op ->
  queue_ok sim_time (queue (env st)) ->
  step plan st = Continue st' ->
  queue_ok sim_time (queue (env st'))
  /\ ((generator_time sim_time st' < generator_time sim_time st)%nat
      \/ ((generator_time sim_time st' <= generator_time sim_time st)%nat
          /\ (total_weight st' < total_weight st)%nat)).
Proof.
  intros Hd Hq. unfold step. destruct (queue (env st)) as [|s q] eqn:E; [discriminate|].
  destruct (pop_measures st s q E) as [HG HW].
  set (st1 := set_env st {| now := at_time s; queue := q; eid := eid (env st) |}) in *.
  assert (Hq1 : event s <> Until -> queue_ok sim_time (queue (env st1))).
  { intros Hne. cbn. eapply queue_ok_tail; eauto. }
  assert (B : event s <> Until ->
              bounded sim_time (generator_time sim_time st1) (total_weight st1) st1).
  { intros Hne. split; [now apply Hq1|]. split; lia. }
  assert (Fin : forall (x : Simulator op) d,
             bounded sim_time (generator_time sim_time st1) (total_weight st1 + d) x ->
             (d < weight (event s))%nat ->
             queue_ok sim_time (queue (env x))
             /\ ((generator_time sim_time x < generator_time sim_time st)%nat
                 \/ ((generator_time sim_time x <= generator_time sim_time st)%nat
                     /\ (total_weight x < total_weight st)%nat))).
  { intros x d (Hx & Hg & Hw) Hlt. split; [exact Hx|]. right. lia. }
  assert (Gen : (Z.to_nat (sim_time - at_time s - 1) + 1 < generator_weight sim_time s)%nat ->
                event s <> Until ->
                queue_ok sim_time (queue (env (activity_generator st1 false)))
                /\ ((generator_time sim_time (activity_generator st1 false)
                     < generator_time sim_time st)%nat
                    \/ ((generator_time sim_time (activity_generator st1 false)
                         <= generator_time sim_time st)%nat
                        /\ (total_weight (activity_generator st1 false)
                            < total_weight st)%nat))).
  { intros Hlt Hne. destruct (generator_pass st1 Hd (Hq1 Hne)) as [H1 H2].
    split; [exact H1|]. left.
    change (now (env st1)) with (at_time s) in H2. lia. }
  destruct (event s) as [|a|fin|p|item w|w|[e|]|] eqn:Ev; intros Hs;
    try discriminate Hs; apply Continue_inj in Hs; rewrite <- Hs; clear Hs st'.
  - apply Gen; [|discriminate]. unfold generator_weight. rewrite Ev. lia.
  - apply (Fin _ (events_left 0 (total_need (needs a)))); [|cbn; lia].
    apply bounded_activity_processing. apply B. discriminate.
  - destruct fin.
    + apply (Fin _ 1%nat); [|cbn; lia].
      apply bounded_process_return. apply B. discriminate.
    + apply Gen; [|discriminate]. unfold generator_weight. rewrite Ev.
      assert (Ht : at_time s < sim_time).
      { apply (queue_ok_head_time sim_time s q Hq).
        destruct Hq as (_ & _ & Hp). apply (Hp s false); [now left | exact Ev]. }
      lia.
  - apply (Fin _ (List.length (resources p) + 1)%nat); [|cbn; lia].
    apply bounded_finish_processing. apply B. discriminate.
  - apply (Fin _ (acquiring_weight w - 1)%nat);
      [|cbn; unfold acquiring_weight, events_left; lia].
    apply bounded_resume_acquiring, bounded_trigger_put. apply B. discriminate.
  - apply (Fin _ (List.length (rel_rest w) + 1)%nat);
      [|cbn; unfold releasing_weight; lia].
    apply bounded_release_loop, bounded_trigger_get. apply B. discriminate.
  - apply (Fin _ 0%nat); [|cbn; lia]. rewrite Nat.add_0_r. apply B. discriminate.
Qed.

(** The event loop comes to an end: with enough fuel [run] either stops at
    the horizon or raises. *)
Lemma run_terminates_from (g : nat) :
  delays_nonzero op ->
  forall (w : nat) (st : Simulator op),
    queue_ok sim_time (queue (env st)) ->
    (generator_time sim_time st <= g)%nat -> (total_weight st <= w)%nat ->
    exists fuel, finished (run plan fuel st).
Proof.
  intros Hd. induction g as [g IHg] using lt_wf_ind.
  induction w as [w IHw] using lt_wf_ind. intros st Hq Hg Hw.
  destruct (step plan st) as [st'|st'|e st'|st'] eqn:E.
  - destruct (step_decreases st st' Hd Hq E) as [Hq' [Hlt|[Hle Hlt]]].
    + destruct (IHg (generator_time sim_time st') ltac:(lia) (total_weight st') st' Hq'
                  (Nat.le_refl _) (Nat.le_refl _)) as [fuel Hf].
      exists (S fuel). simpl. now rewrite E.
    + destruct (IHw (total_weight st') ltac:(lia) st' Hq' ltac:(lia) (Nat.le_refl _))
        as [fuel Hf].
      exists (S fuel). simpl. now rewrite E.
  - exists 1%nat. simpl. now rewrite E.
  - exists 1%nat. simpl. now rewrite E.
  - exists 1%nat. simpl. now rewrite E.
Qed.

Lemma run_more_fuel (fuel : nat) :
  forall (st : Simulator op) k,
    finished (run plan fuel st) -> run plan (fuel + k) st = run plan fuel st.
Proof.
  induction fuel as [|fuel IH]; intros st k; simpl; [intros []|].
  destruct (step plan st); auto.
Qed.

End Termination.

Lemma setup_queue_ok {op : Operator} (plan : ProductionPlan) (st st0 : Simulator op)
  (sim_time seed : Z) :
  simulate_setup plan st sim_time seed = Ok st0 ->
  queue_ok sim_time (queue (env st0)).
Proof.
  unfold simulate_setup. destruct (_ <=? 0); [discriminate|].
  destruct (create_resources _ _ _ _) as [items_|e]; [|discriminate].
  destruct (sim_time <=? _); [discriminate|].
  intros H. injection H as <-. unfold schedule.
  cbn [env set_env queue now eid set_factory set_resource_usage set_operator].
  split; [|split].
  - apply heappush_sorted, heappush_sorted. constructor.
  - eexists. split; [apply In_heappush; left; reflexivity|]. cbn. repeat split. lia.
  - intros s fin Hin Hs. apply In_heappush in Hin. destruct Hin as [->|Hin]; [discriminate|].
    apply In_heappush in Hin. destruct Hin as [->|[]]. discriminate.
Qed.

(** X9.  When the operator answers with integer delays and integer
    processing times, and never with a delay of 0, [simulate] comes to an
    end: from some amount of fuel on it returns or raises, and more fuel does
    not change its result. *)
Theorem simulate_terminates {op : Operator} (plan : ProductionPlan) (st : Simulator op)
  (sim_time seed : Z) :
  delays_nonzero op ->
  exists fuel,
    simulate plan fuel st sim_time seed <> Unfinished
    /\ forall k, simulate plan (fuel + k) st sim_time seed
                 = simulate plan fuel st sim_time seed.
Proof.
  intros Hd. unfold simulate.
  destruct (simulate_setup plan st sim_time seed) as [st0|e] eqn:E.
  - destruct (run_terminates_from plan sim_time _ Hd _ st0 (setup_queue_ok _ _ _ _ _ E)
                (Nat.le_refl _) (Nat.le_refl _)) as [fuel Hf].
    exists fuel. split.
    + destruct (run plan fuel st0); try contradiction.
      * destruct (process_results _ _); discriminate.
      * discriminate.
    + intros k. now rewrite (run_more_fuel plan fuel st0 k Hf).
  - exists 0%nat. split; [discriminate | reflexivity].
Qed.


(** * Further properties of the simulator *)

(** ** The availability check *)

Section AvailabilityCheck.
Context {op : Operator}.
Variable plan : ProductionPlan.

(** The loop ends in exactly one of three ways when the message can be
    evaluated. *)
Lemma availability_loop_cases (st : Simulator op) (pi ai : nat) (needs : list Z) :
  availability_message plan st pi = Ok tt ->
  forall r fc,
    (need_without_group plan r needs
     /\ availability_loop plan st pi ai r needs fc = Raise IndexError)
    \/ (~ need_without_group plan r needs /\ need_short plan st r needs
        /\ availability_loop plan st pi ai r needs fc = Ok (Some AVAILABILITY))
    \/ (~ need_without_group plan r needs /\ ~ need_short plan st r needs
        /\ availability_loop plan st pi ai r needs fc = Ok fc).
Proof.
  intros Hmsg.
  induction needs as [|need rest IH]; intros r fc.
  - right. right. split; [|split; [|reflexivity]].
    + intros (i & n & H & _). destruct i; discriminate.
    + intros (i & n & nm & H & _). destruct i; discriminate.
  - assert (Shift1 : need_without_group plan (S r) rest ->
                     need_without_group plan r (need :: rest)).
    { intros (i & n & H1 & H2 & H3). exists (S i), n. rewrite Nat.add_succ_r. auto. }
    assert (Shift2 : need_short plan st (S r) rest -> need_short plan st r (need :: rest)).
    { intros (i & n & nm & H1 & H2 & H3 & H4). exists (S i), n, nm.
      rewrite Nat.add_succ_r. auto. }
    assert (Back1 : need_without_group plan r (need :: rest) ->
                    (0 < need /\ nth_error (resource_names (plan_factory plan)) r = None)
                    \/ need_without_group plan (S r) rest).
    { intros (i & n & H1 & H2 & H3). destruct i as [|i].
      - left. injection H1 as <-. now rewrite Nat.add_0_r in H3.
      - right. exists i, n. rewrite Nat.add_succ_r in H3. auto. }
    assert (Back2 : need_short plan st r (need :: rest) ->
                    (0 < need /\ exists nm,
                        nth_error (resource_names (plan_factory plan)) r = Some nm
                        /\ Z.of_nat (count_group nm (items (factory st))) < need)
                    \/ need_short plan st (S r) rest).
    { intros (i & n & nm & H1 & H2 & H3 & H4). destruct i as [|i].
      - left. injection H1 as <-. rewrite Nat.add_0_r in H3. eauto.
      - right. exists i, n, nm. rewrite Nat.add_succ_r in H3. auto. }
    simpl. destruct (Z.ltb_spec 0 need) as [Hpos|Hneg].
    + destruct (nth_error (resource_names (plan_factory plan)) r) as [nm|] eqn:En.
      * rewrite Hmsg.
        destruct (Z.ltb_spec (Z.of_nat (count_group nm (items (factory st)))) need)
          as [Hlt|Hge].
        -- destruct (IH (S r) (Some AVAILABILITY)) as [[B E]|[(NB & S & E)|(NB & NS & E)]].
           ++ left. auto.
           ++ right. left. split; [|split; [auto | exact E]].
              intros H. apply Back1 in H. destruct H as [[_ H]|H]; [congruence | auto].
           ++ right. left. split; [|split; [|exact E]].
              ** intros H. apply Back1 in H. destruct H as [[_ H]|H]; [congruence | auto].
              ** exists 0%nat, need, nm. rewrite Nat.add_0_r. auto.
        -- destruct (IH (S r) fc) as [[B E]|[(NB & S & E)|(NB & NS & E)]].
           ++ left. auto.
           ++ right. left. split; [|split; [auto | exact E]].
              intros H. apply Back1 in H. destruct H as [[_ H]|H]; [congruence | auto].
           ++ right. right. split; [|split; [|exact E]].
              ** intros H. apply Back1 in H. destruct H as [[_ H]|H]; [congruence | auto].
              ** intros H. apply Back2 in H. destruct H as [(_ & nm' & H1 & H2)|H]; [|auto].
                 try rewrite En in H1. injection H1 as <-. lia.
      * left. split; [|reflexivity]. exists 0%nat, need. rewrite Nat.add_0_r. auto.
    + destruct (IH (S r) fc) as [[B E]|[(NB & S & E)|(NB & NS & E)]].
      * left. auto.
      * right. left. split; [|split; [auto | exact E]].
        intros H. apply Back1 in H. destruct H as [[H _]|H]; [lia | auto].
      * right. right. split; [|split; [|exact E]].
        -- intros H. apply Back1 in H. destruct H as [[H _]|H]; [lia | auto].
        -- intros H. apply Back2 in H. destruct H as [[H _]|H]; [lia | auto].
Qed.

(** When the message cannot be evaluated, the first positive need raises
    IndexError, at its resource name or at the message. *)
Lemma availability_loop_message (st : Simulator op) (pi ai : nat) (needs : list Z) :
  availability_message plan st pi = Raise IndexError ->
  forall r fc,
    ((exists need, In need needs /\ 0 < need)
     /\ availability_loop plan st pi ai r needs fc = Raise IndexError)
    \/ (~ (exists need, In need needs /\ 0 < need)
        /\ ~ need_without_group plan r needs /\ ~ need_short plan st r needs
        /\ availability_loop plan st pi ai r needs fc = Ok fc).
Proof.
  intros Hmsg.
  induction needs as [|need rest IH]; intros r fc; simpl.
  - right. split; [intros (n & [] & _)|]. split; [|split; [|reflexivity]].
    + intros (i & n & H & _). destruct i; discriminate.
    + intros (i & n & nm & H & _). destruct i; discriminate.
  - destruct (Z.ltb_spec 0 need) as [Hpos|Hneg].
    + left. split; [exists need; split; [now left | exact Hpos]|].
      destruct (nth_error _ r); [now rewrite Hmsg | reflexivity].
    + destruct (IH (S r) fc) as [[(n & Hin & Hn) E]|(N & NB & NS & E)].
      * left. split; [exists n; split; [now right | exact Hn] | exact E].
      * right. split; [|split; [|split; [|exact E]]].
        -- intros (n & [<-|Hin] & Hn); [lia | apply N; eauto].
        -- intros (i & n & H1 & H2 & H3). destruct i as [|i].
           ++ injection H1 as <-. lia.
           ++ apply NB. exists i, n. rewrite Nat.add_succ_r in H3. auto.
        -- intros (i & n & nm & H1 & H2 & H3 & H4). destruct i as [|i].
           ++ injection H1 as <-. lia.
           ++ apply NS. exists i, n, nm. rewrite Nat.add_succ_r in H3. auto.
Qed.

Lemma availability_message_cases (st : Simulator op) (pi : nat) :
  (availability_message plan st pi = Ok tt
   /\ ~ (printing st = true /\ nth_error (products plan) pi = None))
  \/ (availability_message plan st pi = Raise IndexError
      /\ printing st = true /\ nth_error (products plan) pi = None).
Proof.
  unfold availability_message. destruct (printing st).
  - destruct (nth_error (products plan) pi).
    + left. split; [reflexivity|]. intros [_ H]. discriminate.
    + right. auto.
  - left. split; [reflexivity|]. intros [H _]. discriminate.
Qed.

(** X1.  What [_availability_constraint_check] returns once [simulate] has
    created the store.  It raises IndexError exactly when a positive need
    has no resource group, or when [self.printing] is set, the product index
    lies outside the plan and some need is positive (the message of the
    check cannot be evaluated); otherwise it returns AVAILABILITY exactly
    when some positive need exceeds the machines of its group in the store,
    and [None] when none does.  Needs that are 0 or negative play no
    part. *)
Theorem availability_check_result (st : Simulator op) (needs : list Z)
  (product_index activity_id : nat)
  (Hstore : 0 < store_capacity (factory st)) :
  let check := _availability_constraint_check plan st needs product_index activity_id in
  let raises := need_without_group plan 0 needs
                \/ message_fails plan st product_index needs in
  (check = Raise IndexError <-> raises)
  /\ (check = Ok (Some AVAILABILITY) <-> ~ raises /\ need_short plan st 0 needs)
  /\ (check = Ok None <-> ~ raises /\ ~ need_short plan st 0 needs).
Proof.
  clear Hstore. cbv zeta. unfold _availability_constraint_check, message_fails.
  destruct (availability_message_cases st product_index) as [[Hm Hn]|(Hm & Hp & Hi)].
  - destruct (availability_loop_cases st product_index activity_id needs Hm 0%nat None)
      as [[B E]|[(NB & S & E)|(NB & NS & E)]]; rewrite E;
      repeat split; intros; try discriminate; try tauto.
  - destruct (availability_loop_message st product_index activity_id needs Hm 0%nat None)
      as [[P E]|(NP & NB & NS & E)]; rewrite E;
      repeat split; intros; try discriminate; try tauto.
Qed.

End AvailabilityCheck.

(** ** The precedence check *)

Section PrecedenceCheck.
Context {op : Operator}.
Variable plan : ProductionPlan.

Lemma predecessor_passes_set_failure_code (prod : Product) (st : Simulator op)
  (c : option FailureCode) (pi ai pred : nat) :
  predecessor_passes prod (set_logger st (set_failure_code (logger st) c)) pi ai pred
  <-> predecessor_passes prod st pi ai pred.
Proof. reflexivity. Qed.

(** The precedence loop returns no code exactly when every predecessor
    passes; a predecessor whose minimal lag is violated passes. *)
Theorem precedence_loop_passes (prod : Product) (pi ai : nat) (preds : list nat) :
  forall st : Simulator op,
    fst (precedence_loop prod pi ai preds st) = Ok None
    <-> Forall (predecessor_passes prod st pi ai) preds.
Proof.
  induction preds as [|pred rest IH]; intros st; simpl.
  - split; [constructor | reflexivity].
  - destruct (dict_get (temporal_relations prod) (pred, ai)) as [rel|] eqn:Er.
    + destruct (fetch_latest_entry (logger st) pi pred START) as [e|] eqn:Ee.
      * destruct (Z.ltb_spec (now (env st) - timestamp e) (min_lag rel)) as [Hmin|Hmin].
        -- rewrite IH. split.
           ++ intros H. constructor.
              ** exists rel, e. auto.
              ** eapply Forall_impl; [|exact H]. intros p Hp.
                 now apply predecessor_passes_set_failure_code in Hp.
           ++ intros H. inversion H as [|? ? _ Hrest]; subst.
              eapply Forall_impl; [|exact Hrest]. intros p Hp.
              now apply predecessor_passes_set_failure_code.
        -- destruct (truthy (max_lag rel)) eqn:Et; simpl.
           ++ destruct (max_lag rel) as [m|] eqn:Em; [|discriminate].
              destruct (Z.gtb_spec (now (env st) - timestamp e) m) as [Hmax|Hmax]; simpl.
              ** split; [discriminate|]. intros H. exfalso.
                 inversion H as [|? ? (rel' & e' & H1 & H2 & H3) _]; subst.
                 rewrite Er in H1. rewrite Ee in H2.
                 injection H1 as <-. injection H2 as <-. rewrite Em in H3.
                 destruct H3 as [H3|[H3|(m' & H3 & H4)]]; [lia | | ].
                 --- rewrite H3 in Et. discriminate.
                 --- injection H3 as <-. lia.
              ** rewrite IH. split.
                 --- intros H. constructor; [|exact H].
                     exists rel, e. rewrite Em. repeat split; auto.
                     right. right. exists m. split; [reflexivity | lia].
                 --- intros H. now inversion H.
           ++ rewrite IH. split.
              ** intros H. constructor; [|exact H]. exists rel, e. auto.
              ** intros H. now inversion H.
      * split; [discriminate|]. intros H.
        inversion H as [|? ? (rel' & e' & H1 & H2 & _) _]; subst. congruence.
    + split; [discriminate|]. intros H.
      inversion H as [|? ? (rel' & e' & H1 & _) _]; subst. congruence.
Qed.

End PrecedenceCheck.

(** ** Needs that are not positive *)

Section NoNeeds.
Context {op : Operator}.
Variable plan : ProductionPlan.

Lemma availability_loop_no_needs (st : Simulator op) (pi ai : nat) (needs : list Z) :
  Forall (fun need => need <= 0) needs ->
  forall r fc, availability_loop plan st pi ai r needs fc = Ok fc.
Proof.
  induction 1 as [|need rest Hn _ IH]; intros r fc; simpl; [reflexivity|].
  destruct (Z.ltb_spec 0 need); [lia | apply IH].
Qed.

Lemma acquire_loop_no_needs (a : ActivityArgs) (rt : Z) (rs : list Machine)
  (needs : list Z) :
  Forall (fun need => need <= 0) needs ->
  forall (st : Simulator op) r,
    acquire_loop plan st a rt rs r needs = start_processing plan st a rt rs.
Proof.
  induction 1 as [|need rest Hn _ IH]; intros st r; simpl; [reflexivity|].
  destruct (Z.ltb_spec 0 need); [lia | apply IH].
Qed.

(** X4.  An activity none of whose needs is positive (an empty needs vector,
    zeros, negative numbers) passes the availability check whatever the
    store holds, and when the other two checks pass it logs its START in the
    event that runs its process, without asking the store for anything: the
    store is left as it was and the timeout of [proc_time] is the only event
    added. *)
Theorem activity_without_needs_starts_at_once (st st1 : Simulator op)
  (a : ActivityArgs) (prod : Product)
  (Hneeds : Forall (fun need => need <= 0) (needs a))
  (Hprod : nth_error (products plan) (product_index a) = Some prod)
  (Hprec : _precedence_constraint_check plan st (product_index a) (activity_id a)
           = (Ok None, st1))
  (Hcomp : _compatibility_constraint_check plan st1 (product_index a) (activity_id a)
           = Ok None)
  (Htime : 0 <= proc_time a) :
  _availability_constraint_check plan st (needs a) (product_index a) (activity_id a)
  = Ok None
  /\ factory (activity_processing plan st a) = factory st
  /\ log (logger (activity_processing plan st a))
     = log (logger st)
       ++ [ {| entry_product_id := product_id prod; entry_activity_id := activity_id a;
               entry_product_index := product_index a; entry_action := START;
               timestamp := now (env st) |} ]
  /\ queue (env (activity_processing plan st a))
     = heappush {| at_time := now (env st) + proc_time a; priority := NORMAL;
                   seq := eid (env st);
                   event := Timeout_processing
                              {| args := a; request_time := now (env st);
                                 retrieve_time := now (env st);
                                 start_time := now (env st); resources := [] |} |}
                (queue (env st)).
Proof.
  assert (Ha : _availability_constraint_check plan st (needs a) (product_index a)
                 (activity_id a) = Ok None)
    by (apply availability_loop_no_needs; exact Hneeds).
  split; [exact Ha|].
  pose proof (precedence_check_frame plan st (product_index a) (activity_id a)) as F.
  rewrite Hprec in F. cbn in F. destruct F as (Fe & Ff & _ & _ & _ & Fl & _).
  unfold activity_processing, constraint_check. rewrite Ha, Hprec, Hcomp.
  rewrite (acquire_loop_no_needs a _ [] (needs a) Hneeds).
  unfold start_processing. cbn. rewrite Hprod.
  destruct (Z.ltb_spec (proc_time a) 0); [lia|].
  cbn. rewrite Fe, Ff, Fl. repeat split.
Qed.

End NoNeeds.

(** The first activity of the first scenario, asking for no machine, in the
    state before the first event. *)
Lemma activity_without_needs_starts_at_once_witness :
  let st := after_events plan_min_lag 0 (script decisions_min_lag) 20 in
  let a := {| activity_id := 0; product_index := 0; proc_time := 4; needs := [0; -1] |} in
  _availability_constraint_check plan_min_lag st (needs a) (product_index a)
    (activity_id a)
  = Ok None
  /\ factory (activity_processing plan_min_lag st a) = factory st
  /\ log (logger (activity_processing plan_min_lag st a))
     = log (logger st)
       ++ [ {| entry_product_id := 0; entry_activity_id := activity_id a;
               entry_product_index := product_index a; entry_action := START;
               timestamp := now (env st) |} ]
  /\ queue (env (activity_processing plan_min_lag st a))
     = heappush {| at_time := now (env st) + proc_time a; priority := NORMAL;
                   seq := eid (env st);
                   event := Timeout_processing
                              {| args := a; request_time := now (env st);
                                 retrieve_time := now (env st);
                                 start_time := now (env st); resources := [] |} |}
                (queue (env st)).
Proof.
  intros st a.
  apply (activity_without_needs_starts_at_once plan_min_lag st st a
           {| product_id := 0; deadline := 8;
              activities := [ {| constraints := [] |}; {| constraints := [] |} ];
              predecessors := [ []; [0%nat] ];
              temporal_relations :=
                [ ((0%nat, 1%nat), {| min_lag := 5; max_lag := None |}) ] |}).
  - repeat constructor; discriminate.
  - reflexivity.
  - reflexivity.
  - reflexivity.
  - discriminate.
Defined.

(** ** The set-up of [simulate] *)

Lemma create_resources_result (capacity : list nat) (names : list string) :
  forall r acc,
    (r + List.length names <= List.length capacity)%nat ->
    exists items_, create_resources capacity names r acc = Ok items_
                   /\ List.length items_
                      = (List.length acc
                         + list_sum (firstn (List.length names) (skipn r capacity)))%nat.
Proof.
  induction names as [|n names IH]; intros r acc H; simpl.
  - exists acc. split; [reflexivity | lia].
  - simpl in H.
    destruct (nth_error capacity r) as [c|] eqn:E.
    + destruct (IH (S r) (acc ++ map (fun j => {| resource_group := n; machine_id := j |})
                                   (List.seq 0 c))) as (items_ & H1 & H2); [lia|].
      exists items_. split; [exact H1|]. rewrite H2, length_app, length_map, length_seq.
      assert (S : skipn r capacity = c :: skipn (S r) capacity).
      { clear -E. revert r E. induction capacity as [|x l IHl]; intros [|r] E;
          try discriminate; simpl in *.
        - now injection E as ->.
        - now apply IHl. }
      rewrite S. simpl. lia.
    + apply nth_error_None in E. lia.
Qed.

Lemma create_resources_short (capacity : list nat) (names : list string) :
  forall r acc,
    (List.length capacity < r + List.length names)%nat ->
    (r <= List.length capacity)%nat ->
    create_resources capacity names r acc = Raise IndexError.
Proof.
  induction names as [|n names IH]; intros r acc H Hr; simpl in *; [lia|].
  destruct (nth_error capacity r) as [c|] eqn:E; [|reflexivity].
  apply IH; [lia|]. assert (r < List.length capacity)%nat; [|lia].
  apply nth_error_Some. congruence.
Qed.

(** X5.  [simulate] gets to its event loop exactly when the capacities sum to
    more than 0, every named resource group has a capacity, and [sim_time]
    is positive.  Otherwise it raises: ValueError for the empty store first,
    IndexError for a missing capacity next, ValueError for the horizon last.
    When it starts, the clock is at 0 and the store holds the capacities of
    the named groups. *)
Theorem simulate_setup_result {op : Operator} (plan : ProductionPlan)
  (st : Simulator op) (sim_time seed : Z) :
  let names := resource_names (plan_factory plan) in
  let caps := capacity (plan_factory plan) in
  (list_sum caps = 0%nat -> simulate_setup plan st sim_time seed = Raise ValueError)
  /\ (list_sum caps <> 0%nat -> (List.length caps < List.length names)%nat ->
      simulate_setup plan st sim_time seed = Raise IndexError)
  /\ (list_sum caps <> 0%nat -> (List.length names <= List.length caps)%nat ->
      sim_time <= 0 -> simulate_setup plan st sim_time seed = Raise ValueError)
  /\ (list_sum caps <> 0%nat -> (List.length names <= List.length caps)%nat ->
      0 < sim_time ->
      exists st0,
        simulate_setup plan st sim_time seed = Ok st0
        /\ now (env st0) = 0
        /\ store_capacity (factory st0) = Z.of_nat (list_sum caps)
        /\ List.length (items (factory st0))
           = list_sum (firstn (List.length names) caps)
        /\ get_queue (factory st0) = [] /\ put_queue (factory st0) = []
        /\ logger st0 = logger st /\ nr_clashes st0 = nr_clashes st).
Proof.
  intros names caps. unfold simulate_setup. fold names. fold caps.
  repeat split.
  - intros H. rewrite H. reflexivity.
  - intros H0 Hl. destruct (Z.leb_spec (Z.of_nat (list_sum caps)) 0); [lia|].
    rewrite (create_resources_short caps names 0 []); [reflexivity | simpl; lia | lia].
  - intros H0 Hl Ht. destruct (Z.leb_spec (Z.of_nat (list_sum caps)) 0); [lia|].
    destruct (create_resources_result caps names 0 [] Hl) as (items_ & E & _).
    rewrite E. cbn. destruct (Z.leb_spec sim_time 0); [reflexivity | lia].
  - intros H0 Hl Ht. destruct (Z.leb_spec (Z.of_nat (list_sum caps)) 0); [lia|].
    destruct (create_resources_result caps names 0 [] Hl) as (items_ & E & Hlen).
    rewrite E. cbn. destruct (Z.leb_spec sim_time 0); [lia|].
    eexists. split; [reflexivity|]. cbn. repeat split. exact Hlen.
Qed.

Section PrecedenceCheckWhole.
Context {op : Operator}.
Variable plan : ProductionPlan.

(** X2.  For an existing product and activity,
    [_precedence_constraint_check] returns no code exactly when every
    declared predecessor passes: its relation is declared, its START is
    logged, and its minimal lag is not reached, or its maximal lag does not
    count ([None] or 0), or its maximal lag is not exceeded. *)
Theorem precedence_check_passes (st : Simulator op) (pi ai : nat) (prod : Product)
  (preds : list nat)
  (Hprod : nth_error (products plan) pi = Some prod)
  (Hpreds : nth_error (predecessors prod) ai = Some preds) :
  fst (_precedence_constraint_check plan st pi ai) = Ok None
  <-> Forall (predecessor_passes prod st pi ai) preds.
Proof.
  unfold _precedence_constraint_check. rewrite Hprod, Hpreds.
  apply precedence_loop_passes.
Qed.

End PrecedenceCheckWhole.

(** In [st_min_lag] the only predecessor passes although its minimal lag of
    5 is not reached after 1 time unit. *)
Lemma precedence_check_passes_witness :
  fst (_precedence_constraint_check plan_min_lag st_min_lag 0 1) = Ok None
  <-> Forall (predecessor_passes (nth 0 (products plan_min_lag)
                                    {| product_id := 0; deadline := 0; activities := [];
                                       predecessors := []; temporal_relations := [] |})
                                 st_min_lag 0 1) [0%nat].
Proof.
  apply (precedence_check_passes plan_min_lag st_min_lag 0 1); reflexivity.
Defined.

(** ** The result processing *)

Lemma lateness_loop_bounds (rows : list UsageRecord) (prods : list Product) :
  forall p lateness nr l u,
    lateness_loop rows p prods lateness nr = Ok (l, u) ->
    lateness <= l /\ (nr <= u <= nr + List.length prods)%nat.
Proof.
  induction prods as [|prod rest IH]; intros p lateness nr l u; simpl.
  - intros H. injection H as <- <-. lia.
  - destruct (py_max _) as [[f|]|e]; [| |discriminate]; intros H; apply IH in H; lia.
Qed.

Lemma lateness_loop_raises (rows : list UsageRecord) (prods : list Product) :
  forall p lateness nr,
    (exists i, (i < List.length prods)%nat /\ product_finishes rows (p + i) = []) ->
    lateness_loop rows p prods lateness nr = Raise ValueError.
Proof.
  induction prods as [|prod rest IH]; intros p lateness nr (i & Hi & He); simpl in *; [lia|].
  destruct i as [|i].
  - rewrite Nat.add_0_r in He. unfold product_finishes in He. now rewrite He.
  - assert (H : exists j, (j < List.length rest)%nat /\ product_finishes rows (S p + j) = []).
    { exists i. split; [lia|]. now rewrite Nat.add_succ_r in He. }
    destruct (py_max _) as [[f|]|e] eqn:E.
    + now apply IH.
    + now apply IH.
    + destruct (map Finish _); simpl in E; [congruence | discriminate].
Qed.

Lemma lateness_loop_returns (rows : list UsageRecord) (prods : list Product) :
  forall p lateness nr,
    (forall i, (i < List.length prods)%nat -> product_finishes rows (p + i) <> []) ->
    exists l u, lateness_loop rows p prods lateness nr = Ok (l, u).
Proof.
  induction prods as [|prod rest IH]; intros p lateness nr H; simpl in *; [eauto|].
  assert (H0 : product_finishes rows p <> []).
  { specialize (H 0%nat). rewrite Nat.add_0_r in H. apply H. lia. }
  assert (Hr : forall i, (i < List.length rest)%nat -> product_finishes rows (S p + i) <> []).
  { intros i Hi. specialize (H (S i)). rewrite Nat.add_succ_r in H. apply H. lia. }
  unfold product_finishes in H0.
  destruct (map Finish _) as [|x l]; [contradiction|]. simpl.
  destruct (fold_left xmax l x); now apply IH.
Qed.

(** X6.  When the result processing returns and when it raises: it returns
    exactly when some record has a finite Finish and every product of the
    plan has at least one record; without any record it raises KeyError, and
    with records but no finite Finish, or with a product that has no record,
    it raises ValueError. *)
Theorem process_results_outcome (plan : ProductionPlan) (rows : list UsageRecord) :
  (rows = [] -> process_results plan rows = Raise KeyError)
  /\ (rows <> [] ->
      (finite_finishes rows = []
       \/ exists p, (p < List.length (products plan))%nat /\ product_finishes rows p = []) ->
      process_results plan rows = Raise ValueError)
  /\ (finite_finishes rows <> [] ->
      (forall p, (p < List.length (products plan))%nat -> product_finishes rows p <> []) ->
      exists makespan lateness nr,
        process_results plan rows = Ok (makespan, lateness, nr)).
Proof.
  split; [intros ->; reflexivity|]. split.
  - intros Hne H. unfold process_results. destruct rows as [|row rows]; [contradiction|].
    fold (finite_finishes (row :: rows)).
    destruct (finite_finishes (row :: rows)) as [|x l] eqn:E; [reflexivity|].
    destruct H as [H|H]; [discriminate|]. simpl py_max. cbv iota.
    rewrite lateness_loop_raises; [reflexivity|]. exact H.
  - intros Hf Hp. unfold process_results. destruct rows as [|row rows]; [contradiction|].
    fold (finite_finishes (row :: rows)).
    destruct (finite_finishes (row :: rows)) as [|x l] eqn:E; [contradiction|].
    simpl py_max. cbv iota.
    destruct (lateness_loop_returns (row :: rows) (products plan) 0 0 0%nat Hp)
      as (la & u & El).
    rewrite El. eauto.
Qed.

(** X7.  The returned triple is within bounds: the makespan is finite, the
    lateness is not negative, and the number of unfinished products is at
    most the number of products. *)
Theorem process_results_bounds (plan : ProductionPlan) (rows : list UsageRecord)
  (makespan : xtime) (lateness : Z) (nr : nat)
  (H : process_results plan rows = Ok (makespan, lateness, nr)) :
  (exists z, makespan = Fin z)
  /\ 0 <= lateness
  /\ (nr <= List.length (products plan))%nat.
Proof.
  destruct (process_results_makespan plan rows makespan lateness nr H) as [_ Hm].
  split; [destruct makespan as [z|]; [eauto | contradiction]|].
  revert H. unfold process_results. destruct rows as [|row rows]; [discriminate|].
  destruct (py_max _) as [m|e]; [|discriminate].
  destruct (lateness_loop _ _ _ _ _) as [[l u]|e] eqn:E; [|discriminate].
  intros H. injection H as _ <- <-. apply lateness_loop_bounds in E. lia.
Qed.

Lemma process_results_bounds_witness :
  (exists z, Fin 4 = Fin z) /\ 0 <= 1 /\ (1 <= List.length (products plan_two_products))%nat.
Proof.
  apply (process_results_bounds plan_two_products (table st_end_two_products)).
  vm_compute. reflexivity.
Defined.

Lemma process_results_makespan_witness :
  is_max (Fin 4) (finite_finishes (table st_end_two_products)) /\ Fin 4 <> Inf.
Proof.
  apply (process_results_makespan plan_two_products (table st_end_two_products) (Fin 4) 1 1).
  vm_compute. reflexivity.
Defined.

(** ** An operator that answers with a delay of 0 *)

Section Stalling.
Context {op : Operator}.
Variable plan : ProductionPlan.
Hypothesis Hstalls : stalls op.

Lemma stalling_pass (st : Simulator op) (u : Scheduled) :
  now (env st) = 0 -> queue (env st) = [u] -> event u = Until -> 0 < at_time u ->
  waiting_generator (activity_generator st false).
Proof.
  intros Hn Hq Hu Ht. unfold activity_generator.
  destruct (Hstalls (operator st) (now (env st))) as (Hd & Hs & Hf).
  destruct (send_next_activity op (operator st) (now (env st))) as [d o].
  cbn [fst] in Hd, Hs, Hf. rewrite Hs, Hd, Hf.
  change (0 <? 0) with false. cbv iota.
  unfold waiting_generator, schedule, set_operator, set_env.
  cbn [env queue now eid]. rewrite Hq, Hn.
  cbn [heappush]. unfold key_ltb. cbn [at_time priority seq].
  destruct (Z.ltb_spec (0 + 0) (at_time u)); [|lia]. cbn [orb].
  exists NORMAL, (eid (env st)), u. auto.
Qed.

Lemma stalling_step (st : Simulator op) :
  waiting_generator st ->
  exists st', step plan st = Continue st' /\ waiting_generator st'.
Proof.
  intros (k & g & u & Hq & Hu & Ht). unfold step. rewrite Hq. cbn [event at_time].
  eexists. split; [reflexivity|]. now apply (stalling_pass _ u).
Qed.

Lemma stalling_run (fuel : nat) :
  forall st : Simulator op, waiting_generator st -> exists st', run plan fuel st = OutOfFuel st'.
Proof.
  induction fuel as [|fuel IH]; intros st H; simpl; [eauto|].
  destruct (stalling_step st H) as (st' & -> & H'). now apply IH.
Qed.

(** X8.  With an operator that always answers with a delay of 0, never
    dispatches and never finishes, [simulate] never comes back once its
    set-up has succeeded: the generator keeps being resumed at time 0, the
    clock does not advance and the horizon is never reached, whatever the
    number of events allowed. *)
Theorem zero_delay_never_returns (st st0 : Simulator op) (sim_time seed : Z)
  (Hsetup : simulate_setup plan st sim_time seed = Ok st0) :
  forall fuel, simulate plan fuel st sim_time seed = Unfinished.
Proof.
  intros fuel. unfold simulate. rewrite Hsetup.
  assert (H0 : exists u, queue (env st0)
                         = [ {| at_time := 0; priority := URGENT; seq := 0;
                                event := Initialize_generator |}; u ]
                         /\ event u = Until /\ 0 < at_time u /\ now (env st0) = 0).
  { revert Hsetup. unfold simulate_setup. destruct (_ <=? 0); [discriminate|].
    destruct (create_resources _ _ _ _); [|discriminate]. cbn.
    destruct (Z.leb_spec sim_time 0); [discriminate|].
    intros E. injection E as <-. cbn. unfold key_ltb. cbn.
    destruct (Z.ltb_spec (sim_time - 0) 0); [lia|].
    destruct (Z.eqb_spec (sim_time - 0) 0); [lia|]. cbn.
    eexists. split; [reflexivity|]. cbn. repeat split. lia. }
  destruct H0 as (u & Hq & Hu & Ht & Hn).
  destruct fuel as [|fuel]; [reflexivity|].
  simpl. unfold step. rewrite Hq. cbn [event at_time].
  destruct (stalling_run fuel
              (activity_generator
                 (set_env st0 {| now := 0; queue := [u]; eid := eid (env st0) |}) false))
    as (st' & ->); [|reflexivity].
  now apply (stalling_pass _ u).
Qed.

End Stalling.

Lemma zero_delay_never_returns_witness :
  simulate plan_min_lag 1000 (new_simulator (op := stalling) tt) 20 1 = Unfinished.
Proof.
  apply (zero_delay_never_returns (op := stalling) plan_min_lag
           ltac:(intros o t; repeat split)
           (new_simulator (op := stalling) tt)
           (after_events (op := stalling) plan_min_lag 0 tt 20)).
  vm_compute. reflexivity.
Defined.

(** The counting operator that replays the first scenario never answers
    with a delay of 0, so [simulate] ends. *)
Lemma simulate_terminates_witness :
  exists fuel,
    simulate plan_min_lag fuel (new_simulator (op := counting decisions_min_lag) 0%nat) 20 1
    <> Unfinished
    /\ forall k,
         simulate plan_min_lag (fuel + k)
           (new_simulator (op := counting decisions_min_lag) 0%nat) 20 1
         = simulate plan_min_lag fuel
             (new_simulator (op := counting decisions_min_lag) 0%nat) 20 1.
Proof.
  apply (simulate_terminates (op := counting decisions_min_lag) plan_min_lag).
  intros o t. cbn. destruct o as [|[|[|o]]]; cbn; discriminate.
Defined.

(** ** The checks, the set-up and the result processing on the examples *)

(** On a simulator that prints, one machine of "A" is asked for, which the
    store has, for product 5 of a plan of one product. *)
Lemma availability_check_result_witness :
  _availability_constraint_check plan_min_lag st_printing [1] 5 0 = Raise IndexError.
Proof.
  apply (proj2 (proj1 (availability_check_result plan_min_lag st_printing [1] 5 0
                         ltac:(reflexivity)))).
  right. split; [reflexivity|]. split; [reflexivity|].
  exists 1. split; [now left | reflexivity].
Defined.

Lemma simulate_setup_result_witness :
  exists st0,
    simulate_setup plan_two_products (new_simulator (script decisions_two_products)) 20 1
    = Ok st0
    /\ now (env st0) = 0
    /\ store_capacity (factory st0)
       = Z.of_nat (list_sum (capacity (plan_factory plan_two_products)))
    /\ List.length (items (factory st0))
       = list_sum (firstn (List.length (resource_names (plan_factory plan_two_products)))
                          (capacity (plan_factory plan_two_products)))
    /\ get_queue (factory st0) = [] /\ put_queue (factory st0) = []
    /\ logger st0 = logger (new_simulator (script decisions_two_products))
    /\ nr_clashes st0 = nr_clashes (new_simulator (script decisions_two_products)).
Proof.
  apply (proj2 (proj2 (proj2 (simulate_setup_result plan_two_products
                                (new_simulator (script decisions_two_products)) 20 1)))).
  - discriminate.
  - apply Nat.le_refl.
  - reflexivity.
Defined.

Lemma process_results_outcome_witness :
  exists makespan lateness nr,
    process_results plan_two_products (table st_end_two_products)
    = Ok (makespan, lateness, nr).
Proof.
  apply (proj2 (proj2 (process_results_outcome plan_two_products
                         (table st_end_two_products)))).
  - vm_compute. discriminate.
  - intros p Hp. destruct p as [|[|p]].
    + vm_compute. discriminate.
    + vm_compute. discriminate.
    + simpl in Hp. lia.
Defined.


(** ** Times and sizes are kept in order *)

Lemma Forall_heappush (P : Scheduled -> Prop) (x : Scheduled) (q : list Scheduled) :
  Forall P (heappush x q) <-> P x /\ Forall P q.
Proof.
  rewrite !Forall_forall. split.
  - intros H. split; [apply H, In_heappush; now left|].
    intros y Hy. apply H, In_heappush. now right.
  - intros [Hx Hq] y Hy. apply In_heappush in Hy. destruct Hy as [->|Hy]; auto.
Qed.

Lemma Forall_dict_set {V : Type} (P : (nat * nat) * V -> Prop)
  (d : list ((nat * nat) * V)) (k : nat * nat) (v : V) :
  Forall P d -> P (k, v) -> Forall P (dict_set d k v).
Proof.
  intros Hd Hk. induction d as [|[k0 v0] d IH]; simpl.
  - constructor; [exact Hk | constructor].
  - inversion Hd as [|? ? H0 Hd']; subst.
    destruct (pair_eqb k0 k) eqn:E.
    + apply pair_eqb_eq in E. subst k0. constructor; assumption.
    + constructor; [assumption | now apply IH].
Qed.

Ltac consistent_fields :=
  unfold consistent; cbn;
  repeat (split; [assumption|]); try assumption.

Lemma take_item_group (group : string) (l l' : list Machine) (item : Machine) :
  take_item group l = Some (item, l') -> resource_group item = group.
Proof.
  revert l'. induction l as [|m l IH]; intros l'; simpl; [discriminate|].
  destruct (String.eqb_spec (resource_group m) group) as [E|_].
  - intros H. injection H as <- <-. exact E.
  - destruct (take_item group l) as [[x rest']|]; [|discriminate].
    intros H. injection H as <- <-. now apply (IH rest').
Qed.

Section CheckErrors.
Context {op : Operator}.
Variable plan : ProductionPlan.

Lemma availability_loop_raises (st : Simulator op) (pi ai : nat) (needs : list Z) :
  forall r code e,
    availability_loop plan st pi ai r needs code = Raise e -> e = IndexError.
Proof.
  induction needs as [|need rest IH]; intros r code e; simpl; [discriminate|].
  destruct (0 <? need); [|apply IH].
  destruct (nth_error _ _); [|congruence].
  unfold availability_message. destruct (printing st); [|apply IH].
  destruct (nth_error (products plan) pi); [apply IH | congruence].
Qed.

Lemma precedence_loop_raises (prod : Product) (pi ai : nat) (preds : list nat) :
  forall (st st1 : Simulator op) e,
    precedence_loop prod pi ai preds st = (Raise e, st1) -> e = KeyError.
Proof.
  induction preds as [|pred rest IH]; intros st st1 e; simpl; [discriminate|].
  destruct (dict_get _ _) as [rel|]; [|congruence].
  destruct (fetch_latest_entry _ _ _ _); [|discriminate].
  destruct (_ <? _); [apply IH|].
  destruct (_ && _); [discriminate | apply IH].
Qed.

(** The three checks fail with an IndexError or a KeyError only. *)
Lemma constraint_check_raises (st st1 : Simulator op) (a : ActivityArgs) (e : Exn) :
  constraint_check plan st a = (Raise e, st1) -> e = IndexError \/ e = KeyError.
Proof.
  unfold constraint_check, _availability_constraint_check.
  destruct (availability_loop _ _ _ _ _ _ _) as [[c|]|e0] eqn:Ea; try discriminate.
  - unfold _precedence_constraint_check.
    destruct (nth_error (products plan) _) as [prod|] eqn:Ep;
      [|intros H; left; congruence].
    destruct (nth_error (predecessors prod) _) as [preds|]; [|intros H; left; congruence].
    destruct (precedence_loop _ _ _ _ _) as [[[c|]|e0] st2] eqn:El; try discriminate.
    + unfold _compatibility_constraint_check. rewrite Ep.
      destruct (nth_error (activities prod) _); [|intros H; left; congruence].
      destruct (existsb _ _); discriminate.
    + apply precedence_loop_raises in El. intros H. right. congruence.
  - apply availability_loop_raises in Ea. intros H. left. congruence.
Qed.

End CheckErrors.

Section Consistent.
Context {op : Operator}.
Variable plan : ProductionPlan.
Variable sim_time : Z.

Lemma consistent_schedule (st : Simulator op) ev prio dl :
  consistent plan sim_time st ->
  entry_ok (resource_names (plan_factory plan)) sim_time (now (env st))
           {| at_time := now (env st) + dl; priority := prio; seq := eid (env st);
              event := ev |} ->
  (forall fin, ev = Timeout_generator fin -> prio = NORMAL) ->
  consistent plan sim_time (schedule st ev prio dl).
Proof.
  intros (Hq & Hn0 & Hn & He & Hg & Hp & Hr) Hnew Hprio.
  unfold consistent, schedule. cbn [env set_env queue now factory resource_usage].
  split; [apply queue_ok_heappush; [exact Hq | exact Hprio]|].
  split; [exact Hn0|]. split; [exact Hn|].
  split; [apply Forall_heappush; split; assumption|].
  split; [exact Hg|]. split; [exact Hp | exact Hr].
Qed.

Lemma consistent_same (st st' : Simulator op) :
  env st' = env st -> factory st' = factory st -> resource_usage st' = resource_usage st ->
  consistent plan sim_time st -> consistent plan sim_time st'.
Proof. intros He Hf Hu. unfold consistent. now rewrite He, Hf, Hu. Qed.

Lemma consistent_process_raise (st : Simulator op) e :
  e <> RuntimeError ->
  consistent plan sim_time st -> consistent plan sim_time (process_raise st e).
Proof.
  intros He H. apply consistent_schedule; [exact H| |discriminate].
  destruct H as (_ & _ & Hn & _). unfold entry_ok. cbn.
  split; [lia|]. split; [now left|]. split; [lia | exact He].
Qed.

Lemma consistent_process_return (st : Simulator op) :
  consistent plan sim_time st -> consistent plan sim_time (process_return st).
Proof.
  intros H. apply consistent_schedule; [exact H| |discriminate].
  unfold entry_ok. cbn. split; [lia|]. split; [now left | exact I].
Qed.

Lemma consistent_trigger_get_loop (pending : list Acquiring) :
  forall st : Simulator op,
    consistent plan sim_time st ->
    Forall (acquiring_ok (resource_names (plan_factory plan)) (now (env st))) pending ->
    consistent plan sim_time (fst (trigger_get_loop pending st))
    /\ Forall (acquiring_ok (resource_names (plan_factory plan)) (now (env st)))
              (snd (trigger_get_loop pending st)).
Proof.
  induction pending as [|w rest IH]; intros st H Hp; simpl; [now split|].
  inversion Hp as [|? ? Hw Hrest]; subst.
  destruct (take_item _ _) as [[item items']|] eqn:Et.
  - apply (IH (schedule (set_items st items') (StoreGet item w) NORMAL 0)); [|exact Hrest].
    apply consistent_schedule; [| |discriminate].
    + destruct H as (Hq & Hn0 & Hn & He & Hg & Hpq & Hr). consistent_fields.
    + unfold entry_ok. cbn. rewrite Z.add_0_r. split; [lia|]. split; [now left|].
      split; [exact Hw | eapply take_item_group; eauto].
  - destruct (IH st H Hrest) as [H1 H2].
    destruct (trigger_get_loop rest st) as [st' still]. cbn in *.
    split; [exact H1 | constructor; assumption].
Qed.

Lemma consistent_trigger_get (st : Simulator op) :
  consistent plan sim_time st -> consistent plan sim_time (_trigger_get st).
Proof.
  intros H. unfold _trigger_get.
  assert (Hg : Forall (acquiring_ok (resource_names (plan_factory plan)) (now (env st)))
                      (get_queue (factory st))) by apply H.
  destruct (consistent_trigger_get_loop (get_queue (factory st)) st H Hg) as [H1 H2].
  destruct (trigger_get_loop_frame (get_queue (factory st)) st)
    as (_ & _ & _ & _ & _ & _ & Hn).
  destruct (trigger_get_loop _ _) as [st' still]. cbn in *.
  destruct H1 as (Hq & Hn0 & Hn1 & He & _ & Hp & Hr).
  unfold consistent. cbn. rewrite Hn in *. repeat (split; [assumption|]). assumption.
Qed.

Lemma consistent_trigger_put (st : Simulator op) :
  consistent plan sim_time st -> consistent plan sim_time (_trigger_put st).
Proof.
  intros H. unfold _trigger_put.
  destruct (put_queue (factory st)) as [|[item w] rest] eqn:E; [exact H|].
  destruct (_ <? _); [|exact H].
  assert (Hw : releasing_ok (resource_names (plan_factory plan)) sim_time w
               /\ Forall (fun x => releasing_ok (resource_names (plan_factory plan))
                                                sim_time (snd x)) rest).
  { destruct H as (_ & _ & _ & _ & _ & Hp & _). rewrite E in Hp.
    inversion Hp; subst. now split. }
  destruct Hw as [Hw Hrest].
  apply consistent_schedule; [| |discriminate].
  - destruct H as (Hq & Hn0 & Hn & He & Hg & _ & Hr). consistent_fields.
  - unfold entry_ok. cbn. rewrite Z.add_0_r. split; [lia|]. split; [now left | exact Hw].
Qed.

Lemma consistent_factory_get (st : Simulator op) w :
  consistent plan sim_time st ->
  acquiring_ok (resource_names (plan_factory plan)) (now (env st)) w ->
  consistent plan sim_time (factory_get st w).
Proof.
  intros (Hq & Hn0 & Hn & He & Hg & Hp & Hr) Hw. apply consistent_trigger_get.
  consistent_fields. split; [|split; assumption].
  apply Forall_app. split; [exact Hg | constructor; [exact Hw | constructor]].
Qed.

Lemma consistent_factory_put (st : Simulator op) item w :
  consistent plan sim_time st -> releasing_ok (resource_names (plan_factory plan)) sim_time w ->
  consistent plan sim_time (factory_put st item w).
Proof.
  intros (Hq & Hn0 & Hn & He & Hg & Hp & Hr) Hw. apply consistent_trigger_put.
  consistent_fields. split; [|assumption].
  apply Forall_app. split; [exact Hp | constructor; [exact Hw | constructor]].
Qed.

Lemma consistent_set_logger (st : Simulator op) lg :
  consistent plan sim_time st -> consistent plan sim_time (set_logger st lg).
Proof. apply consistent_same; reflexivity. Qed.

Lemma consistent_start_processing (st : Simulator op) a rt rs :
  consistent plan sim_time st ->
  0 <= rt -> rt <= now (env st) -> List.length rs = total_need (needs a) ->
  map resource_group rs = expected_groups (resource_names (plan_factory plan)) 0 (needs a) ->
  consistent plan sim_time (start_processing plan st a rt rs).
Proof.
  intros H Hrt0 Hrt Hlen Hgr. unfold start_processing.
  destruct (nth_error _ _); [|now apply consistent_process_raise].
  destruct (Z.ltb_spec (proc_time a) 0).
  - apply consistent_process_raise; [discriminate | now apply consistent_set_logger].
  - apply consistent_schedule; [now apply consistent_set_logger| |discriminate].
    unfold entry_ok, processing_ok. cbn.
    split; [lia|]. split; [now left|]. split; [|lia]. repeat split; assumption.
Qed.

Lemma consistent_acquire_loop (a : ActivityArgs) rt rest :
  forall (st : Simulator op) rs r,
    consistent plan sim_time st ->
    0 <= rt -> rt <= now (env st) ->
    (List.length rs + total_need rest)%nat = total_need (needs a) ->
    map resource_group rs ++ expected_groups (resource_names (plan_factory plan)) r rest
    = expected_groups (resource_names (plan_factory plan)) 0 (needs a) ->
    consistent plan sim_time (acquire_loop plan st a rt rs r rest).
Proof.
  unfold total_need.
  induction rest as [|need rest IH]; intros st rs r H Hrt0 Hrt Hlen Hgr; simpl in *.
  - apply consistent_start_processing; try assumption.
    + unfold total_need. lia.
    + now rewrite app_nil_r in Hgr.
  - destruct (Z.ltb_spec 0 need).
      destruct (nth_error (resource_names (plan_factory plan)) r) as [name|];
        [|now apply consistent_process_raise].
      apply consistent_factory_get; [exact H|].
      unfold acquiring_ok, total_need.
      cbn [acq_args acq_request_time acq_resources acq_remaining acq_rest acq_group acq_r].
      split; [assumption|]. split; [assumption|]. split; [lia|].
      rewrite <- Hgr.
      replace (1 + (Z.to_nat need - 1))%nat with (Z.to_nat need) by lia. reflexivity.
    + apply IH; try assumption. lia.
Qed.

Lemma consistent_resume_acquiring (st : Simulator op) w item :
  consistent plan sim_time st ->
  acquiring_ok (resource_names (plan_factory plan)) (now (env st)) w ->
  resource_group item = acq_group w ->
  consistent plan sim_time (resume_acquiring plan st w item).
Proof.
  intros H (Hr0 & Hr & Hlen & Hgr) Hitem. unfold resume_acquiring.
  destruct (acq_remaining w) as [|m] eqn:E.
  - apply consistent_acquire_loop; try assumption.
    + rewrite length_app. simpl List.length. lia.
    + rewrite <- Hgr, map_app, <- app_assoc. simpl. now rewrite Hitem.
  - apply consistent_factory_get; [exact H|].
    unfold acquiring_ok.
    cbn [acq_args acq_request_time acq_resources acq_remaining acq_rest acq_group acq_r].
    rewrite length_app. simpl List.length.
    split; [assumption|]. split; [assumption|]. split; [lia|].
    rewrite <- Hgr, map_app, <- app_assoc. simpl. now rewrite Hitem.
Qed.

Lemma consistent_release_loop (st : Simulator op) p t rest :
  consistent plan sim_time st ->
  processing_ok (resource_names (plan_factory plan)) p -> start_time p <= t -> t < sim_time ->
  consistent plan sim_time (release_loop st p t rest).
Proof.
  intros H Hp Ht HT. unfold release_loop. destruct rest as [|m rest].
  - apply consistent_process_return.
    destruct H as (Hq & Hn0 & Hn & He & Hg & Hpq & Hr).
    consistent_fields.
    apply Forall_dict_set; [exact Hr|].
    destruct Hp as (H1 & H2 & H3 & H4 & H5).
    unfold row_ok, complete_row. cbn. split; [reflexivity|]. split; [reflexivity|].
    right. exists (needs (args p)), (resources p), (request_time p), (start_time p), t.
    rewrite H3. repeat split; try assumption; lia.
  - apply consistent_factory_put; [exact H|]. unfold releasing_ok. cbn. auto.
Qed.

Lemma consistent_finish_processing (st : Simulator op) p :
  consistent plan sim_time st ->
  processing_ok (resource_names (plan_factory plan)) p -> start_time p <= now (env st) ->
  consistent plan sim_time (finish_processing plan st p).
Proof.
  intros H Hp Ht. unfold finish_processing.
  destruct (nth_error _ _); [|now apply consistent_process_raise].
  apply consistent_release_loop;
    [now apply consistent_set_logger | exact Hp | exact Ht | apply H].
Qed.

Lemma consistent_activity_processing (st : Simulator op) a :
  consistent plan sim_time st -> consistent plan sim_time (activity_processing plan st a).
Proof.
  intros H. unfold activity_processing.
  pose proof (constraint_check_frame plan st a) as F.
  destruct (constraint_check plan st a) as [[code|e] st1] eqn:Ec; cbn in F;
    destruct F as (Fe & Ff & Fu & _).
  - assert (H1 : consistent plan sim_time (set_logger st1 (set_failure_code (logger st1) code))).
    { eapply consistent_same; [| | |exact H]; cbn; assumption. }
    destruct code as [c|].
    + unfold reject. apply consistent_process_return.
      eapply consistent_same; [| | |exact H1]; reflexivity.
    + destruct H as (_ & Hn0 & _).
      apply consistent_acquire_loop; try assumption.
      * cbn. rewrite Fe. lia.
      * reflexivity.
      * reflexivity.
  - apply consistent_process_raise; [|eapply consistent_same; [| | |exact H]; assumption].
    intros ->. destruct (constraint_check_raises plan _ _ _ _ Ec) as [?|?]; discriminate.
Qed.

Lemma consistent_activity_generator (st : Simulator op) fin :
  consistent plan sim_time st -> consistent plan sim_time (activity_generator st fin).
Proof.
  intros H. unfold activity_generator.
  destruct fin; [now apply consistent_process_return|].
  destruct (send_next_activity op _ _) as [d o].
  assert (H1 : consistent plan sim_time (set_operator st o))
    by (eapply consistent_same; [| | |exact H]; reflexivity).
  assert (H2 : consistent plan sim_time
                 (if send_activity d
                  then schedule (set_operator st o)
                         (Initialize_activity
                            {| activity_id := d_activity_id d;
                               product_index := d_product_index d;
                               proc_time := d_proc_time d; needs := d_needs d |})
                         URGENT 0
                  else set_operator st o)
               /\ now (env (if send_activity d
                            then schedule (set_operator st o)
                                   (Initialize_activity
                                      {| activity_id := d_activity_id d;
                                         product_index := d_product_index d;
                                         proc_time := d_proc_time d; needs := d_needs d |})
                                   URGENT 0
                            else set_operator st o))
                  = now (env st)).
  { destruct (send_activity d); [|now split]. split; [|reflexivity].
    apply consistent_schedule; [exact H1| |discriminate].
    destruct H as (_ & _ & Hn & _). unfold entry_ok. cbn. rewrite Z.add_0_r.
    split; [lia|]. split; [right; right; exact Hn | exact I]. }
  destruct H2 as [H2 Hn2].
  destruct (Z.ltb_spec (delay d) 0); [now apply consistent_process_raise|].
  apply consistent_schedule; [exact H2| |reflexivity].
  unfold entry_ok. cbn. split; [lia|]. split; [now left | exact I].
Qed.

(** Taking the next event off the queue moves the clock forward, to a time
    before the horizon. *)
Lemma consistent_pop (st : Simulator op) (s : Scheduled) (q : list Scheduled) :
  consistent plan sim_time st -> queue (env st) = s :: q -> event s <> Until ->
  consistent plan sim_time (set_env st {| now := at_time s; queue := q; eid := eid (env st) |})
  /\ entry_ok (resource_names (plan_factory plan)) sim_time (now (env st)) s.
Proof.
  intros (Hq & Hn0 & Hn & He & Hg & Hp & Hr) E Hne. rewrite E in *.
  inversion He as [|? ? Hs Hrest]; subst. split; [|exact Hs].
  assert (Ht : at_time s < sim_time).
  { destruct Hs as (_ & [Hs|[Hs|Hs]] & _); [|contradiction|exact Hs].
    now apply (queue_ok_head_time sim_time s q). }
  assert (Hle : now (env st) <= at_time s) by apply Hs.
  unfold consistent. cbn.
  split; [eapply queue_ok_tail; eauto|]. split; [lia|]. split; [exact Ht|].
  split; [|split; [|split; assumption]].
  - destruct Hq as (Hsorted & _). apply StronglySorted_inv in Hsorted.
    destruct Hsorted as [_ Hhead]. rewrite Forall_forall in *.
    intros x Hx. specialize (Hrest x Hx). specialize (Hhead x Hx).
    apply key_leb_spec in Hhead. destruct Hrest as (_ & H2 & H3).
    split; [lia|]. split; assumption.
  - eapply Forall_impl; [|exact Hg]. intros w (H1 & H2 & H3).
    split; [assumption|]. split; [lia | assumption].
Qed.

Lemma consistent_step (st st' : Simulator op) :
  consistent plan sim_time st -> step plan st = Continue st' -> consistent plan sim_time st'.
Proof.
  intros H. unfold step. destruct (queue (env st)) as [|s q] eqn:E; [discriminate|].
  assert (P : event s <> Until ->
              consistent plan sim_time
                (set_env st {| now := at_time s; queue := q; eid := eid (env st) |})
              /\ entry_ok (resource_names (plan_factory plan)) sim_time (now (env st)) s)
    by (intros Hne; now apply consistent_pop).
  destruct (event s) as [|a|fin|p|item w|w|[e|]|] eqn:Ev; intros Hs;
    try discriminate Hs; apply Continue_inj in Hs; rewrite <- Hs; clear Hs st';
    destruct P as [H1 (_ & _ & Hs)]; try discriminate; rewrite ?Ev in Hs.
  - now apply consistent_activity_generator.
  - now apply consistent_activity_processing.
  - now apply consistent_activity_generator.
  - apply consistent_finish_processing; [exact H1 | apply Hs | apply Hs].
  - apply consistent_resume_acquiring; [now apply consistent_trigger_put| |apply Hs].
    assert (Hn : now (env (_trigger_put
                             (set_env st {| now := at_time s; queue := q;
                                            eid := eid (env st) |})))
                 = at_time s).
    { unfold _trigger_put. cbn. destruct (put_queue (factory st)) as [|[i x] r]; [reflexivity|].
      now destruct (_ <? _). }
    rewrite Hn. apply Hs.
  - destruct Hs as (Hp & Ht & HT).
    apply consistent_release_loop; [now apply consistent_trigger_get | assumption..].
  - exact H1.
Qed.

Lemma consistent_steps (n : nat) :
  forall st st' : Simulator op,
    consistent plan sim_time st -> steps plan n st = Some st' -> consistent plan sim_time st'.
Proof.
  induction n as [|n IH]; intros st st' H; simpl.
  - intros E. injection E as <-. exact H.
  - destruct (step plan st) as [st1| | |] eqn:E; try discriminate.
    apply IH. eapply consistent_step; eauto.
Qed.

End Consistent.

(** ** The run of [simulate] from a new simulator *)

Lemma write_sentinels_rows (names : list string) (sim_time : Z) (acts : list (nat * nat)) :
  forall usage,
    Forall (row_ok names sim_time) usage ->
    Forall (row_ok names sim_time) (write_sentinels acts usage).
Proof.
  induction acts as [|act rest IH]; intros usage H; simpl; [exact H|].
  apply IH, Forall_dict_set; [exact H|].
  unfold row_ok. cbn. split; [reflexivity|]. split; [reflexivity | now left].
Qed.

Lemma create_resources_raises (capacity : list nat) (names : list string) :
  forall r acc e, create_resources capacity names r acc = Raise e -> e = IndexError.
Proof.
  induction names as [|n names IH]; intros r acc e; simpl; [discriminate|].
  destruct (nth_error capacity r); [apply IH | congruence].
Qed.

Lemma simulate_setup_raises {op : Operator} (plan : ProductionPlan) (st : Simulator op)
  (sim_time seed : Z) (e : Exn) :
  simulate_setup plan st sim_time seed = Raise e -> e = ValueError \/ e = IndexError.
Proof.
  unfold simulate_setup. destruct (_ <=? 0); [intros H; left; congruence|].
  destruct (create_resources _ _ _ _) as [items_|e0] eqn:E.
  - destruct (sim_time <=? _); [intros H; left; congruence | discriminate].
  - apply create_resources_raises in E. intros H. right. congruence.
Qed.

Lemma py_max_raises (l : list xtime) (e : Exn) : py_max l = Raise e -> e = ValueError.
Proof. destruct l; simpl; [congruence | discriminate]. Qed.

Lemma lateness_loop_error (rows : list UsageRecord) (prods : list Product) :
  forall p lateness nr e,
    lateness_loop rows p prods lateness nr = Raise e -> e = ValueError.
Proof.
  induction prods as [|prod rest IH]; intros p lateness nr e; simpl; [discriminate|].
  destruct (py_max _) as [[f|]|e0] eqn:E; [apply IH | apply IH |].
  apply py_max_raises in E. congruence.
Qed.

Lemma process_results_raises (plan : ProductionPlan) (rows : list UsageRecord) (e : Exn) :
  process_results plan rows = Raise e -> e = KeyError \/ e = ValueError.
Proof.
  unfold process_results. destruct rows as [|row rows]; [intros H; left; congruence|].
  destruct (py_max _) as [m|e0] eqn:E.
  - destruct (lateness_loop _ _ _ _ _) as [[l u]|e1] eqn:El; [discriminate|].
    apply lateness_loop_error in El. intros H. right. congruence.
  - apply py_max_raises in E. intros H. right. congruence.
Qed.

Section FromNew.
Context {op : Operator}.
Variable plan : ProductionPlan.
Variable sim_time : Z.

Lemma consistent_setup (st st0 : Simulator op) (seed : Z) :
  Forall (row_ok (resource_names (plan_factory plan)) sim_time) (resource_usage st) ->
  simulate_setup plan st sim_time seed = Ok st0 ->
  consistent plan sim_time st0.
Proof.
  intros Hrows Hs. pose proof (setup_queue_ok plan st st0 sim_time seed Hs) as Hq.
  revert Hs. unfold simulate_setup. destruct (_ <=? 0); [discriminate|].
  destruct (create_resources _ _ _ _) as [items_|e]; [|discriminate].
  destruct (sim_time <=? _) eqn:El; [discriminate|].
  cbn in El. apply Z.leb_gt in El.
  intros E. injection E as <-.
  split; [exact Hq|]. unfold schedule.
  cbn [env set_env queue now eid factory set_factory resource_usage set_resource_usage
       set_operator get_queue put_queue].
  split; [lia|]. split; [assumption|].
  split; [|split; [constructor|split; [constructor|]]].
  - apply Forall_heappush. split; [|apply Forall_heappush; split; [|constructor]].
    + unfold entry_ok. cbn. split; [lia|]. split; [right; now left | lia].
    + unfold entry_ok. cbn. split; [lia|]. split; [right; right; assumption | exact I].
  - now apply write_sentinels_rows.
Qed.

Lemma consistent_new (o : OpState op) (st0 : Simulator op) (seed : Z) :
  simulate_setup plan (new_simulator o) sim_time seed = Ok st0 ->
  consistent plan sim_time st0.
Proof. apply consistent_setup. constructor. Qed.

(** When the [until] event is taken it is due at the horizon, and no event
    of a failed process is left in the queue. *)
Lemma consistent_stop (st1 st' : Simulator op) :
  consistent plan sim_time st1 -> step plan st1 = StopSimulation st' ->
  now (env st') = sim_time /\ failure_pending st1 = false
  /\ (forall name, held name st' = held name st1)
  /\ factory st' = factory st1 /\ resource_usage st' = resource_usage st1.
Proof.
  intros (Hq & _ & _ & He & _) Hs. revert Hs. unfold step, failure_pending, held.
  destruct (queue (env st1)) as [|s q] eqn:E; [discriminate|].
  destruct (event s) as [|a|fin|p|item w|w|[e|]|] eqn:Ev; try discriminate.
  intros H. injection H as <-. cbn.
  inversion He as [|? ? Hs Hrest]; subst.
  destruct Hs as (_ & _ & Hs). rewrite Ev in Hs.
  split; [exact Hs|]. rewrite Ev. cbn. split; [|now repeat split].
  destruct (existsb _ q) eqn:Ex; [|reflexivity]. exfalso.
  apply existsb_exists in Ex. destruct Ex as (x & Hx & Hf).
  destruct Hq as (Hsorted & _). apply StronglySorted_inv in Hsorted.
  destruct Hsorted as [_ Hhead]. rewrite Forall_forall in Hhead, Hrest.
  specialize (Hhead x Hx). apply key_leb_spec in Hhead.
  destruct (Hrest x Hx) as (_ & _ & Hm).
  destruct (event x) as [| | | | | |[e|]|]; try discriminate. lia.
Qed.

(** A run raises no RuntimeError: the schedule does not run empty, and no
    process fails with one. *)
Lemma consistent_run_raises (fuel : nat) :
  forall (st st' : Simulator op) e,
    consistent plan sim_time st -> run plan fuel st = Raised e st' -> e <> RuntimeError.
Proof.
  induction fuel as [|fuel IH]; intros st st' e H; simpl; [discriminate|].
  destruct (step plan st) as [st1|st1|e1 st1|st1] eqn:E; try discriminate.
  - apply IH. eapply consistent_step; eauto.
  - intros R. injection R as -> _. revert E. unfold step.
    destruct H as (_ & _ & _ & He & _).
    destruct (queue (env st)) as [|s q]; [discriminate|].
    inversion He as [|? ? Hs Hrest]; subst. destruct Hs as (_ & _ & Hs).
    destruct (event s) as [|a|fin|p|item w|w|[e0|]|]; try discriminate.
    intros R. injection R as -> _. apply Hs.
  - intros _. exfalso. revert E. unfold step.
    destruct H as ((_ & (u & Hu & _) & _) & _).
    destruct (queue (env st)) as [|s q]; [destruct Hu|].
    destruct (event s) as [|a|fin|p|item w|w|[e0|]|]; discriminate.
Qed.

Lemma consistent_run_stopped (fuel : nat) (st0 st' : Simulator op) :
  consistent plan sim_time st0 -> run plan fuel st0 = Stopped st' ->
  exists n st1, steps plan n st0 = Some st1 /\ consistent plan sim_time st1
                /\ step plan st1 = StopSimulation st'.
Proof.
  intros H Hr. destruct (run_Stopped plan fuel st0 st' Hr) as (n & st1 & Hn & Hs).
  exists n, st1. split; [exact Hn|]. split; [|exact Hs].
  eapply consistent_steps; eauto.
Qed.

Lemma setup_accounted (st st0 : Simulator op) (seed : Z) (name : string) :
  simulate_setup plan st sim_time seed = Ok st0 ->
  accounted name
    (group_capacity name (capacity (plan_factory plan))
                    (resource_names (plan_factory plan)) 0)
    st0.
Proof.
  unfold simulate_setup. destruct (_ <=? 0); [discriminate|].
  destruct (create_resources _ _ _ _) as [items_|e] eqn:E; [|discriminate].
  destruct (sim_time <=? _); [discriminate|].
  intros H. injection H as <-. right.
  apply (create_resources_count name) in E.
  change (count_group name []) with 0%nat in E.
  rewrite !held_schedule.
  change (items (factory (schedule (schedule ?s _ _ _) _ _ _))) with (items (factory s)).
  unfold held. cbn. lia.
Qed.

End FromNew.


(** X11.  For a horizon [sim_time] of at most 2^53, so that the Finish column
    of the data frame holds every finish time as it is, the makespan
    [simulate] returns, started on a new simulator, is a time from 0 up to
    but not including [sim_time]. *)
Theorem simulate_makespan_before_horizon {op : Operator} (plan : ProductionPlan)
  (fuel : nat) (o : OpState op) (sim_time seed : Z) (tbl : list UsageRecord)
  (makespan : xtime) (lateness : Z) (nr : nat)
  (Hhorizon : sim_time <= 2 ^ 53) :
  simulate plan fuel (new_simulator o) sim_time seed
  = Returned (tbl, (makespan, lateness, nr)) ->
  exists z, makespan = Fin z /\ 0 <= z /\ z < sim_time.
Proof.
  unfold simulate.
  destruct (simulate_setup _ _ _ _) as [st0|e] eqn:Es; [|discriminate].
  destruct (run plan fuel st0) as [st'| |] eqn:Er; try discriminate.
  destruct (process_results _ _) as [[[m l] u]|] eqn:Ep; [|discriminate].
  intros H. injection H as _ <- _ _.
  destruct (process_results_makespan _ _ _ _ _ Ep) as [[Hin _] Hfin].
  destruct (consistent_run_stopped plan sim_time fuel st0 st'
              (consistent_new plan sim_time o st0 seed Es) Er)
    as (n & st1 & _ & H1 & Hstop).
  destruct (consistent_stop plan sim_time st1 st' H1 Hstop) as (_ & _ & _ & _ & Hu).
  unfold finite_finishes in Hin. apply filter_In in Hin. destruct Hin as [Hin _].
  unfold table in Hin. rewrite Hu, map_map in Hin. apply in_map_iff in Hin.
  destruct Hin as ([k row] & Hf & Hin). cbn in Hf.
  destruct H1 as (_ & _ & _ & _ & _ & _ & Hrows). rewrite Forall_forall in Hrows.
  destruct (Hrows _ Hin) as (_ & _ & [Hs|Hc]); cbn in *.
  - rewrite Hs in Hf. cbn in Hf. congruence.
  - destruct Hc as (ns & rs & t1 & t2 & t3 & _ & _ & _ & _ & _ & _ & _ & H3 & ? & ? & ? & ?).
    exists t3. split; [congruence | lia].
Qed.

(** X12.  [simulate], started on a new simulator, raises no RuntimeError: the
    schedule never runs empty before the horizon, and what the run or the
    set-up or the result processing raise is an IndexError, a KeyError or a
    ValueError. *)
Theorem simulate_raises_no_RuntimeError {op : Operator} (plan : ProductionPlan)
  (fuel : nat) (o : OpState op) (sim_time seed : Z) :
  simulate plan fuel (new_simulator o) sim_time seed <> Threw RuntimeError.
Proof.
  unfold simulate.
  destruct (simulate_setup _ _ _ _) as [st0|e] eqn:Es.
  - destruct (run plan fuel st0) as [st'|e st'|] eqn:Er.
    + destruct (process_results _ _) as [t|e] eqn:Ep; [discriminate|].
      apply process_results_raises in Ep. destruct Ep; congruence.
    + intros H. injection H as ->.
      now apply (consistent_run_raises plan sim_time fuel st0 st' RuntimeError
                   (consistent_new plan sim_time o st0 seed Es)).
    + discriminate.
  - apply simulate_setup_raises in Es. destruct Es; congruence.
Qed.

(** X13.  While [simulate] runs, started on a new simulator, the clock stays
    from 0 up to but not including [sim_time] and no event is scheduled in
    the past; when the run is stopped by the [until] event the clock is at
    [sim_time]. *)
Theorem clock_within_horizon {op : Operator} (plan : ProductionPlan)
  (o : OpState op) (sim_time seed : Z) (st0 : Simulator op) :
  simulate_setup plan (new_simulator o) sim_time seed = Ok st0 ->
  (forall n st, steps plan n st0 = Some st ->
                0 <= now (env st) /\ now (env st) < sim_time
                /\ Forall (fun s => now (env st) <= at_time s) (queue (env st)))
  /\ (forall fuel st', run plan fuel st0 = Stopped st' -> now (env st') = sim_time).
Proof.
  intros Hs. pose proof (consistent_new plan sim_time o st0 seed Hs) as H0. split.
  - intros n st Hn.
    destruct (consistent_steps plan sim_time n st0 st H0 Hn) as (_ & Hn0 & Hn1 & He & _).
    split; [exact Hn0|]. split; [exact Hn1|].
    eapply Forall_impl; [|exact He]. intros s Hx. apply Hx.
  - intros fuel st' Hr.
    destruct (consistent_run_stopped plan sim_time fuel st0 st' H0 Hr)
      as (n & st1 & _ & H1 & Hstop).
    apply (consistent_stop plan sim_time st1 st' H1 Hstop).
Qed.

(** X14.  When a run of [simulate], started on a new simulator, is stopped by the
    [until] event, the machines of every group are all accounted for: those
    in the store and those held by the activities still in flight add up to
    the capacity declared for the groups of that name. *)
Theorem machines_accounted_at_horizon {op : Operator} (plan : ProductionPlan)
  (fuel : nat) (o : OpState op) (sim_time seed : Z) (st0 st' : Simulator op)
  (name : string) :
  simulate_setup plan (new_simulator o) sim_time seed = Ok st0 ->
  run plan fuel st0 = Stopped st' ->
  (count_group name (items (factory st')) + held name st')%nat
  = group_capacity name (capacity (plan_factory plan))
                   (resource_names (plan_factory plan)) 0.
Proof.
  intros Hs Hr.
  destruct (consistent_run_stopped plan sim_time fuel st0 st'
              (consistent_new plan sim_time o st0 seed Hs) Hr)
    as (n & st1 & Hn & H1 & Hstop).
  destruct (consistent_stop plan sim_time st1 st' H1 Hstop) as (_ & Hf & Hh & Hfa & _).
  rewrite Hh, Hfa.
  destruct (accounted_steps plan name n st0 st1 _
              (setup_accounted plan sim_time _ st0 seed name Hs) Hn) as [A|A];
    [congruence | exact A].
Qed.


Lemma simulate_makespan_before_horizon_witness :
  exists z, Fin 4 = Fin z /\ 0 <= z /\ z < 20.
Proof.
  apply (simulate_makespan_before_horizon plan_two_products 100
           (script decisions_two_products) 20 1 (table st_end_two_products) (Fin 4) 1 1%nat).
  - lia.
  - vm_compute. reflexivity.
Defined.

Lemma clock_within_horizon_witness :
  (forall n st, steps plan_two_products n st0_two_products = Some st ->
                0 <= now (env st) /\ now (env st) < 20
                /\ Forall (fun s => now (env st) <= at_time s) (queue (env st)))
  /\ (forall fuel st', run plan_two_products fuel st0_two_products = Stopped st' ->
                       now (env st') = 20).
Proof.
  apply (clock_within_horizon plan_two_products (script decisions_two_products) 20 1
           st0_two_products).
  vm_compute. reflexivity.
Defined.

Lemma machines_accounted_at_horizon_witness :
  (count_group "A" (items (factory st_end_two_products))
   + held "A" st_end_two_products)%nat
  = group_capacity "A" (capacity (plan_factory plan_two_products))
                   (resource_names (plan_factory plan_two_products)) 0.
Proof.
  apply (machines_accounted_at_horizon plan_two_products 100
           (script decisions_two_products) 20 1 st0_two_products st_end_two_products "A").
  - vm_compute. reflexivity.
  - vm_compute. reflexivity.
Defined.


(** ** The clash counter *)

Section Clashes.
Context {op : Operator}.
Variable plan : ProductionPlan.

Lemma clashes_trigger_put (st : Simulator op) :
  nr_clashes (_trigger_put st) = nr_clashes st.
Proof.
  unfold _trigger_put. destruct (put_queue (factory st)) as [|[item w] rest]; [reflexivity|].
  now destruct (_ <? _).
Qed.

Lemma clashes_factory_get (st : Simulator op) w :
  nr_clashes (factory_get st w) = nr_clashes st.
Proof.
  unfold factory_get.
  destruct (trigger_get_frame (set_get_queue st (get_queue (factory st) ++ [w])))
    as (_ & _ & H & _).
  exact H.
Qed.

Lemma clashes_factory_put (st : Simulator op) item w :
  nr_clashes (factory_put st item w) = nr_clashes st.
Proof. unfold factory_put. now rewrite clashes_trigger_put. Qed.

Lemma clashes_start_processing (st : Simulator op) a rt rs :
  nr_clashes (start_processing plan st a rt rs) = nr_clashes st.
Proof.
  unfold start_processing. destruct (nth_error _ _); [|reflexivity].
  now destruct (_ <? _).
Qed.

Lemma clashes_acquire_loop (a : ActivityArgs) rt rest :
  forall (st : Simulator op) rs r,
    nr_clashes (acquire_loop plan st a rt rs r rest) = nr_clashes st.
Proof.
  induction rest as [|need rest IH]; intros st rs r; simpl.
  - apply clashes_start_processing.
  - destruct (0 <? need); [|apply IH].
    destruct (nth_error _ _); [apply clashes_factory_get | reflexivity].
Qed.

Lemma clashes_resume_acquiring (st : Simulator op) w item :
  nr_clashes (resume_acquiring plan st w item) = nr_clashes st.
Proof.
  unfold resume_acquiring. destruct (acq_remaining w).
  - apply clashes_acquire_loop.
  - apply clashes_factory_get.
Qed.

Lemma clashes_release_loop (st : Simulator op) p t rest :
  nr_clashes (release_loop st p t rest) = nr_clashes st.
Proof.
  unfold release_loop. destruct rest; [reflexivity | apply clashes_factory_put].
Qed.

Lemma clashes_finish_processing (st : Simulator op) p :
  nr_clashes (finish_processing plan st p) = nr_clashes st.
Proof.
  unfold finish_processing. destruct (nth_error _ _); [|reflexivity].
  now rewrite clashes_release_loop.
Qed.

Lemma clashes_activity_generator (st : Simulator op) fin :
  nr_clashes (activity_generator st fin) = nr_clashes st.
Proof.
  unfold activity_generator. destruct fin; [reflexivity|].
  destruct (send_next_activity op _ _) as [d o].
  destruct (delay d <? 0); destruct (send_activity d); reflexivity.
Qed.

Lemma clashes_activity_processing (st : Simulator op) a :
  nr_clashes (activity_processing plan st a)
  = (match fst (constraint_check plan st a) with
     | Ok (Some _) => 1
     | _ => 0
     end + nr_clashes st)%nat.
Proof.
  unfold activity_processing.
  pose proof (constraint_check_frame plan st a) as F.
  destruct (constraint_check plan st a) as [[[c|]|e] st1]; cbn in F;
    destruct F as (_ & _ & _ & Fn & _); cbn [fst].
  - cbn. now rewrite Fn.
  - rewrite clashes_acquire_loop. cbn. exact Fn.
  - cbn. exact Fn.
Qed.

Lemma clashes_step (st st' : Simulator op) :
  step plan st = Continue st' ->
  nr_clashes st' = ((if rejecting plan st then 1 else 0) + nr_clashes st)%nat.
Proof.
  unfold step, rejecting. destruct (queue (env st)) as [|s q]; [discriminate|].
  destruct (event s) as [|a|fin|p|item w|w|[e|]|]; intros Hs;
    try discriminate Hs; apply Continue_inj in Hs; rewrite <- Hs; clear Hs st'.
  - now rewrite clashes_activity_generator.
  - rewrite clashes_activity_processing.
    destruct (fst _) as [[c|]|e]; reflexivity.
  - now rewrite clashes_activity_generator.
  - now rewrite clashes_finish_processing.
  - now rewrite clashes_resume_acquiring, clashes_trigger_put.
  - unfold resume_releasing. rewrite clashes_release_loop.
    now destruct (trigger_get_frame
                    (set_env st {| now := at_time s; queue := q; eid := eid (env st) |}))
      as (_ & _ & H & _).
  - reflexivity.
Qed.

(** X15.  [nr_clashes] counts the rejected activities: over any number of events
    it grows by exactly the number of events in which the process of an
    activity starts and its constraint check produces a failure code.  No
    other event changes it, and it never goes down. *)
Theorem clashes_count_rejections (n : nat) :
  forall st st' : Simulator op,
    steps plan n st = Some st' ->
    nr_clashes st' = (nr_clashes st + rejections plan n st)%nat.
Proof.
  induction n as [|n IH]; intros st st'; simpl.
  - intros H. injection H as <-. lia.
  - destruct (step plan st) as [st1| | |] eqn:E; try discriminate.
    intros H. rewrite (IH _ _ H), (clashes_step _ _ E). lia.
Qed.

End Clashes.

(** The activity that asks for three machines of a group of two is
    rejected in the second event of its run. *)
Lemma clashes_count_rejections_witness :
  let ds := [dispatch 1 0 0 4 [3]] in
  nr_clashes (after_events plan_min_lag 3 (script ds) 20)
  = Nat.add (nr_clashes (after_events plan_min_lag 0 (script ds) 20))
            (rejections plan_min_lag 3 (after_events plan_min_lag 0 (script ds) 20)).
Proof.
  intros ds. apply (clashes_count_rejections plan_min_lag 3).
  vm_compute. reflexivity.
Defined.


(** ** Puts do not wait *)

Lemma take_item_length (group : string) (l l' : list Machine) (item : Machine) :
  take_item group l = Some (item, l') -> List.length l = S (List.length l').
Proof.
  revert l'. induction l as [|m l IH]; intros l'; simpl; [discriminate|].
  destruct (String.eqb (resource_group m) group).
  - intros H. now injection H as <- <-.
  - destruct (take_item group l) as [[x rest']|]; [|discriminate].
    intros H. injection H as <- <-. simpl. now rewrite (IH rest').
Qed.

Section Room.
Context {op : Operator}.
Variable plan : ProductionPlan.
Variable cap : Z.

Lemma room_weaken (st : Simulator op) c c' :
  (c' <= c)%nat -> room cap c st -> room cap c' st.
Proof. intros Hc (H1 & Hk & H2). split; [exact H1|]. split; [exact Hk | lia]. Qed.

Lemma room_schedule (st : Simulator op) c ev prio dl :
  room cap (c + held_count ev) st -> room cap c (schedule st ev prio dl).
Proof.
  intros (H1 & Hk & H2). split; [exact H1|]. split; [exact Hk|].
  unfold in_flight, schedule in *.
  cbn [env set_env queue factory]. rewrite sum_of_heappush. cbn [event]. lia.
Qed.

Lemma room_process_raise (st : Simulator op) c e :
  room cap c st -> room cap c (process_raise st e).
Proof.
  intros H. apply room_schedule. cbn. eapply room_weaken; [|exact H]. lia.
Qed.

Lemma room_process_return (st : Simulator op) c :
  room cap c st -> room cap c (process_return st).
Proof.
  intros H. apply room_schedule. cbn. eapply room_weaken; [|exact H]. lia.
Qed.

Lemma room_same (st st' : Simulator op) c :
  env st' = env st -> factory st' = factory st -> room cap c st -> room cap c st'.
Proof. intros He Hf. unfold room, in_flight. now rewrite He, Hf. Qed.

Lemma trigger_get_loop_length (pending : list Acquiring) :
  forall st : Simulator op,
    (List.length (items (factory (fst (trigger_get_loop pending st))))
     + sum_of (fun s => held_count (event s))
              (queue (env (fst (trigger_get_loop pending st))))
     + sum_of (fun w => List.length (acq_resources w))
              (snd (trigger_get_loop pending st))
     = List.length (items (factory st))
       + sum_of (fun s => held_count (event s)) (queue (env st))
       + sum_of (fun w => List.length (acq_resources w)) pending)%nat.
Proof.
  induction pending as [|w rest IH]; intros st; simpl; [reflexivity|].
  destruct (take_item _ _) as [[item items']|] eqn:E.
  - rewrite (IH (schedule (set_items st items') (StoreGet item w) NORMAL 0)).
    unfold schedule. cbn [env set_env queue factory set_items set_factory items].
    rewrite sum_of_heappush. cbn [event held_count].
    rewrite (take_item_length _ _ _ _ E). lia.
  - specialize (IH st). destruct (trigger_get_loop rest st) as [st' still].
    cbn in *. lia.
Qed.

Lemma room_trigger_get (st : Simulator op) c :
  room cap c st -> room cap c (_trigger_get st).
Proof.
  intros (H1 & Hk & H2). unfold _trigger_get.
  pose proof (trigger_get_loop_length (get_queue (factory st)) st) as L.
  destruct (trigger_get_loop_frame (get_queue (factory st)) st)
    as (_ & _ & _ & _ & Hp & Hc & _).
  destruct (trigger_get_loop _ _) as [st' still]. cbn in *.
  unfold room, in_flight in *. cbn. rewrite Hp, Hc.
  split; [exact H1|]. split; [exact Hk | lia].
Qed.

Lemma room_trigger_put (st : Simulator op) c :
  room cap c st -> _trigger_put st = st.
Proof. intros [H _]. unfold _trigger_put. now rewrite H. Qed.

Lemma room_factory_get (st : Simulator op) c w :
  room cap (c + List.length (acq_resources w)) st -> room cap c (factory_get st w).
Proof.
  intros (H1 & Hk & H2). apply room_trigger_get. unfold room, in_flight in *. cbn.
  split; [exact H1|]. split; [exact Hk|]. rewrite sum_of_app. cbn. lia.
Qed.

Lemma room_factory_put (st : Simulator op) c item w :
  room cap (c + 1 + List.length (rel_rest w)) st -> room cap c (factory_put st item w).
Proof.
  intros (H1 & Hk & H2). unfold factory_put, _trigger_put.
  cbn [factory set_put_queue set_factory put_queue items store_capacity].
  rewrite H1. cbn [app].
  destruct (Z.ltb_spec (Z.of_nat (List.length (items (factory st))))
                       (store_capacity (factory st))); [|exfalso; lia].
  apply room_schedule. unfold room, in_flight in *. cbn.
  split; [reflexivity|]. split; [exact Hk|]. rewrite length_app. cbn. lia.
Qed.

Lemma room_start_processing (st : Simulator op) c a rt rs :
  room cap (c + List.length rs) st -> room cap c (start_processing plan st a rt rs).
Proof.
  intros H. assert (H0 : room cap c st) by (eapply room_weaken; [|exact H]; lia).
  unfold start_processing.
  destruct (nth_error _ _); [|now apply room_process_raise].
  destruct (_ <? _).
  - apply room_process_raise. eapply room_same; [| |exact H0]; reflexivity.
  - apply room_schedule. cbn. eapply room_same; [| |exact H]; reflexivity.
Qed.

Lemma room_acquire_loop (a : ActivityArgs) rt rs rest :
  forall (st : Simulator op) c r,
    room cap (c + List.length rs) st -> room cap c (acquire_loop plan st a rt rs r rest).
Proof.
  induction rest as [|need rest IH]; intros st c r H; simpl.
  - now apply room_start_processing.
  - destruct (0 <? need); [|now apply IH].
    destruct (nth_error _ _) as [name|].
    + now apply (room_factory_get st c
                   {| acq_args := a; acq_request_time := rt; acq_resources := rs;
                      acq_group := name; acq_remaining := Z.to_nat need - 1;
                      acq_r := S r; acq_rest := rest |}).
    + apply room_process_raise. eapply room_weaken; [|exact H]. lia.
Qed.

Lemma room_resume_acquiring (st : Simulator op) c w item :
  room cap (c + (List.length (acq_resources w) + 1)) st ->
  room cap c (resume_acquiring plan st w item).
Proof.
  intros H. unfold resume_acquiring. destruct (acq_remaining w).
  - apply room_acquire_loop. now rewrite length_app.
  - apply room_factory_get. cbn. now rewrite length_app.
Qed.

Lemma room_release_loop (st : Simulator op) c p t rest :
  room cap (c + List.length rest) st -> room cap c (release_loop st p t rest).
Proof.
  intros H. unfold release_loop. destruct rest as [|m rest].
  - apply room_process_return. eapply room_same; [| |eapply room_weaken; [|exact H]];
      [reflexivity | reflexivity | lia].
  - apply room_factory_put. cbn in *. eapply room_weaken; [|exact H]. lia.
Qed.

Lemma room_finish_processing (st : Simulator op) c p :
  room cap (c + List.length (resources p)) st -> room cap c (finish_processing plan st p).
Proof.
  intros H. unfold finish_processing.
  destruct (nth_error _ _).
  - apply room_release_loop. eapply room_same; [| |exact H]; reflexivity.
  - apply room_process_raise. eapply room_weaken; [|exact H]. lia.
Qed.

Lemma room_activity_processing (st : Simulator op) c a :
  room cap c st -> room cap c (activity_processing plan st a).
Proof.
  intros H. unfold activity_processing.
  pose proof (constraint_check_frame plan st a) as F.
  destruct (constraint_check plan st a) as [[code|e] st1]; cbn in F;
    destruct F as (Fe & Ff & _).
  - assert (H1 : room cap c (set_logger st1 (set_failure_code (logger st1) code)))
      by (eapply room_same; [| |exact H]; assumption).
    destruct code as [k|].
    + unfold reject. apply room_process_return.
      eapply room_same; [| |exact H1]; reflexivity.
    + apply room_acquire_loop. cbn. eapply room_weaken; [|exact H1]. lia.
  - apply room_process_raise. eapply room_same; [| |exact H]; assumption.
Qed.

Lemma room_activity_generator (st : Simulator op) c fin :
  room cap c st -> room cap c (activity_generator st fin).
Proof.
  intros H. unfold activity_generator. destruct fin; [now apply room_process_return|].
  destruct (send_next_activity op _ _) as [d o].
  assert (H1 : room cap c (set_operator st o)) by (eapply room_same; [| |exact H]; reflexivity).
  assert (H2 : room cap c (if send_activity d
                       then schedule (set_operator st o)
                              (Initialize_activity
                                 {| activity_id := d_activity_id d;
                                    product_index := d_product_index d;
                                    proc_time := d_proc_time d; needs := d_needs d |})
                              URGENT 0
                       else set_operator st o)).
  { destruct (send_activity d); [|exact H1]. apply room_schedule. cbn.
    eapply room_weaken; [|exact H1]. lia. }
  destruct (_ <? _); [now apply room_process_raise|].
  apply room_schedule. cbn. eapply room_weaken; [|exact H2]. lia.
Qed.

(** Taking an event off the queue makes room for the machines its process
    holds. *)
Lemma room_pop (st : Simulator op) (s : Scheduled) (q : list Scheduled) :
  queue (env st) = s :: q -> room cap 0 st ->
  room cap (held_count (event s))
       (set_env st {| now := at_time s; queue := q; eid := eid (env st) |}).
Proof.
  intros E (H1 & Hk & H2). split; [exact H1|]. split; [exact Hk|].
  unfold in_flight in *. rewrite E in H2. cbn in *. lia.
Qed.

Lemma room_step (st st' : Simulator op) :
  room cap 0 st -> step plan st = Continue st' -> room cap 0 st'.
Proof.
  intros H. unfold step. destruct (queue (env st)) as [|s q] eqn:E; [discriminate|].
  pose proof (room_pop st s q E H) as P.
  destruct (event s) as [|a|fin|p|item w|w|[e|]|]; intros Hs;
    try discriminate Hs; apply Continue_inj in Hs; rewrite <- Hs; clear Hs st'.
  - now apply room_activity_generator.
  - now apply room_activity_processing.
  - now apply room_activity_generator.
  - now apply room_finish_processing.
  - rewrite (room_trigger_put _ _ P). now apply room_resume_acquiring.
  - unfold resume_releasing. apply room_release_loop. now apply room_trigger_get.
  - exact P.
Qed.

Lemma room_steps (n : nat) :
  forall st st' : Simulator op,
    room cap 0 st -> steps plan n st = Some st' -> room cap 0 st'.
Proof.
  induction n as [|n IH]; intros st st' H; simpl.
  - intros E. injection E as <-. exact H.
  - destruct (step plan st) as [st1| | |] eqn:E; try discriminate.
    apply IH. eapply room_step; eauto.
Qed.

End Room.

Lemma create_resources_length (capacity : list nat) (names : list string) :
  forall r acc items_,
    create_resources capacity names r acc = Ok items_ ->
    (List.length items_ <= List.length acc + list_sum (skipn r capacity))%nat.
Proof.
  induction names as [|n names IH]; intros r acc items_; simpl.
  - intros H. injection H as <-. lia.
  - destruct (nth_error capacity r) as [c|] eqn:E; [|discriminate].
    intros H. apply IH in H. rewrite length_app, length_map, length_seq in H.
    assert (S : skipn r capacity = c :: skipn (S r) capacity).
    { clear -E. revert r E. induction capacity as [|x l IHl]; intros [|r] E;
        try discriminate; simpl in *.
      - now injection E as ->.
      - now apply IHl. }
    rewrite S.
    change (list_sum (c :: skipn (Datatypes.S r) capacity))
      with (c + list_sum (skipn (Datatypes.S r) capacity))%nat.
    lia.
Qed.

Lemma setup_room {op : Operator} (plan : ProductionPlan) (st st0 : Simulator op)
  (sim_time seed : Z) :
  simulate_setup plan st sim_time seed = Ok st0 ->
  room (Z.of_nat (list_sum (capacity (plan_factory plan)))) 0 st0.
Proof.
  unfold simulate_setup. destruct (_ <=? 0); [discriminate|].
  destruct (create_resources _ _ _ _) as [items_|e] eqn:E; [|discriminate].
  destruct (sim_time <=? _); [discriminate|].
  intros H. injection H as <-. apply create_resources_length in E.
  apply room_schedule, room_schedule. unfold room, in_flight.
  cbn [factory set_factory put_queue store_capacity items get_queue env set_env queue
       set_resource_usage set_operator sum_of held_count List.length skipn Nat.add] in *.
  split; [reflexivity|]. split; [reflexivity | lia].
Qed.

(** X16.  After any number of events of a run of [simulate], no put is waiting
    and the store holds no more machines than its capacity, the sum of the
    capacities of the plan's factory: every machine an activity puts back is
    taken by the store in the same event, so the release of the resources
    takes no simulated time. *)
Theorem store_never_overfull {op : Operator} (plan : ProductionPlan)
  (st st0 st1 : Simulator op) (sim_time seed : Z) (n : nat) :
  simulate_setup plan st sim_time seed = Ok st0 ->
  steps plan n st0 = Some st1 ->
  put_queue (factory st1) = []
  /\ store_capacity (factory st1) = Z.of_nat (list_sum (capacity (plan_factory plan)))
  /\ (List.length (items (factory st1)) <= list_sum (capacity (plan_factory plan)))%nat.
Proof.
  intros Hs Hn.
  destruct (room_steps plan _ n st0 st1 (setup_room plan st st0 sim_time seed Hs) Hn)
    as (H1 & H2 & H3).
  split; [exact H1|]. split; [exact H2 | lia].
Qed.

Lemma store_never_overfull_witness :
  put_queue (factory (after_events plan_two_products 8 (script decisions_two_products) 20))
  = []
  /\ store_capacity
       (factory (after_events plan_two_products 8 (script decisions_two_products) 20))
     = Z.of_nat (list_sum (capacity (plan_factory plan_two_products)))
  /\ (List.length
        (items (factory (after_events plan_two_products 8
                           (script decisions_two_products) 20)))
      <= list_sum (capacity (plan_factory plan_two_products)))%nat.
Proof.
  apply (store_never_overfull plan_two_products
           (new_simulator (script decisions_two_products)) st0_two_products
           (after_events plan_two_products 8 (script decisions_two_products) 20) 20 1 8).
  - vm_compute. reflexivity.
  - vm_compute. reflexivity.
Defined.


(** ** A negative delay *)

Section NegativeDelay.
Context {op : Operator}.
Variable plan : ProductionPlan.

Lemma next_is_schedule (st : Simulator op) f ev dl :
  next_is f st -> 0 <= dl -> next_is f (schedule st ev NORMAL dl).
Proof.
  intros (q & Hq & Ht & Hp & Hs) Hdl. unfold next_is, schedule.
  cbn [env set_env queue now eid]. rewrite Hq. cbn [heappush].
  destruct (key_ltb _ f) eqn:E.
  - apply key_ltb_spec in E. cbn [at_time priority seq] in E. lia.
  - eexists. split; [reflexivity|]. split; [exact Ht|]. split; [exact Hp | lia].
Qed.

Lemma next_is_same (st st' : Simulator op) f :
  env st' = env st -> next_is f st -> next_is f st'.
Proof. intros He. unfold next_is. now rewrite He. Qed.

Lemma next_is_trigger_get_loop (f : Scheduled) (pending : list Acquiring) :
  forall st : Simulator op,
    next_is f st -> next_is f (fst (trigger_get_loop pending st)).
Proof.
  induction pending as [|w rest IH]; intros st H; simpl; [exact H|].
  destruct (take_item _ _) as [[item items']|].
  - apply IH. apply next_is_schedule; [|lia].
    eapply next_is_same; [|exact H]. reflexivity.
  - specialize (IH st H). now destruct (trigger_get_loop rest st).
Qed.

Lemma next_is_factory_get (st : Simulator op) f w :
  next_is f st -> next_is f (factory_get st w).
Proof.
  intros H. unfold factory_get, _trigger_get.
  pose proof (next_is_trigger_get_loop f
                (get_queue (factory (set_get_queue st (get_queue (factory st) ++ [w]))))
                (set_get_queue st (get_queue (factory st) ++ [w]))) as L.
  destruct (trigger_get_loop _ _) as [st' still]. cbn [fst] in L.
  eapply next_is_same; [|apply L]; [reflexivity|].
  eapply next_is_same; [|exact H]. reflexivity.
Qed.

Lemma next_is_start_processing (st : Simulator op) f a rt rs :
  next_is f st -> next_is f (start_processing plan st a rt rs).
Proof.
  intros H. unfold start_processing.
  destruct (nth_error _ _); [|apply next_is_schedule; [exact H | lia]].
  destruct (Z.ltb_spec (proc_time a) 0).
  - apply next_is_schedule; [|lia]. eapply next_is_same; [|exact H]. reflexivity.
  - apply next_is_schedule; [|assumption]. eapply next_is_same; [|exact H]. reflexivity.
Qed.

Lemma next_is_acquire_loop (f : Scheduled) (a : ActivityArgs) rt rest :
  forall (st : Simulator op) rs r,
    next_is f st -> next_is f (acquire_loop plan st a rt rs r rest).
Proof.
  induction rest as [|need rest IH]; intros st rs r H; simpl.
  - now apply next_is_start_processing.
  - destruct (0 <? need); [|now apply IH].
    destruct (nth_error _ _).
    + now apply next_is_factory_get.
    + apply next_is_schedule; [exact H | lia].
Qed.

(** Whatever the process of an activity does in the event that starts it,
    it is scheduled after the event that is next. *)
Lemma next_is_activity_processing (st : Simulator op) f a :
  next_is f st -> next_is f (activity_processing plan st a).
Proof.
  intros H. unfold activity_processing.
  pose proof (constraint_check_frame plan st a) as F.
  destruct (constraint_check plan st a) as [[code|e] st1]; cbn in F;
    destruct F as (Fe & _).
  - assert (H1 : next_is f (set_logger st1 (set_failure_code (logger st1) code)))
      by (eapply next_is_same; [|exact H]; exact Fe).
    destruct code as [c|].
    + unfold reject, process_return. apply next_is_schedule; [|lia].
      eapply next_is_same; [|exact H1]. reflexivity.
    + now apply next_is_acquire_loop.
  - apply next_is_schedule; [|lia]. eapply next_is_same; [|exact H]. exact Fe.
Qed.

Lemma heappush_before (x y : Scheduled) (q : list Scheduled) :
  key_ltb x y = true -> heappush x (y :: q) = x :: y :: q.
Proof. simpl. now intros ->. Qed.

Lemma heappush_after (x y : Scheduled) (q : list Scheduled) :
  key_ltb x y = false -> heappush x (y :: q) = y :: heappush x q.
Proof. simpl. now intros ->. Qed.

(** The first pass of the generator when the answer carries a negative
    delay: the event of its failure is scheduled, behind the start of the
    activity's process when one is dispatched. *)
Lemma first_pass_negative_delay (st : Simulator op) (u : Scheduled) :
  queue (env st) = [u] -> now (env st) = 0 -> eid (env st) = 2%nat ->
  0 < at_time u ->
  delay (fst (send_next_activity op (operator st) 0)) < 0 ->
  let st1 := activity_generator st false in
  queue (env st1)
  = [ {| at_time := 0; priority := NORMAL; seq := 2;
         event := ProcessEvent (Some ValueError) |}; u ]
  \/ exists a,
       queue (env st1)
       = [ {| at_time := 0; priority := URGENT; seq := 2;
              event := Initialize_activity a |};
           {| at_time := 0; priority := NORMAL; seq := 3;
              event := ProcessEvent (Some ValueError) |}; u ]
       /\ eid (env st1) = 4%nat.
Proof.
  intros Hq Hn He Ht Hd. unfold activity_generator. rewrite Hn.
  destruct (send_next_activity op (operator st) 0) as [d o]. cbn [fst] in Hd.
  destruct (Z.ltb_spec (delay d) 0); [|lia].
  destruct (send_activity d); [right; eexists|left];
    unfold process_raise, schedule;
    cbn [env set_env set_operator queue now eid]; rewrite Hq, Hn, He.
  - rewrite (heappush_before _ u) by (apply key_ltb_spec; cbn; lia).
    rewrite heappush_after by reflexivity.
    rewrite (heappush_before _ u) by (apply key_ltb_spec; cbn; lia).
    split; reflexivity.
  - rewrite (heappush_before _ u) by (apply key_ltb_spec; cbn; lia).
    reflexivity.
Qed.

(** X17.  When the first answer of the operator carries a negative delay,
    [simulate] raises ValueError, whether or not the answer dispatches an
    activity and whatever that activity does: the time-out of the generator
    fails before any event the activity's process schedules. *)
Theorem negative_first_delay_raises (st st0 : Simulator op) (sim_time seed : Z)
  (Hsetup : simulate_setup plan st sim_time seed = Ok st0)
  (Hdelay : delay (fst (send_next_activity op (operator st0) 0)) < 0) :
  forall fuel, (3 <= fuel)%nat -> simulate plan fuel st sim_time seed = Threw ValueError.
Proof.
  intros fuel Hfuel. unfold simulate. rewrite Hsetup.
  assert (H0 : exists u, queue (env st0)
                         = [ {| at_time := 0; priority := URGENT; seq := 0;
                                event := Initialize_generator |}; u ]
                         /\ event u = Until /\ 0 < at_time u /\ now (env st0) = 0
                         /\ eid (env st0) = 2%nat).
  { revert Hsetup. unfold simulate_setup. destruct (_ <=? 0); [discriminate|].
    destruct (create_resources _ _ _ _); [|discriminate]. cbn.
    destruct (Z.leb_spec sim_time 0); [discriminate|].
    intros E. injection E as <-. cbn. unfold key_ltb. cbn.
    destruct (Z.ltb_spec (sim_time - 0) 0); [lia|].
    destruct (Z.eqb_spec (sim_time - 0) 0); [lia|]. cbn.
    eexists. split; [reflexivity|]. cbn. repeat split. lia. }
  destruct H0 as (u & Hq & Hu & Ht & Hn & He).
  destruct fuel as [|[|[|fuel]]]; try lia. clear Hfuel.
  assert (R : exists st', run plan (S (S (S fuel))) st0 = Raised ValueError st');
    [|destruct R as (st' & ->); reflexivity].
  cbn [run]. unfold step at 1. rewrite Hq. cbn [event at_time].
  destruct (first_pass_negative_delay
              (set_env st0 {| now := 0; queue := [u]; eid := eid (env st0) |}) u
              eq_refl eq_refl He Ht Hdelay) as [G|(a & G & Ge)].
  - unfold step at 1. rewrite G. cbn [event]. eauto.
  - unfold step at 1. rewrite G. cbn [event at_time].
    match goal with
    | |- context [activity_processing plan ?s a] =>
        destruct (next_is_activity_processing s
                    {| at_time := 0; priority := NORMAL; seq := 3;
                       event := ProcessEvent (Some ValueError) |} a)
          as (q & Hq' & _)
    end.
    { eexists. cbn [env set_env queue now eid at_time priority seq].
      split; [reflexivity|]. rewrite Ge. repeat split. lia. }
    unfold step at 1. rewrite Hq'. cbn [event]. eauto.
Qed.

End NegativeDelay.

(** The first answer dispatches the first activity of the first scenario
    with a delay of -1. *)
Lemma negative_first_delay_raises_witness :
  simulate plan_min_lag 5 (new_simulator (script [dispatch (-1) 0 0 4 [1]])) 20 1
  = Threw ValueError.
Proof.
  apply (negative_first_delay_raises plan_min_lag
           (new_simulator (script [dispatch (-1) 0 0 4 [1]]))
           (after_events plan_min_lag 0 (script [dispatch (-1) 0 0 4 [1]]) 20)).
  - vm_compute. reflexivity.
  - vm_compute. reflexivity.
  - lia.
Defined.


(** ** One record for each activity *)

Lemma dict_set_keys {V : Type} (d : list ((nat * nat) * V)) (k k' : nat * nat) (v : V) :
  In k' (map fst (dict_set d k v)) <-> k' = k \/ In k' (map fst d).
Proof.
  induction d as [|[k0 v0] d IH]; simpl.
  - split; [intros [<-|[]]; now left | intros [->|[]]; now left].
  - destruct (pair_eqb k0 k) eqn:E; simpl.
    + apply pair_eqb_eq in E. subst k0. intuition congruence.
    + rewrite IH. tauto.
Qed.

Lemma dict_set_NoDup {V : Type} (d : list ((nat * nat) * V)) (k : nat * nat) (v : V) :
  NoDup (map fst d) -> NoDup (map fst (dict_set d k v)).
Proof.
  induction d as [|[k0 v0] d IH]; simpl; intros H.
  - constructor; [intros [] | constructor].
  - inversion H as [|? ? Hn Hd]; subst.
    destruct (pair_eqb k0 k) eqn:E; simpl.
    + constructor; assumption.
    + constructor; [|now apply IH].
      rewrite dict_set_keys. intros [->|Hin]; [|contradiction].
      rewrite (proj2 (pair_eqb_eq k k) eq_refl) in E. discriminate.
Qed.

Lemma write_sentinels_keys (acts : list (nat * nat)) :
  forall usage,
    NoDup (map fst usage) ->
    NoDup (map fst (write_sentinels acts usage))
    /\ (forall k, In k acts \/ In k (map fst usage) ->
                  In k (map fst (write_sentinels acts usage))).
Proof.
  induction acts as [|act rest IH]; intros usage H; simpl.
  - split; [exact H | tauto].
  - destruct (IH (dict_set usage act (sentinel (fst act) (snd act))))
      as [H1 H2]; [now apply dict_set_NoDup|].
    split; [exact H1|]. intros k Hk. apply H2.
    rewrite dict_set_keys. destruct Hk as [[->|Hk]|Hk]; tauto.
Qed.

Section Keys.
Context {op : Operator}.
Variable plan : ProductionPlan.

(** An event leaves the usage records as they are or assigns one of them. *)
Lemma usage_step_cases (st st' : Simulator op) :
  step plan st = Continue st' ->
  resource_usage st' = resource_usage st
  \/ exists k v, resource_usage st' = dict_set (resource_usage st) k v.
Proof.
  unfold step. destruct (queue (env st)) as [|s q]; [discriminate|].
  destruct (event s) as [|a|fin|p|item w|w|[e|]|]; intros Hs;
    try discriminate Hs; apply Continue_inj in Hs; rewrite <- Hs; clear Hs st'.
  - left. now rewrite usage_activity_generator.
  - left. now rewrite usage_activity_processing.
  - left. now rewrite usage_activity_generator.
  - unfold finish_processing. destruct (nth_error _ _); [|now left].
    unfold release_loop. destruct (resources p) as [|m rest].
    + right. cbn. eauto.
    + left. now rewrite usage_factory_put.
  - left. now rewrite usage_resume_acquiring, usage_trigger_put.
  - unfold resume_releasing, release_loop.
    destruct (trigger_get_frame
                (set_env st {| now := at_time s; queue := q; eid := eid (env st) |}))
      as (_ & Hu & _).
    destruct (rel_rest w) as [|m rest].
    + right. cbn. rewrite Hu. cbn. eauto.
    + left. now rewrite usage_factory_put, Hu.
  - now left.
Qed.

Lemma keys_steps (n : nat) :
  forall st st' : Simulator op,
    steps plan n st = Some st' ->
    NoDup (map fst (resource_usage st)) ->
    NoDup (map fst (resource_usage st'))
    /\ (forall k, In k (map fst (resource_usage st)) ->
                  In k (map fst (resource_usage st'))).
Proof.
  induction n as [|n IH]; intros st st'; simpl.
  - intros H. injection H as <-. tauto.
  - destruct (step plan st) as [st1| | |] eqn:E; try discriminate.
    intros H Hnd. apply usage_step_cases in E.
    assert (H1 : NoDup (map fst (resource_usage st1))
                 /\ (forall k, In k (map fst (resource_usage st)) ->
                               In k (map fst (resource_usage st1)))).
    { destruct E as [->|(k & v & ->)]; [tauto|].
      split; [now apply dict_set_NoDup|]. intros k' Hk. rewrite dict_set_keys. tauto. }
    destruct H1 as [H1 H2]. destruct (IH _ _ H H1) as [H3 H4].
    split; [exact H3 | auto].
Qed.

End Keys.

(** X18.  The table [simulate] returns, started on a new simulator, has one row
    for each activity: no two rows have the same product index and activity
    id, and every planned activity has its row. *)
Theorem simulate_table_one_row_per_activity {op : Operator} (plan : ProductionPlan)
  (fuel : nat) (o : OpState op) (sim_time seed : Z) (tbl : list UsageRecord)
  (triple : xtime * Z * nat) :
  simulate plan fuel (new_simulator o) sim_time seed = Returned (tbl, triple) ->
  NoDup (map row_key tbl)
  /\ forall product_index activity_id,
       In (product_index, activity_id) (earliest_start plan) ->
       exists row, In row tbl /\ ProductIndex row = product_index
                   /\ ActivityId row = activity_id.
Proof.
  unfold simulate.
  destruct (simulate_setup _ _ _ _) as [st0|e] eqn:Es; [|discriminate].
  destruct (run plan fuel st0) as [st'| |] eqn:Er; try discriminate.
  destruct (process_results _ _); [|discriminate].
  intros H. injection H as <- _.
  destruct (consistent_run_stopped plan sim_time fuel st0 st'
              (consistent_new plan sim_time o st0 seed Es) Er)
    as (n & st1 & Hn & H1 & Hstop).
  destruct (consistent_stop plan sim_time st1 st' H1 Hstop) as (_ & _ & _ & _ & Hu).
  destruct H1 as (_ & _ & _ & _ & _ & _ & Hrows).
  assert (K0 : NoDup (map fst (resource_usage st0))
               /\ forall k, In k (earliest_start plan) -> In k (map fst (resource_usage st0))).
  { revert Es. unfold simulate_setup. destruct (_ <=? 0); [discriminate|].
    destruct (create_resources _ _ _ _); [|discriminate].
    destruct (sim_time <=? _); [discriminate|].
    intros E. injection E as <-. cbn.
    destruct (write_sentinels_keys (earliest_start plan) []) as [K1 K2]; [constructor|].
    split; [exact K1 | auto]. }
  destruct K0 as [K1 K2]. destruct (keys_steps plan n st0 st1 Hn K1) as [K3 K4].
  assert (M : map row_key (table st') = map fst (resource_usage st1)).
  { unfold table. rewrite Hu, map_map. apply map_ext_in. intros [k row] Hin.
    rewrite Forall_forall in Hrows. destruct (Hrows _ Hin) as (R1 & R2 & _).
    cbn in *. unfold row_key. rewrite R1, R2. now destruct k. }
  split; [now rewrite M|].
  intros pi ai Hin. specialize (K4 _ (K2 _ Hin)). rewrite <- M in K4.
  apply in_map_iff in K4. destruct K4 as (row & Hk & Hrow).
  exists row. unfold row_key in Hk. injection Hk as <- <-. auto.
Qed.

Lemma simulate_table_one_row_per_activity_witness :
  NoDup (map row_key (table st_end_two_products))
  /\ forall product_index activity_id,
       In (product_index, activity_id) (earliest_start plan_two_products) ->
       exists row, In row (table st_end_two_products)
                   /\ ProductIndex row = product_index /\ ActivityId row = activity_id.
Proof.
  apply (simulate_table_one_row_per_activity plan_two_products 100
           (script decisions_two_products) 20 1 (table st_end_two_products)
           (Fin 4, 1, 1%nat)).
  vm_compute. reflexivity.
Defined.


(** ** After the operator has finished *)

Section Finish.
Context {op : Operator}.
Variable plan : ProductionPlan.

Lemma asking_schedule (st : Simulator op) ev prio dl :
  asking_count (schedule st ev prio dl)
  = ((if asking ev then 1 else 0) + asking_count st)%nat.
Proof. unfold asking_count, schedule. cbn. now rewrite sum_of_heappush. Qed.

Lemma asking_same (st st' : Simulator op) :
  env st' = env st -> asking_count st' = asking_count st.
Proof. intros H. unfold asking_count. now rewrite H. Qed.

Lemma asking_trigger_get_loop (pending : list Acquiring) :
  forall st : Simulator op,
    asking_count (fst (trigger_get_loop pending st)) = asking_count st.
Proof.
  induction pending as [|w rest IH]; intros st; simpl; [reflexivity|].
  destruct (take_item _ _) as [[item items']|].
  - rewrite IH, asking_schedule. reflexivity.
  - specialize (IH st). now destruct (trigger_get_loop rest st).
Qed.

Lemma asking_trigger_get (st : Simulator op) :
  asking_count (_trigger_get st) = asking_count st.
Proof.
  unfold _trigger_get.
  pose proof (asking_trigger_get_loop (get_queue (factory st)) st) as H.
  now destruct (trigger_get_loop _ _).
Qed.

Lemma asking_trigger_put (st : Simulator op) :
  asking_count (_trigger_put st) = asking_count st.
Proof.
  unfold _trigger_put. destruct (put_queue (factory st)) as [|[item w] rest]; [reflexivity|].
  destruct (_ <? _); [|reflexivity]. now rewrite asking_schedule.
Qed.

Lemma asking_factory_get (st : Simulator op) w :
  asking_count (factory_get st w) = asking_count st.
Proof. unfold factory_get. now rewrite asking_trigger_get. Qed.

Lemma asking_factory_put (st : Simulator op) item w :
  asking_count (factory_put st item w) = asking_count st.
Proof. unfold factory_put. now rewrite asking_trigger_put. Qed.

Lemma asking_start_processing (st : Simulator op) a rt rs :
  asking_count (start_processing plan st a rt rs) = asking_count st.
Proof.
  unfold start_processing, process_raise.
  destruct (nth_error _ _); [|now rewrite asking_schedule].
  destruct (_ <? _); now rewrite asking_schedule.
Qed.

Lemma asking_acquire_loop (a : ActivityArgs) rt rest :
  forall (st : Simulator op) rs r,
    asking_count (acquire_loop plan st a rt rs r rest) = asking_count st.
Proof.
  induction rest as [|need rest IH]; intros st rs r; simpl.
  - apply asking_start_processing.
  - destruct (0 <? need); [|apply IH].
    destruct (nth_error _ _); [apply asking_factory_get|].
    unfold process_raise. now rewrite asking_schedule.
Qed.

Lemma asking_resume_acquiring (st : Simulator op) w item :
  asking_count (resume_acquiring plan st w item) = asking_count st.
Proof.
  unfold resume_acquiring.
  destruct (acq_remaining w); [apply asking_acquire_loop | apply asking_factory_get].
Qed.

Lemma asking_release_loop (st : Simulator op) p t rest :
  asking_count (release_loop st p t rest) = asking_count st.
Proof.
  unfold release_loop. destruct rest; [|apply asking_factory_put].
  unfold process_return. now rewrite asking_schedule.
Qed.

Lemma asking_finish_processing (st : Simulator op) p :
  asking_count (finish_processing plan st p) = asking_count st.
Proof.
  unfold finish_processing, process_raise.
  destruct (nth_error _ _); [|now rewrite asking_schedule].
  now rewrite asking_release_loop.
Qed.

Lemma asking_activity_processing (st : Simulator op) a :
  asking_count (activity_processing plan st a) = asking_count st.
Proof.
  unfold activity_processing.
  pose proof (constraint_check_frame plan st a) as F.
  destruct (constraint_check plan st a) as [[code|e] st1]; cbn in F;
    destruct F as (Fe & _).
  - destruct code as [c|].
    + unfold reject, process_return. rewrite asking_schedule. cbn.
      apply asking_same. exact Fe.
    + rewrite asking_acquire_loop. apply asking_same. exact Fe.
  - unfold process_raise. rewrite asking_schedule. cbn. apply asking_same. exact Fe.
Qed.

(** A pass of the generator schedules its next pass unless the operator
    has finished or the delay is negative. *)
Lemma asking_activity_generator (st : Simulator op) :
  (asking_count (activity_generator st false)
   <= asking_count st
      + (if finish (fst (send_next_activity op (operator st) (now (env st))))
         then 0 else 1))%nat.
Proof.
  unfold activity_generator.
  destruct (send_next_activity op _ _) as [d o]. cbn [fst].
  assert (H : asking_count
                (if send_activity d
                 then schedule (set_operator st o)
                        (Initialize_activity
                           {| activity_id := d_activity_id d;
                              product_index := d_product_index d;
                              proc_time := d_proc_time d; needs := d_needs d |})
                        URGENT 0
                 else set_operator st o)
              = asking_count st).
  { destruct (send_activity d); [|reflexivity]. now rewrite asking_schedule. }
  destruct (_ <? _); unfold process_raise; rewrite asking_schedule, H; cbn [asking].
  - lia.
  - destruct (finish d); lia.
Qed.

Lemma asking_step (st st' : Simulator op) (s : Scheduled) (q : list Scheduled) :
  queue (env st) = s :: q ->
  step plan st = Continue st' ->
  (asking_count st' + (if asking (event s) then 1 else 0)
   <= asking_count st
      + (if asking (event s)
         then if finish (fst (send_next_activity op (operator st) (at_time s)))
              then 0 else 1
         else 0))%nat.
Proof.
  intros E. unfold step. rewrite E.
  assert (P : asking_count st
              = ((if asking (event s) then 1 else 0)
                 + asking_count
                     (set_env st {| now := at_time s; queue := q; eid := eid (env st) |}))%nat).
  { unfold asking_count. rewrite E. reflexivity. }
  destruct (event s) as [|a|[|]|p|item w|w|[e|]|]; intros Hs;
    try discriminate Hs; apply Continue_inj in Hs; rewrite <- Hs; clear Hs st';
    cbn [asking] in *.
  - pose proof (asking_activity_generator
                  (set_env st {| now := at_time s; queue := q; eid := eid (env st) |})) as G.
    cbn [operator set_env env now] in G. destruct (finish _); cbv iota in G |- *; lia.
  - rewrite asking_activity_processing. lia.
  - unfold activity_generator, process_return. rewrite asking_schedule. cbn [asking]. lia.
  - pose proof (asking_activity_generator
                  (set_env st {| now := at_time s; queue := q; eid := eid (env st) |})) as G.
    cbn [operator set_env env now] in G. destruct (finish _); cbv iota in G |- *; lia.
  - rewrite asking_finish_processing. lia.
  - rewrite asking_resume_acquiring, asking_trigger_put. lia.
  - unfold resume_releasing. rewrite asking_release_loop, asking_trigger_get. lia.
  - lia.
Qed.

Lemma asking_none_steps (n : nat) :
  forall st st' : Simulator op,
    asking_count st = 0%nat -> steps plan n st = Some st' -> asking_count st' = 0%nat.
Proof.
  induction n as [|n IH]; intros st st' H; simpl.
  - intros E. now injection E as <-.
  - destruct (step plan st) as [st1| | |] eqn:E; try discriminate.
    apply IH. destruct (queue (env st)) as [|s q] eqn:Eq.
    + unfold step in E. rewrite Eq in E. discriminate.
    + pose proof (asking_step st st1 s q Eq E) as A.
      assert (N : asking (event s) = false).
      { unfold asking_count in H. rewrite Eq in H. cbn in H.
        destruct (asking (event s)); [discriminate | reflexivity]. }
      rewrite N in A. lia.
Qed.

Lemma asking_one_steps (n : nat) :
  forall st st' : Simulator op,
    (asking_count st <= 1)%nat -> steps plan n st = Some st' ->
    (asking_count st' <= 1)%nat.
Proof.
  induction n as [|n IH]; intros st st' H; simpl.
  - intros E. now injection E as <-.
  - destruct (step plan st) as [st1| | |] eqn:E; try discriminate.
    apply IH. destruct (queue (env st)) as [|s q] eqn:Eq.
    + unfold step in E. rewrite Eq in E. discriminate.
    + pose proof (asking_step st st1 s q Eq E) as A.
      destruct (asking (event s)); [|lia].
      destruct (finish _); lia.
Qed.

Lemma asking_none (st : Simulator op) : asking_count st = 0%nat -> asks st = false.
Proof.
  unfold asking_count, asks. destruct (queue (env st)) as [|s q]; [reflexivity|].
  cbn. destruct (asking (event s)); [discriminate | reflexivity].
Qed.

Lemma setup_asking (st st0 : Simulator op) (sim_time seed : Z) :
  simulate_setup plan st sim_time seed = Ok st0 -> asking_count st0 = 1%nat.
Proof.
  unfold simulate_setup. destruct (_ <=? 0); [discriminate|].
  destruct (create_resources _ _ _ _); [|discriminate].
  destruct (sim_time <=? _); [discriminate|].
  intros H. injection H as <-. now rewrite !asking_schedule.
Qed.

(** X19.  Once the operator has answered with [finish] set, it is not asked
    again: in a run of [simulate], after the event in which
    [send_next_activity] returns [finish = True], no later event calls
    [send_next_activity]. *)
Theorem operator_not_asked_after_finish (st st0 st1 : Simulator op)
  (sim_time seed : Z) (n : nat) (s : Scheduled) (q : list Scheduled)
  (Hsetup : simulate_setup plan st sim_time seed = Ok st0)
  (Hsteps : steps plan n st0 = Some st1)
  (Hq : queue (env st1) = s :: q)
  (Hasks : asking (event s) = true)
  (Hfinish : finish (fst (send_next_activity op (operator st1) (at_time s))) = true) :
  forall m st2, steps plan (S m) st1 = Some st2 -> asks st2 = false.
Proof.
  intros m st2. simpl.
  destruct (step plan st1) as [st'| | |] eqn:E; try discriminate.
  intros H. apply asking_none. apply (asking_none_steps m st' st2); [|exact H].
  pose proof (asking_one_steps n st0 st1) as B.
  rewrite (setup_asking _ _ _ _ Hsetup) in B. specialize (B (Nat.le_refl _) Hsteps).
  pose proof (asking_step st1 st' s q Hq E) as A.
  rewrite Hasks, Hfinish in A. lia.
Qed.

End Finish.

(** The operator dispatches the first activity of the first scenario and
    finishes with its first answer. *)
Lemma operator_not_asked_after_finish_witness :
  let ds := [ {| send_activity := true; delay := 1; d_activity_id := 0;
                 d_product_index := 0; d_proc_time := 4; d_needs := [1];
                 finish := true |} ] in
  asks (after_events plan_min_lag 3 (script ds) 20) = false.
Proof.
  intros ds.
  apply (operator_not_asked_after_finish plan_min_lag
           (new_simulator (script ds)) (after_events plan_min_lag 0 (script ds) 20)
           (after_events plan_min_lag 0 (script ds) 20) 20 1 0
           {| at_time := 0; priority := URGENT; seq := 0; event := Initialize_generator |}
           [ {| at_time := 20; priority := URGENT; seq := 1; event := Until |} ]
           ltac:(vm_compute; reflexivity) eq_refl ltac:(vm_compute; reflexivity)
           eq_refl eq_refl 2).
  vm_compute. reflexivity.
Defined.


(** ** Runs that take any least entry of the queue *)

Lemma key_le_leb (a b : Scheduled) : key_le a b <-> key_leb a b = true.
Proof. unfold key_le. now rewrite key_leb_spec. Qed.

Lemma heappush_Permutation (x : Scheduled) (q : list Scheduled) :
  Permutation (heappush x q) (x :: q).
Proof.
  induction q as [|y q IH]; simpl; [reflexivity|].
  destruct (key_ltb x y); [reflexivity|].
  rewrite IH. apply perm_swap.
Qed.

(** In a sorted queue whose entries have different eids, the entry
    [heappop] takes is the head. *)
Lemma heappop_head (q : list Scheduled) (s : Scheduled) (q' : list Scheduled) :
  sorted_queue q -> NoDup (map seq q) -> heappop q s q' -> q = s :: q'.
Proof.
  intros Hs Hn H. destruct H as [q1 q2 s Hleast].
  destruct q1 as [|h q1]; [reflexivity|]. exfalso.
  simpl in *. unfold sorted_queue in Hs. apply StronglySorted_inv in Hs.
  destruct Hs as [_ Hh]. rewrite Forall_forall in Hh.
  assert (Hin : In s (q1 ++ s :: q2)) by (apply in_or_app; right; now left).
  specialize (Hh s Hin). apply key_leb_spec in Hh.
  specialize (Hleast h (or_introl eq_refl)). unfold key_le in Hleast.
  assert (E : seq h = seq s) by lia.
  inversion Hn as [|? ? Hnot _]; subst. apply Hnot. rewrite E.
  apply in_map. exact Hin.
Qed.

Lemma heappop_of_head (s : Scheduled) (q : list Scheduled) :
  sorted_queue (s :: q) -> heappop (s :: q) s q.
Proof.
  intros Hs. apply (heappop_least [] q s). intros x [<-|Hx].
  - unfold key_le. lia.
  - unfold sorted_queue in Hs. apply StronglySorted_inv in Hs. destruct Hs as [_ Hh].
    rewrite Forall_forall in Hh. apply key_le_leb. now apply Hh.
Qed.

Section Ordered.
Context {op : Operator}.
Variable plan : ProductionPlan.

Lemma step_handle (st : Simulator op) (s : Scheduled) (q : list Scheduled) :
  queue (env st) = s :: q ->
  step plan st
  = handle plan (set_env st {| now := at_time s; queue := q; eid := eid (env st) |})
           (event s).
Proof.
  intros E. unfold step, handle. rewrite E.
  destruct (event s) as [|a|fin|p|item w|w|[e|]|]; reflexivity.
Qed.

Lemma ordered_schedule (st : Simulator op) ev prio dl :
  ordered st -> ordered (schedule st ev prio dl).
Proof.
  intros (Hs & Hf & Hn). unfold ordered, schedule. cbn [env set_env queue eid].
  split; [now apply heappush_sorted|]. split.
  - eapply Permutation_Forall; [symmetry; apply heappush_Permutation|].
    constructor; [cbn; lia|]. eapply Forall_impl; [|exact Hf]. cbn. intros. lia.
  - eapply Permutation_NoDup;
      [apply Permutation_map; symmetry; apply heappush_Permutation|].
    cbn. constructor; [|exact Hn].
    intros Hin. apply in_map_iff in Hin. destruct Hin as (x & Hx & Hin).
    rewrite Forall_forall in Hf. specialize (Hf x Hin). lia.
Qed.

Lemma ordered_same (st st' : Simulator op) :
  env st' = env st -> ordered st -> ordered st'.
Proof. intros He. unfold ordered. now rewrite He. Qed.

Lemma ordered_trigger_get_loop (pending : list Acquiring) :
  forall st : Simulator op, ordered st -> ordered (fst (trigger_get_loop pending st)).
Proof.
  induction pending as [|w rest IH]; intros st H; simpl; [exact H|].
  destruct (take_item _ _) as [[item items']|].
  - apply IH, ordered_schedule. eapply ordered_same; [|exact H]. reflexivity.
  - specialize (IH st H). now destruct (trigger_get_loop rest st).
Qed.

Lemma ordered_trigger_get (st : Simulator op) : ordered st -> ordered (_trigger_get st).
Proof.
  intros H. unfold _trigger_get.
  pose proof (ordered_trigger_get_loop (get_queue (factory st)) st H) as L.
  destruct (trigger_get_loop _ _) as [st' still]. cbn [fst] in L.
  eapply ordered_same; [|exact L]. reflexivity.
Qed.

Lemma ordered_trigger_put (st : Simulator op) : ordered st -> ordered (_trigger_put st).
Proof.
  intros H. unfold _trigger_put.
  destruct (put_queue (factory st)) as [|[item w] rest]; [exact H|].
  destruct (_ <? _); [|exact H].
  apply ordered_schedule. eapply ordered_same; [|exact H]. reflexivity.
Qed.

Lemma ordered_factory_get (st : Simulator op) w :
  ordered st -> ordered (factory_get st w).
Proof.
  intros H. apply ordered_trigger_get. eapply ordered_same; [|exact H]. reflexivity.
Qed.

Lemma ordered_factory_put (st : Simulator op) item w :
  ordered st -> ordered (factory_put st item w).
Proof.
  intros H. apply ordered_trigger_put. eapply ordered_same; [|exact H]. reflexivity.
Qed.

Lemma ordered_start_processing (st : Simulator op) a rt rs :
  ordered st -> ordered (start_processing plan st a rt rs).
Proof.
  intros H. unfold start_processing, process_raise.
  destruct (nth_error _ _); [|now apply ordered_schedule].
  destruct (_ <? _); apply ordered_schedule; (eapply ordered_same; [|exact H]); reflexivity.
Qed.

Lemma ordered_acquire_loop (a : ActivityArgs) rt rest :
  forall (st : Simulator op) rs r,
    ordered st -> ordered (acquire_loop plan st a rt rs r rest).
Proof.
  induction rest as [|need rest IH]; intros st rs r H; simpl.
  - now apply ordered_start_processing.
  - destruct (0 <? need); [|now apply IH].
    destruct (nth_error _ _); [now apply ordered_factory_get|].
    now apply ordered_schedule.
Qed.

Lemma ordered_resume_acquiring (st : Simulator op) w item :
  ordered st -> ordered (resume_acquiring plan st w item).
Proof.
  intros H. unfold resume_acquiring.
  destruct (acq_remaining w); [now apply ordered_acquire_loop | now apply ordered_factory_get].
Qed.

Lemma ordered_release_loop (st : Simulator op) p t rest :
  ordered st -> ordered (release_loop st p t rest).
Proof.
  intros H. unfold release_loop. destruct rest; [|now apply ordered_factory_put].
  apply ordered_schedule. eapply ordered_same; [|exact H]. reflexivity.
Qed.

Lemma ordered_finish_processing (st : Simulator op) p :
  ordered st -> ordered (finish_processing plan st p).
Proof.
  intros H. unfold finish_processing.
  destruct (nth_error _ _); [|now apply ordered_schedule].
  apply ordered_release_loop. eapply ordered_same; [|exact H]. reflexivity.
Qed.

Lemma ordered_activity_processing (st : Simulator op) a :
  ordered st -> ordered (activity_processing plan st a).
Proof.
  intros H. unfold activity_processing.
  pose proof (constraint_check_frame plan st a) as F.
  destruct (constraint_check plan st a) as [[code|e] st1]; cbn in F;
    destruct F as (Fe & _).
  - assert (H1 : ordered (set_logger st1 (set_failure_code (logger st1) code)))
      by (eapply ordered_same; [|exact H]; exact Fe).
    destruct code as [c|].
    + apply ordered_schedule. eapply ordered_same; [|exact H1]. reflexivity.
    + now apply ordered_acquire_loop.
  - apply ordered_schedule. eapply ordered_same; [|exact H]. exact Fe.
Qed.

Lemma ordered_activity_generator (st : Simulator op) fin :
  ordered st -> ordered (activity_generator st fin).
Proof.
  intros H. unfold activity_generator. destruct fin; [now apply ordered_schedule|].
  destruct (send_next_activity op _ _) as [d o].
  assert (H1 : ordered (set_operator st o)) by (eapply ordered_same; [|exact H]; reflexivity).
  assert (H2 : ordered (if send_activity d
                        then schedule (set_operator st o)
                               (Initialize_activity
                                  {| activity_id := d_activity_id d;
                                     product_index := d_product_index d;
                                     proc_time := d_proc_time d; needs := d_needs d |})
                               URGENT 0
                        else set_operator st o)).
  { destruct (send_activity d); [now apply ordered_schedule | exact H1]. }
  destruct (_ <? _); now apply ordered_schedule.
Qed.

Lemma ordered_pop (st : Simulator op) (s : Scheduled) (q : list Scheduled) :
  ordered st -> queue (env st) = s :: q ->
  ordered (set_env st {| now := at_time s; queue := q; eid := eid (env st) |}).
Proof.
  intros (Hs & Hf & Hn) E. rewrite E in *. unfold ordered. cbn.
  unfold sorted_queue in *. apply StronglySorted_inv in Hs.
  inversion Hf; subst. inversion Hn; subst. tauto.
Qed.

Lemma ordered_step (st st' : Simulator op) :
  ordered st -> step plan st = Continue st' -> ordered st'.
Proof.
  intros H. unfold step. destruct (queue (env st)) as [|s q] eqn:E; [discriminate|].
  pose proof (ordered_pop st s q H E) as P.
  destruct (event s) as [|a|fin|p|item w|w|[e|]|]; intros Hs;
    try discriminate Hs; apply Continue_inj in Hs; rewrite <- Hs; clear Hs st'.
  - now apply ordered_activity_generator.
  - now apply ordered_activity_processing.
  - now apply ordered_activity_generator.
  - now apply ordered_finish_processing.
  - now apply ordered_resume_acquiring, ordered_trigger_put.
  - unfold resume_releasing. now apply ordered_release_loop, ordered_trigger_get.
  - exact P.
Qed.

(** Such a step is the step the simulator takes, and the only one. *)
Lemma step_rel_step (st : Simulator op) :
  ordered st -> forall r, step_rel plan st r <-> r = step plan st.
Proof.
  intros (Hs & Hf & Hn) r. split.
  - intros H. destruct H as [E|s q' Hp].
    + unfold step. now rewrite E.
    + apply (heappop_head _ _ _ Hs Hn) in Hp. symmetry. now apply step_handle.
  - intros ->. destruct (queue (env st)) as [|s q] eqn:E.
    + unfold step. rewrite E. now apply step_rel_empty.
    + rewrite (step_handle st s q E). apply step_rel_pop. rewrite E.
      apply heappop_of_head. try rewrite E in Hs. exact Hs.
Qed.

(** Such a run is the run the simulator makes, and the only one. *)
Lemma run_rel_run (fuel : nat) :
  forall st : Simulator op,
    ordered st -> forall r, run_rel plan fuel st r <-> r = run plan fuel st.
Proof.
  induction fuel as [|fuel IH]; intros st H r; simpl.
  - split; [intros R; now inversion R | intros ->; constructor].
  - split.
    + intros R. inversion R as [|n s1 s2 r' Hs Hr|n s1 s2 Hs|n s1 s2 e Hs|n s1 s2 Hs];
        subst; apply (step_rel_step st H) in Hs; rewrite <- Hs; [|reflexivity..].
      apply IH; [|exact Hr]. apply (ordered_step st s2 H). now symmetry.
    + intros ->. destruct (step plan st) as [st'|st'|e st'|st'] eqn:E.
      * apply (run_rel_continue plan fuel st st'); [apply step_rel_step; auto|].
        apply IH; [|reflexivity]. now apply (ordered_step st st' H).
      * apply run_rel_stop. apply step_rel_step; auto.
      * apply run_rel_crash. apply step_rel_step; auto.
      * apply run_rel_empty. apply step_rel_step; auto.
Qed.

Lemma setup_ordered (st st0 : Simulator op) (sim_time seed : Z) :
  simulate_setup plan st sim_time seed = Ok st0 -> ordered st0.
Proof.
  unfold simulate_setup. destruct (_ <=? 0); [discriminate|].
  destruct (create_resources _ _ _ _); [|discriminate].
  destruct (sim_time <=? _); [discriminate|].
  intros H. injection H as <-. apply ordered_schedule, ordered_schedule.
  unfold ordered. cbn. split; [constructor|]. split; constructor.
Qed.

(** The outcomes of [simulate] over such runs: there is one, the one the
    simulator computes. *)
Lemma simulate_rel_simulate (fuel : nat) (st : Simulator op) (sim_time seed : Z)
  (out : Outcome (list UsageRecord * (xtime * Z * nat))) :
  simulate_rel plan fuel st sim_time seed out <-> out = simulate plan fuel st sim_time seed.
Proof.
  unfold simulate_rel, simulate.
  destruct (simulate_setup plan st sim_time seed) as [st0|e] eqn:E; [|tauto].
  pose proof (setup_ordered _ _ _ _ E) as H. split.
  - intros (r & Hr & ->). apply (run_rel_run fuel st0 H) in Hr. subst r.
    unfold simulate_result. now destruct (run plan fuel st0).
  - intros ->. exists (run plan fuel st0). split; [now apply run_rel_run|].
    unfold simulate_result. now destruct (run plan fuel st0).
Qed.

End Ordered.

(** ** The order of the rows *)

Lemma dict_set_add_key {V : Type} (d : list ((nat * nat) * V)) (k : nat * nat) (v : V) :
  map fst (dict_set d k v) = add_key (map fst d) k.
Proof.
  unfold add_key. induction d as [|[k0 v0] d IH]; simpl; [reflexivity|].
  destruct (pair_eqb k0 k); simpl; [reflexivity|].
  rewrite IH. now destruct (existsb _ (map fst d)).
Qed.

Lemma write_sentinels_order (acts : list (nat * nat)) :
  forall usage, map fst (write_sentinels acts usage) = fold_left add_key acts (map fst usage).
Proof.
  induction acts as [|act rest IH]; intros usage; simpl; [reflexivity|].
  now rewrite IH, dict_set_add_key.
Qed.

Section Order.
Context {op : Operator}.
Variable plan : ProductionPlan.

(** An event that completes an activity assigns the record of that
    activity; no other event assigns a record. *)
Lemma step_order (st st' : Simulator op) :
  step plan st = Continue st' ->
  map fst (resource_usage st')
  = fold_left add_key (match completing plan st with Some k => [k] | None => [] end)
              (map fst (resource_usage st)).
Proof.
  unfold step, completing. destruct (queue (env st)) as [|s q]; [discriminate|].
  destruct (event s) as [|a|fin|p|item w|w|[e|]|]; intros Hs;
    try discriminate Hs; apply Continue_inj in Hs; rewrite <- Hs; clear Hs st'.
  - now rewrite usage_activity_generator.
  - now rewrite usage_activity_processing.
  - now rewrite usage_activity_generator.
  - unfold finish_processing. destruct (nth_error _ _).
    + unfold release_loop. destruct (resources p) as [|m rest].
      * cbn. now rewrite dict_set_add_key.
      * now rewrite usage_factory_put.
    + now destruct (resources p).
  - now rewrite usage_resume_acquiring, usage_trigger_put.
  - unfold resume_releasing, release_loop.
    destruct (trigger_get_frame
                (set_env st {| now := at_time s; queue := q; eid := eid (env st) |}))
      as (_ & Hu & _).
    destruct (rel_rest w) as [|m rest].
    + cbn. now rewrite dict_set_add_key, Hu.
    + now rewrite usage_factory_put, Hu.
  - reflexivity.
Qed.

Lemma run_order (fuel : nat) :
  forall st st' : Simulator op,
    run plan fuel st = Stopped st' ->
    map fst (resource_usage st')
    = fold_left add_key (completions plan fuel st) (map fst (resource_usage st)).
Proof.
  induction fuel as [|fuel IH]; intros st st'; simpl; [discriminate|].
  destruct (step plan st) as [st1|st1|e st1|st1] eqn:E; try discriminate.
  - intros H. rewrite (IH _ _ H), fold_left_app. f_equal. now apply step_order.
  - intros H. injection H as <-. apply step_StopSimulation in E.
    destruct E as (_ & -> & _). reflexivity.
Qed.

Lemma setup_order (o : OpState op) (st0 : Simulator op) (sim_time seed : Z) :
  simulate_setup plan (new_simulator o) sim_time seed = Ok st0 ->
  map fst (resource_usage st0) = insertion_order (earliest_start plan).
Proof.
  unfold simulate_setup. destruct (_ <=? 0); [discriminate|].
  destruct (create_resources _ _ _ _); [|discriminate].
  destruct (sim_time <=? _); [discriminate|].
  intros E. injection E as <-. cbn. now rewrite write_sentinels_order.
Qed.

(** The rows of the table [simulate] returns are in the order in which
    their keys were first assigned: the planned activities in the order of
    the plan, then the others in the order of their completion. *)
Lemma simulate_table_order (fuel : nat) (o : OpState op) (sim_time seed : Z)
  (tbl : list UsageRecord) (triple : xtime * Z * nat) :
  simulate plan fuel (new_simulator o) sim_time seed = Returned (tbl, triple) ->
  map row_key tbl
  = insertion_order
      (earliest_start plan ++ simulate_completions plan fuel (new_simulator o) sim_time seed).
Proof.
  unfold simulate, simulate_completions.
  destruct (simulate_setup _ _ _ _) as [st0|e] eqn:Es; [|discriminate].
  destruct (run plan fuel st0) as [st'| |] eqn:Er; try discriminate.
  destruct (process_results _ _); [|discriminate].
  intros H. injection H as <- _.
  destruct (consistent_run_stopped plan sim_time fuel st0 st'
              (consistent_new plan sim_time o st0 seed Es) Er)
    as (n & st1 & Hn & H1 & Hstop).
  destruct (consistent_stop plan sim_time st1 st' H1 Hstop) as (_ & _ & _ & _ & Hu).
  destruct H1 as (_ & _ & _ & _ & _ & _ & Hrows).
  assert (M : map row_key (table st') = map fst (resource_usage st')).
  { unfold table. rewrite Hu, map_map. apply map_ext_in. intros [k row] Hin.
    rewrite Forall_forall in Hrows. destruct (Hrows _ Hin) as (R1 & R2 & _).
    cbn in *. unfold row_key. rewrite R1, R2. now destruct k. }
  rewrite M, (run_order fuel st0 st' Er), (setup_order o st0 sim_time seed Es).
  unfold insertion_order. now rewrite fold_left_app.
Qed.

End Order.

(** C9.  Two runs of [simulate] in which the operator returns the same
    decisions, whatever operator, operator state and seed produce them,
    have the same outcome.  The runs are those of [simulate_rel], in which
    the next event is any entry of the queue that no entry comes before in
    the order of (time, priority, eid): every such run of the first call has
    the outcome [out], and so has every such run of the second; [out] is the
    outcome the simulator computes.  When it is a table and a triple, the
    rows of the table are in the order in which their keys were first
    assigned: the planned activities in the order of the plan, followed by
    the activities outside the plan in the order in which the events
    completed them. *)
Theorem simulate_runs_agree {op1 op2 : Operator} (plan : ProductionPlan) (fuel : nat)
  (o1 : OpState op1) (o2 : OpState op2) (sim_time seed1 seed2 : Z)
  (Hdecisions :
     simulate_decisions plan fuel (new_simulator o1) sim_time seed1
     = simulate_decisions plan fuel (new_simulator o2) sim_time seed2) :
  exists out : Outcome (list UsageRecord * (xtime * Z * nat)),
    (forall out1, simulate_rel plan fuel (new_simulator o1) sim_time seed1 out1 <-> out1 = out)
    /\ (forall out2, simulate_rel plan fuel (new_simulator o2) sim_time seed2 out2 <-> out2 = out)
    /\ out = simulate plan fuel (new_simulator o1) sim_time seed1
    /\ forall tbl triple,
         out = Returned (tbl, triple) ->
         map row_key tbl
         = insertion_order
             (earliest_start plan
              ++ simulate_completions plan fuel (new_simulator o1) sim_time seed1).
Proof.
  exists (simulate plan fuel (new_simulator o1) sim_time seed1).
  split; [intros out1; apply simulate_rel_simulate|].
  split.
  - intros out2. rewrite (simulate_same_decisions plan fuel o1 o2 sim_time seed1 seed2 Hdecisions).
    apply simulate_rel_simulate.
  - split; [reflexivity|]. intros tbl triple. apply simulate_table_order.
Qed.

(** The scripted operator and the counting operator return the decisions
    of the first scenario; the seeds differ. *)
Lemma simulate_runs_agree_witness :
  exists out : Outcome (list UsageRecord * (xtime * Z * nat)),
    (forall out1,
        simulate_rel plan_min_lag 100 (new_simulator (script decisions_min_lag)) 20 1 out1
        <-> out1 = out)
    /\ (forall out2,
           simulate_rel plan_min_lag 100
             (new_simulator (op := counting decisions_min_lag) 0%nat) 20 2 out2
           <-> out2 = out)
    /\ out = simulate plan_min_lag 100 (new_simulator (script decisions_min_lag)) 20 1
    /\ forall tbl triple,
         out = Returned (tbl, triple) ->
         map row_key tbl
         = insertion_order
             (earliest_start plan_min_lag
              ++ simulate_completions plan_min_lag 100
                   (new_simulator (script decisions_min_lag)) 20 1).
Proof.
  apply (simulate_runs_agree (op1 := scripted) (op2 := counting decisions_min_lag)
           plan_min_lag 100 (script decisions_min_lag) 0%nat 20 1 2).
  vm_compute. reflexivity.
Defined.
